(** * Arithmetic simplification and AllReduce/Mul/AddN reassociation

    A shallow embedding of
    [mindspore/ccsrc/optimizer/irpass/arithmetic_simplify.cc]: the two
    arithmetic sweeps ([ArithmeticSimplify], [ArithmeticSimplify2]) and the
    visitor pass [AdjustAllReduceMulAdd], over a store of ANF nodes in
    which a node's identity is its address. *)

From Stdlib Require Import ZArith.
From stdpp Require Import base decidable option list gmap.

Set Default Proof Using "Type".
Open Scope nat_scope.

(** ** The IR: primitives, values, nodes

    The node and graph classes are declared outside this file; what
    follows is the data model of §3 of the specification. *)

(** The named primitives the file refers to through [prim::kPrim...]; any
    other primitive is [kPrimOther]. *)
Inductive Primitive :=
  | kPrimTensorAdd | kPrimScalarAdd | kPrimMul | kPrimScalarMul
  | kPrimIdentity | kPrimMomentum | kPrimZerosLike | kPrimMakeTuple
  | kPrimPow | kPrimAddN | kPrimAllReduce
  | kPrimOther (name : nat).

#[global] Instance Primitive_eq_dec : EqDecision Primitive.
Proof. solve_decision. Defined.

(** Two primitive references name the same primitive. *)
Definition same_primitive (p q : Primitive) : bool :=
  match p, q with
  | kPrimTensorAdd, kPrimTensorAdd | kPrimScalarAdd, kPrimScalarAdd
  | kPrimMul, kPrimMul | kPrimScalarMul, kPrimScalarMul
  | kPrimIdentity, kPrimIdentity | kPrimMomentum, kPrimMomentum
  | kPrimZerosLike, kPrimZerosLike | kPrimMakeTuple, kPrimMakeTuple
  | kPrimPow, kPrimPow | kPrimAddN, kPrimAddN
  | kPrimAllReduce, kPrimAllReduce => true
  | kPrimOther n, kPrimOther m => Nat.eqb n m
  | _, _ => false
  end.

(** What a value node holds: a scalar immediate, a tensor constant (its
    number of dimensions and its elements), a primitive or a sub-graph. *)
Inductive Value :=
  | Int32Imm (v : Z)
  | Tensor (dims : nat) (data : list Z)
  | PrimitiveValue (p : Primitive)
  | FuncGraphValue (fg : nat).

(** [AnfNodePtr]: the address of a node in the store; [FuncGraphPtr]: the
    name of a sub-graph.  A null pointer is [None] at the option type.  A
    node is a call (its inputs, the operator first, and its owning
    sub-graph, absent when the node is detached), a value or a
    parameter. *)
Abbreviation AnfNodePtr := nat (only parsing).
Abbreviation FuncGraphPtr := nat (only parsing).

Inductive AnfNode :=
  | CNode (inputs : list AnfNodePtr) (func_graph : option FuncGraphPtr)
  | ValueNode (value : Value)
  | ParameterNode (func_graph : option FuncGraphPtr).

(** The graph store: every node ever built, by address (a node is never
    freed while a pass runs), and the manager's [node_users] map from a node
    to its recorded (consumer, operand position) pairs.  The sub-graphs of
    a store share one manager, or have none (§3: a sub-graph's reference to
    its manager is optional): then [fg->manager()] is null and there is no
    map. *)
Record Graph := mkGraph {
  nodes : list AnfNode;
  node_users : option (gmap AnfNodePtr (list (AnfNodePtr * nat)))
}.

(** ** Results and the state-and-fault monad *)

(** A C++ call either returns or raises ([MS_EXCEPTION]). *)
Inductive outcome (A : Type) :=
  | Ok (a : A)
  | Fault.
Arguments Ok {A} a.
Arguments Fault {A}.

Definition M (S A : Type) : Type := S -> outcome (A * S).

Definition ret {S A} (a : A) : M S A := fun s => Ok (a, s).
Definition bind {S A B} (c : M S A) (k : A -> M S B) : M S B :=
  fun s => match c s with
           | Ok (a, s') => k a s'
           | Fault => Fault
           end.
Definition raise {S A} : M S A := fun _ => Fault.
Definition get {S} : M S S := fun s => Ok (s, s).
Definition modify {S} (f : S -> S) : M S unit := fun s => Ok (tt, f s).

Declare Scope pass_scope.
Delimit Scope pass_scope with pass.
Notation "x <- c ;; k" := (bind c (fun x => k))
  (at level 100, c at next level, right associativity) : pass_scope.
Notation "c ;; k" := (bind c (fun _ => k))
  (at level 100, right associativity) : pass_scope.
Open Scope pass_scope.

(** [for (auto &a : l) body(a);] *)
Fixpoint for_each {S A} (l : list A) (body : A -> M S unit) : M S unit :=
  match l with
  | [] => ret tt
  | a :: l' => body a ;; for_each l' body
  end.

(** ** Node queries *)

Definition node_at (g : Graph) (p : AnfNodePtr) : option AnfNode := nodes g !! p.

(** [node->cast<CNodePtr>()->inputs()], nothing when the node is no call. *)
Definition cnode_inputs (g : Graph) (p : AnfNodePtr) : option (list AnfNodePtr) :=
  match node_at g p with
  | Some (CNode inputs _) => Some inputs
  | _ => None
  end.

(** [node->func_graph()]: a value node has none. *)
Definition func_graph_of (g : Graph) (p : AnfNodePtr) : option FuncGraphPtr :=
  match node_at g p with
  | Some (CNode _ fg) => fg
  | Some (ParameterNode fg) => fg
  | _ => None
  end.

(** [node->isa<CNode>()] *)
Definition isa_CNode (g : Graph) (p : AnfNodePtr) : bool :=
  match node_at g p with
  | Some (CNode _ _) => true
  | _ => false
  end.

(** [IsVNode]: the node is a value node. *)
Definition IsVNode (g : Graph) (p : AnfNodePtr) : bool :=
  match node_at g p with
  | Some (ValueNode _) => true
  | _ => false
  end.

(** [GetValueNode] *)
Definition value_of (g : Graph) (p : AnfNodePtr) : option Value :=
  match node_at g p with
  | Some (ValueNode v) => Some v
  | _ => None
  end.

(** Modelled from the spec: [IsPrimitiveCNode(node, prim)] is declared
    outside this file; by §3 and §4.1 it holds of a call whose operator
    (first input) is a value node holding the named primitive. *)
Definition IsPrimitiveCNode (g : Graph) (p : AnfNodePtr) (prim : Primitive) : bool :=
  match cnode_inputs g p with
  | Some (op :: _) =>
      match value_of g op with
      | Some (PrimitiveValue q) => same_primitive q prim
      | _ => false
      end
  | _ => false
  end.

(** ** Graph construction primitives *)

(** Modelled from the spec: [NewValueNode] is declared outside this file;
    it stamps a new value node holding the literal (§6 [literal_of] is its
    inverse).  The new node gets the next free address. *)
Definition NewValueNode (v : Value) : M Graph AnfNodePtr :=
  fun g => Ok (length (nodes g),
               mkGraph (nodes g ++ [ValueNode v]) (node_users g)).

(** Modelled from the spec: [NewCNode(inputs, fg)] is declared outside this
    file; §6 [new_call(operands, owning_sub_graph)] constructs a new call
    owned by the given sub-graph, and §4.2 counts building a call with no
    sub-graph to build into as a fault.  The manager's user map is not
    touched: it learns of the node when the driver substitutes it in. *)
Definition NewCNode (inputs : list AnfNodePtr) (fg : option FuncGraphPtr)
  : M Graph AnfNodePtr :=
  fun g => match fg with
           | Some f => Ok (length (nodes g),
                           mkGraph (nodes g ++ [CNode inputs (Some f)]) (node_users g))
           | None => Fault
           end.

(** Dropping one (consumer, position) record from a user list. *)
Definition remove_user (u : AnfNodePtr * nat) (l : list (AnfNodePtr * nat)) :=
  filter (fun v => v ≠ u) l.

(** Modelled from the spec: the manager's [SetEdge(consumer, index, value)]
    is declared outside this file; §6 [replace_edge] re-points the operand
    at the recorded position of the consumer and moves the
    (consumer, position) record from the old producer's users to the new
    one's.  A position past the consumer's operands leaves its operands as
    they are.  It is a method of the manager: called through a null
    manager it is a fault. *)
Definition SetEdge (consumer : AnfNodePtr) (index : nat) (value : AnfNodePtr)
  : M Graph unit :=
  fun g =>
    match node_users g with
    | Some users =>
        match node_at g consumer with
        | Some (CNode inputs fg) =>
            let users1 :=
              match inputs !! index with
              | Some old => alter (remove_user (consumer, index)) old users
              | None => users
              end in
            let users2 :=
              <[value := default [] (users1 !! value) ++ [(consumer, index)]]> users1 in
            Ok (tt, mkGraph (<[consumer := CNode (<[index := value]> inputs) fg]> (nodes g))
                            (Some users2))
        | _ => Ok (tt, g)
        end
    | None => Fault
    end.

(** ** The pattern matcher *)

(** The pattern tokens [ArithmeticSimplify] declares: the wildcards
    [PatternNode x, y, z, xs] and the seven [PConstant]s. *)
Inductive PatternNode := px | py | pz | pxs.

Inductive PConstant :=
  | one_ | one_scalar_ | zero_ | zero_scalar_ | const_ | const_2 | any_const.

(** The constructor arguments [(node, any_value, check_value, is_scalar)]
    of each constant token (lines 24-30): [any_value] defaults to true,
    [check_value] to 0 and [is_scalar] to false. *)
Definition any_value (c : PConstant) : bool :=
  match c with
  | const_ | const_2 | any_const => true
  | _ => false
  end.

Definition check_value (c : PConstant) : Z :=
  match c with
  | one_ | one_scalar_ => 1%Z
  | _ => 0%Z
  end.

Definition is_scalar (c : PConstant) : bool :=
  match c with
  | one_scalar_ | zero_scalar_ => true
  | _ => false
  end.

(** Modelled from the spec: the literal test of the constant matcher is
    declared outside this file; §4.1 constrains a constant matcher to a
    specific literal, optionally to scalar-only literals.  A scalar
    immediate is the literal when it equals it; a tensor constant is the
    literal when all its elements equal it, and it is scalar-only when it
    has no dimension and a single element. *)
Definition is_constant (check : Z) (scalar : bool) (v : Value) : bool :=
  match v with
  | Int32Imm k => Z.eqb k check
  | Tensor dims data =>
      if scalar then
        match dims, data with
        | 0, [k] => Z.eqb k check
        | _, _ => false
        end
      else forallb (fun k => Z.eqb k check) data
  | _ => false
  end.

(** Modelled from the spec: [PConstant::TryCapture_] is declared outside
    this file; by §4.1 a constant matcher matches only a value node, of
    the required literal unless it takes any value. *)
Definition captures (g : Graph) (c : PConstant) (node : AnfNodePtr) : bool :=
  match value_of g node with
  | Some v => any_value c || is_constant (check_value c) (is_scalar c) v
  | None => false
  end.

(** Modelled from the spec: the pattern classes are declared outside this
    file; §4.1 describes them: a wildcard, a constant matcher, a
    primitive-call matcher whose operand count and operand patterns must
    all match, and the algebraic combinators [A + B], [A * B], which are
    the primitive-call matcher of the named operator over exactly two
    operands, in the order written. *)
#[warnings="-register-all"]
Inductive Pattern :=
  | PNode (v : PatternNode)
  | PConst (c : PConstant)
  | PPrimitive (prim : Primitive) (args : list Pattern)
  | PBinOperation (prim : Primitive) (x y : Pattern).

Declare Scope pattern_scope.
Delimit Scope pattern_scope with pattern.
Bind Scope pattern_scope with Pattern.
Notation "a + b" := (PBinOperation kPrimTensorAdd a b) : pattern_scope.
Notation "a * b" := (PBinOperation kPrimMul a b) : pattern_scope.
Coercion PNode : PatternNode >-> Pattern.
Coercion PConst : PConstant >-> Pattern.

(** What the tokens have captured during the current rule trial. *)
Record Bindings := mkBindings {
  captured_node : PatternNode -> option AnfNodePtr;
  captured_const : PConstant -> option AnfNodePtr
}.

Definition no_bindings : Bindings := mkBindings (fun _ => None) (fun _ => None).

Definition set_node (v : PatternNode) (o : option AnfNodePtr) (b : Bindings) : Bindings :=
  mkBindings (fun w => match v, w with
                       | px, px | py, py | pz, pz | pxs, pxs => o
                       | _, _ => captured_node b w
                       end)
             (captured_const b).

Definition set_const (c : PConstant) (o : option AnfNodePtr) (b : Bindings) : Bindings :=
  mkBindings (captured_node b)
             (fun d => match c, d with
                       | one_, one_ | one_scalar_, one_scalar_ | zero_, zero_
                       | zero_scalar_, zero_scalar_ | const_, const_
                       | const_2, const_2 | any_const, any_const => o
                       | _, _ => captured_const b d
                       end).

(** Modelled from the spec: the patterns' [Reset] is declared outside this
    file; by §3 a pattern starts each attempt with no binding: it forgets
    the captures of the tokens it is made of. *)
Fixpoint Reset_pattern (p : Pattern) (b : Bindings) : Bindings :=
  match p with
  | PNode v => set_node v None b
  | PConst c => set_const c None b
  | PPrimitive _ args => fold_left (fun b' a => Reset_pattern a b') args b
  | PBinOperation _ x y => Reset_pattern y (Reset_pattern x b)
  end.

(** Modelled from the spec: [TryCapture_] is declared outside this file;
    §4.1 makes it a boolean test with out-parameter bindings that stops at
    the first mismatch.  A wildcard captures any node, and a node equal to
    its capture when it has one; a constant captures what [captures]
    says; a call pattern tests the operator and the operand count, then
    its operands left to right. *)
Fixpoint TryCapture_ (g : Graph) (p : Pattern) (node : AnfNodePtr) (b : Bindings)
  {struct p} : bool * Bindings :=
  match p with
  | PNode v =>
      match captured_node b v with
      | None => (true, set_node v (Some node) b)
      | Some n => (Nat.eqb n node, b)
      end
  | PConst c =>
      if captures g c node then (true, set_const c (Some node) b) else (false, b)
  | PPrimitive prim args =>
      if IsPrimitiveCNode g node prim then
        match cnode_inputs g node with
        | Some (_ :: rest) =>
            if Nat.eqb (length rest) (length args) then
              (fix capture (ps : list Pattern) (ns : list AnfNodePtr) (b : Bindings)
                 : bool * Bindings :=
                 match ps, ns with
                 | q :: ps', n :: ns' =>
                     let '(ok, b1) := TryCapture_ g q n b in
                     if ok then capture ps' ns' b1 else (false, b1)
                 | _, _ => (true, b)
                 end) args rest b
            else (false, b)
        | _ => (false, b)
        end
      else (false, b)
  | PBinOperation prim x y =>
      if IsPrimitiveCNode g node prim then
        match cnode_inputs g node with
        | Some [_; n1; n2] =>
            let '(ok, b1) := TryCapture_ g x n1 b in
            if ok then TryCapture_ g y n2 b1 else (false, b1)
        | _ => (false, b)
        end
      else (false, b)
  end.

(** Modelled from the spec: [TryCapture] is declared outside this file;
    one rule trial (§3): reset, then capture. *)
Definition TryCapture (g : Graph) (p : Pattern) (node : AnfNodePtr) (b : Bindings)
  : bool * Bindings :=
  TryCapture_ g p node (Reset_pattern p b).

(** ** Replacement producers *)

(** Modelled from the spec: [PatternNode::GetNode] is declared outside this
    file; by §4.2 an unconditional rule returns the bound node itself and
    builds nothing.  A wildcard that captured nothing has no node to
    give. *)
Definition GetNode (v : PatternNode) (b : Bindings) : M Graph AnfNodePtr :=
  match captured_node b v with
  | Some n => ret n
  | None => raise
  end.

(** Modelled from the spec: [PConstant::GetNode] is declared outside this
    file; as for a wildcard, the node the constant holds.  The rules of
    this file read a constant only after it captured one. *)
Definition GetNode_const (c : PConstant) (b : Bindings) : M Graph AnfNodePtr :=
  match captured_const b c with
  | Some n => ret n
  | None => raise
  end.

(** Modelled from the spec: [PConstant::WithValueOf] is declared outside
    this file; §4.2 has a predicated rule return the node bound to the
    wildcard, so the constant takes over the wildcard's node when that
    node is a value node. *)
Definition WithValueOf (c : PConstant) (v : PatternNode) (b : Bindings)
  : M Graph AnfNodePtr :=
  g <- get ;;
  n <- GetNode v b ;;
  GetNode_const c (if IsVNode g n then set_const c (Some n) b else b).

(** Modelled from the spec: [PConstant::NewValue] is declared outside this
    file; §4.3 rule 3 replaces with a freshly stamped literal of the
    constant's check value. *)
Definition NewValue (c : PConstant) (b : Bindings) : M Graph AnfNodePtr :=
  NewValueNode (Int32Imm (check_value c)).

(** [x.CheckFunc(IsVNode, node)]: the predicate on the node bound to the
    wildcard (§4.2, "is this wildcard actually bound to a value node"). *)
Definition CheckFunc_IsVNode (v : PatternNode) (b : Bindings) : M Graph bool :=
  g <- get ;;
  n <- GetNode v b ;;
  ret (IsVNode g n).

(** Modelled from the spec: [PPrimitive::GetNode] is declared outside this
    file; the replacement [MakeTuple(z, y)] of §4.3 rule 7 is a new call
    of a freshly made operator node over the captured nodes, built in the
    candidate's sub-graph. *)
Definition GetNode_prim (prim : Primitive) (vs : list PatternNode)
    (node : AnfNodePtr) (b : Bindings) : M Graph AnfNodePtr :=
  args <- (fix nodes_of (vs : list PatternNode) : M Graph (list AnfNodePtr) :=
             match vs with
             | [] => ret []
             | v :: vs' => n <- GetNode v b ;; ns <- nodes_of vs' ;; ret (n :: ns)
             end) vs ;;
  op <- NewValueNode (PrimitiveValue prim) ;;
  g <- get ;;
  NewCNode (op :: args) (func_graph_of g node).

(** ** The rule-application macros *)

Definition Rule : Type := Bindings -> M Graph (option AnfNodePtr).

(** Modelled from the spec: the macro
    [MATCH_REPLACE(OrigNode, CaptureNode, ReplaceWith)] is declared outside
    this file; by §4.2, when the pattern captures the candidate the rule
    returns the replacement, and otherwise the next rule is tried: the
    rest of the function body. *)
Definition MATCH_REPLACE (node : AnfNodePtr) (pat : Pattern)
    (rep : Bindings -> M Graph AnfNodePtr) (rest : Rule) : Rule :=
  fun b g =>
    let '(ok, b') := TryCapture g pat node b in
    if ok then (r <- rep b' ;; ret (Some r)) g else rest b' g.

(** Modelled from the spec: [MATCH_REPLACE_IF(OrigNode, CaptureNode,
    ReplaceWith, Condition)] is declared outside this file; the predicated
    rule of §4.2: as above, plus a boolean check on a binding. *)
Definition MATCH_REPLACE_IF (node : AnfNodePtr) (pat : Pattern)
    (rep : Bindings -> M Graph AnfNodePtr) (cond : Bindings -> M Graph bool)
    (rest : Rule) : Rule :=
  fun b g =>
    let '(ok, b') := TryCapture g pat node b in
    if ok then (c <- cond b' ;;
                if c then r <- rep b' ;; ret (Some r) else rest b') g
    else rest b' g.

(** Modelled from the spec: [MATCH_REPLACE_LAMBDA(OrigNode, CaptureNode,
    Lambda)] is declared outside this file; the builder rule of §4.2: the
    replacement is what the builder returns. *)
Definition MATCH_REPLACE_LAMBDA (node : AnfNodePtr) (pat : Pattern)
    (lambda : Bindings -> M Graph AnfNodePtr) (rest : Rule) : Rule :=
  MATCH_REPLACE node pat lambda rest.

(** ** Sweep 1: [ArithmeticSimplify::operator()] *)

Section ArithmeticSimplify.

(** The literal arithmetic routine of §6, [fold(literal, literal, op)]: the
    folded literal, or nothing when the combination is not representable. *)
Variable fold : Value -> Value -> Primitive -> option Value.

(** Modelled from the spec: [PConstant::MulByPatternConst] is declared
    outside this file; §4.3 rule 5 folds the two captured constants through
    the literal arithmetic routine into one new constant node, and gives
    nothing when they do not combine. *)
Definition MulByPatternConst (c1 c2 : PConstant) (b : Bindings)
  : M Graph (option AnfNodePtr) :=
  n1 <- GetNode_const c1 b ;;
  n2 <- GetNode_const c2 b ;;
  g <- get ;;
  match value_of g n1, value_of g n2 with
  | Some v1, Some v2 =>
      match fold v1 v2 kPrimMul with
      | Some v => n <- NewValueNode v ;; ret (Some n)
      | None => ret None
      end
  | _, _ => ret None
  end.

(** Lines 46-54. *)
Definition const_dup_lambda (node : AnfNodePtr) (b : Bindings) : M Graph AnfNodePtr :=
  xn <- GetNode px b ;;
  new_mul_tensor <- MulByPatternConst const_ const_2 b ;;
  g <- get ;;
  match cnode_inputs g node with
  | Some (mul_node :: _) =>
      match new_mul_tensor with
      | None =>
          c1 <- GetNode_const const_ b ;;
          c2 <- GetNode_const const_2 b ;;
          ttmul <- NewCNode [mul_node; c1; c2] (func_graph_of g node) ;;
          NewCNode [mul_node; xn; ttmul] (func_graph_of g node)
      | Some t => NewCNode [mul_node; xn; t] (func_graph_of g node)
      end
  | _ => raise
  end.

(** Lines 22-69; the rules fall through to one another in the order of the
    source. *)
Definition ArithmeticSimplify (node : AnfNodePtr) : M Graph (option AnfNodePtr) :=
  (MATCH_REPLACE node (px + zero_) (GetNode px) $
   MATCH_REPLACE node (px + zero_scalar_) (GetNode px) $
   MATCH_REPLACE node (PPrimitive kPrimScalarAdd [PConst zero_scalar_; PNode px]) (GetNode px) $
   MATCH_REPLACE node (PPrimitive kPrimScalarAdd [PNode px; PConst zero_scalar_]) (GetNode px) $
   MATCH_REPLACE_IF node (px * one_) (WithValueOf any_const px) (CheckFunc_IsVNode px) $
   MATCH_REPLACE node (PPrimitive kPrimScalarMul [PConst one_scalar_; PNode px]) (GetNode px) $
   MATCH_REPLACE node (PPrimitive kPrimScalarMul [PNode px; PConst one_scalar_]) (GetNode px) $
   MATCH_REPLACE node (PPrimitive kPrimScalarMul [PConst zero_scalar_; PNode px]) (NewValue zero_) $
   MATCH_REPLACE node (PPrimitive kPrimScalarMul [PNode px; PConst zero_scalar_]) (NewValue zero_) $
   MATCH_REPLACE node (PPrimitive kPrimIdentity [PNode px]) (GetNode px) $
   MATCH_REPLACE_LAMBDA node (const_ * (const_2 * px)) (const_dup_lambda node) $
   fun b g =>
     match func_graph_of g node with
     | None => ret None g
     | Some _ =>
         (MATCH_REPLACE node
            (PPrimitive kPrimMomentum
               [PPrimitive kPrimZerosLike [PNode px]; PNode py; PNode pz; PNode pxs])
            (GetNode_prim kPrimMakeTuple [pz; py] node) $
          MATCH_REPLACE node (PPrimitive kPrimPow [PNode px; PConst one_scalar_]) (GetNode px) $
          fun _ => ret None) b g
     end) no_bindings.

End ArithmeticSimplify.

(** ** The reassociation pass: [AdjustAllReduceMulAdd] *)

(** The visitor object's fields.  [Reset] clears only some of them:
    [all_reduce_], [mul_] and [mul_cnode_] survive from one call of the pass
    to the next. *)
Record Visitor := mkVisitor {
  level_ : nat;
  is_reduce_match_ : bool;
  x_ : option AnfNodePtr;
  y_ : option AnfNodePtr;
  z_ : option AnfNodePtr;
  tmp_ : option AnfNodePtr;
  all_reduce_fg_ : option FuncGraphPtr;
  all_reduce_ : option AnfNodePtr;
  mul_ : option AnfNodePtr;
  mul_cnode_ : option AnfNodePtr
}.

(** What a call of the pass runs on: the visitor and the graph store. *)
Record PassState := mkPassState {
  self : Visitor;
  graph : Graph
}.

Definition on_self (f : Visitor -> Visitor) : M PassState unit :=
  modify (fun s => mkPassState (f (self s)) (graph s)).

(** Running a graph primitive from inside the pass. *)
Definition on_graph {A} (c : M Graph A) : M PassState A :=
  fun s => match c (graph s) with
           | Ok (a, g') => Ok (a, mkPassState (self s) g')
           | Fault => Fault
           end.

Definition set_level_ (n : nat) (v : Visitor) : Visitor :=
  mkVisitor n (is_reduce_match_ v) (x_ v) (y_ v) (z_ v) (tmp_ v)
            (all_reduce_fg_ v) (all_reduce_ v) (mul_ v) (mul_cnode_ v).

Definition set_is_reduce_match_ (m : bool) (v : Visitor) : Visitor :=
  mkVisitor (level_ v) m (x_ v) (y_ v) (z_ v) (tmp_ v)
            (all_reduce_fg_ v) (all_reduce_ v) (mul_ v) (mul_cnode_ v).

Definition set_z_ (z : option AnfNodePtr) (v : Visitor) : Visitor :=
  mkVisitor (level_ v) (is_reduce_match_ v) (x_ v) (y_ v) z (tmp_ v)
            (all_reduce_fg_ v) (all_reduce_ v) (mul_ v) (mul_cnode_ v).

Definition set_tmp_ (t : option AnfNodePtr) (v : Visitor) : Visitor :=
  mkVisitor (level_ v) (is_reduce_match_ v) (x_ v) (y_ v) (z_ v) t
            (all_reduce_fg_ v) (all_reduce_ v) (mul_ v) (mul_cnode_ v).

(** Lines 148-150: [mul_ = ...; mul_cnode_ = ...; y_ = tmp_;] *)
Definition set_mul_branch (op node : AnfNodePtr) (v : Visitor) : Visitor :=
  mkVisitor (level_ v) (is_reduce_match_ v) (x_ v) (tmp_ v) (z_ v) (tmp_ v)
            (all_reduce_fg_ v) (all_reduce_ v) (Some op) (Some node).

(** Lines 161-164: [all_reduce_ = ...; x_ = ...; is_reduce_match_ = true;
    all_reduce_fg_ = ...;] *)
Definition set_all_reduce (op x : AnfNodePtr) (fg : option FuncGraphPtr)
    (v : Visitor) : Visitor :=
  mkVisitor (level_ v) true (Some x) (y_ v) (z_ v) (tmp_ v)
            fg (Some op) (mul_ v) (mul_cnode_ v).

(** Lines 172-180, [AdjustAllReduceMulAdd::Reset]. *)
Definition Reset (v : Visitor) : Visitor :=
  mkVisitor 0 false None None None None None
            (all_reduce_ v) (mul_ v) (mul_cnode_ v).

(** [IsNode], declared outside this file: the predicate that accepts every
    node. *)
Definition IsNode (n : AnfNodePtr) : bool := true.

(** Modelled from the spec: [AnfVisitor::Match(prim, funcs)] is declared
    outside this file; §4.1 and §4.4 describe it: the node must be a call
    of the primitive; when predicates are given, their number must be the
    call's operand count and each must accept its operand; then the
    operands are visited, in order.  When any test fails, nothing is
    visited.  Line 145 passes no predicate and [Visit] binds [y_] from
    [tmp_] alone, which only a level-1 visit of an operand that is no
    AllReduce call sets: the match on a Mul visits every operand. *)
Definition Match (prim : Primitive) (funcs : list (AnfNodePtr -> bool))
    (visit : AnfNodePtr -> M PassState unit) (node : AnfNodePtr) : M PassState unit :=
  s <- get ;;
  if negb (IsPrimitiveCNode (graph s) node prim) then ret tt
  else match cnode_inputs (graph s) node with
       | Some inputs =>
           if bool_decide (0 < length funcs)
              && negb (bool_decide (length funcs = length inputs - 1)
                       && forallb (fun fn => fn.1 fn.2) (zip funcs (drop 1 inputs)))
           then ret tt
           else for_each (drop 1 inputs) visit
       | None => ret tt
       end.

(** Lines 156-169, the body run at [level_ == 1]. *)
Definition Visit_level1 (node : AnfNodePtr) : M PassState unit :=
  s <- get ;;
  if IsPrimitiveCNode (graph s) node kPrimAllReduce then
    match cnode_inputs (graph s) node with
    | Some (op :: x :: _) =>
        on_self (set_all_reduce op x (func_graph_of (graph s) node))
    | _ => ret tt
    end
  else on_self (set_tmp_ (Some node)).

(** Lines 140-170.  [Match] calls back into [Visit] through the visitor
    object; [visit] is that callback. *)
Definition Visit_body (visit : AnfNodePtr -> M PassState unit) (node : AnfNodePtr)
  : M PassState unit :=
  s <- get ;;
  (if bool_decide (level_ (self s) = 0) then
     on_self (set_level_ 1) ;;
     on_self (set_is_reduce_match_ false) ;;
     Match kPrimMul [] visit node ;;
     on_self (set_level_ 0) ;;
     s1 <- get ;;
     if is_reduce_match_ (self s1) then
       match cnode_inputs (graph s1) node with
       | Some (op :: _) => on_self (set_mul_branch op node)
       | _ => raise
       end
     else on_self (set_z_ (Some node))
   else ret tt) ;;
  s2 <- get ;;
  if bool_decide (level_ (self s2) = 1) then Visit_level1 node else ret tt.

(** [Visit], by the depth of nested activations still allowed; running out
    of depth is a fault of the model, which [Visit_depth] shows cannot
    happen from depth 2 on. *)
Fixpoint Visit (depth : nat) (node : AnfNodePtr) : M PassState unit :=
  match depth with
  | 0 => raise
  | S d => Visit_body (Visit d) node
  end.

(** Lines 129-136, the body of the loop over the users of the old Mul. *)
Definition ProcessDependEdge_user (addn_maketuple new_node : AnfNodePtr)
    (user_pair : AnfNodePtr * nat) : M PassState unit :=
  let node := user_pair.1 in
  if bool_decide (node ≠ addn_maketuple) then
    s <- get ;;
    if IsPrimitiveCNode (graph s) node kPrimMakeTuple
    then on_graph (SetEdge node user_pair.2 new_node)
    else ret tt
  else ret tt.

(** Lines 122-138.  Line 125 dereferences [fg->manager()] without a test:
    with no manager that is a fault.  With one, its user map is the one the
    store carries; the loop runs over a copy of the user list. *)
Definition ProcessDependEdge (addn_maketuple new_node : AnfNodePtr) : M PassState unit :=
  s <- get ;;
  match node_users (graph s) with
  | Some users_map =>
      match mul_cnode_ (self s) with
      | Some m =>
          match users_map !! m with
          | Some users => for_each users (ProcessDependEdge_user addn_maketuple new_node)
          | None => ret tt
          end
      | None => ret tt
      end
  | None => raise
  end.

(** A field that holds a node when it is read as an operand. *)
Definition deref {S} (o : option AnfNodePtr) : M S AnfNodePtr :=
  match o with
  | Some n => ret n
  | None => raise
  end.

(** Lines 88-98: reset, test the candidate, run the match.  The result is
    the AddN's operator node and its operand when the candidate is a call
    [AddN(operand)], nothing when line 92 or 96 returned. *)
Definition match_AddN (node : AnfNodePtr)
  : M PassState (option (AnfNodePtr * AnfNodePtr)) :=
  on_self Reset ;;
  s <- get ;;
  if negb (IsPrimitiveCNode (graph s) node kPrimAddN) then ret None
  else match cnode_inputs (graph s) node with
       | Some [addn_op_node; addn_maketuple] =>
           Match kPrimMakeTuple [IsNode; IsNode] (Visit 2) addn_maketuple ;;
           ret (Some (addn_op_node, addn_maketuple))
       | _ => ret None
       end.

(** Line 106: [z] is a call that lives in another sub-graph than [fg]. *)
Definition crosses_graph (g : Graph) (z : AnfNodePtr) (fg : FuncGraphPtr) : bool :=
  isa_CNode g z && negb (bool_decide (Some fg = func_graph_of g z)).

(** Lines 99-119: the acceptance test and the graph surgery. *)
Definition rewrite_AddN (addn_op_node addn_maketuple : AnfNodePtr)
  : M PassState (option AnfNodePtr) :=
  s1 <- get ;;
  match x_ (self s1), y_ (self s1), z_ (self s1), all_reduce_fg_ (self s1) with
  | Some x, Some y, Some z, Some fg =>
      z' <- (if crosses_graph (graph s1) z fg
             then match cnode_inputs (graph s1) z with
                  | Some zin =>
                      n <- on_graph (NewCNode zin (Some fg)) ;;
                      on_self (set_z_ (Some n)) ;;
                      ret n
                  | None => raise
                  end
             else ret z) ;;
      make_tuple_op_node <-
        match cnode_inputs (graph s1) addn_maketuple with
        | Some (op :: _) => ret op
        | _ => raise
        end ;;
      tuple <- on_graph (NewCNode [make_tuple_op_node; z'; x] (Some fg)) ;;
      add <- on_graph (NewCNode [addn_op_node; tuple] (Some fg)) ;;
      ar_op <- deref (all_reduce_ (self s1)) ;;
      all_reduce <- on_graph (NewCNode [ar_op; add] (Some fg)) ;;
      mul_op <- deref (mul_ (self s1)) ;;
      mul <- on_graph (NewCNode [mul_op; all_reduce; y] (Some fg)) ;;
      ProcessDependEdge addn_maketuple all_reduce ;;
      ret (Some mul)
  | _, _, _, _ => ret None
  end.

(** Lines 88-120, [AdjustAllReduceMulAdd::operator()]. *)
Definition AdjustAllReduceMulAdd (node : AnfNodePtr) : M PassState (option AnfNodePtr) :=
  r <- match_AddN node ;;
  match r with
  | Some (addn_op_node, addn_maketuple) => rewrite_AddN addn_op_node addn_maketuple
  | None => ret None
  end.

(** ** What the visitor computes, as functions of the visitor record *)

(** One operand seen at level 1. *)
Definition level1_step (g : Graph) (node : AnfNodePtr) (v : Visitor) : Visitor :=
  if IsPrimitiveCNode g node kPrimAllReduce then
    match cnode_inputs g node with
    | Some (op :: x :: _) => set_all_reduce op x (func_graph_of g node) v
    | _ => v
    end
  else set_tmp_ (Some node) v.

(** One element of the tuple seen at level 0. *)
Definition visit_element (g : Graph) (node : AnfNodePtr) (v : Visitor) : Visitor :=
  let v1 := set_is_reduce_match_ false (set_level_ 1 v) in
  let v2 :=
    if IsPrimitiveCNode g node kPrimMul then
      match cnode_inputs g node with
      | Some inputs => fold_left (fun w n => level1_step g n w) (drop 1 inputs) v1
      | None => v1
      end
    else v1 in
  let v3 := set_level_ 0 v2 in
  if is_reduce_match_ v3 then
    match cnode_inputs g node with
    | Some (op :: _) => set_mul_branch op node v3
    | _ => v3
    end
  else set_z_ (Some node) v3.

(** The match of line 98 on the AddN's operand. *)
Definition match_tuple (g : Graph) (mt : AnfNodePtr) (v : Visitor) : Visitor :=
  if IsPrimitiveCNode g mt kPrimMakeTuple then
    match cnode_inputs g mt with
    | Some [_; e1; e2] => visit_element g e2 (visit_element g e1 v)
    | _ => v
    end
  else v.

(** An AllReduce call with at least one operand: what level 1 records. *)
Definition is_AllReduce_call (g : Graph) (n : AnfNodePtr) : bool :=
  IsPrimitiveCNode g n kPrimAllReduce
  && match cnode_inputs g n with
     | Some (_ :: _ :: _) => true
     | _ => false
     end.

(** A Mul call one of whose operands is such an AllReduce call: the
    elements level 0 marks as the reduce-mul branch. *)
Definition reduce_mul (g : Graph) (e : AnfNodePtr) : bool :=
  IsPrimitiveCNode g e kPrimMul
  && match cnode_inputs g e with
     | Some inputs => existsb (is_AllReduce_call g) (drop 1 inputs)
     | None => false
     end.

(** The recorded users of a node ([users_of] in §6); a node the map does
    not hold has none, and without a manager nothing is recorded. *)
Definition users_of (g : Graph) (n : AnfNodePtr) : list (AnfNodePtr * nat) :=
  match node_users g with
  | Some users => default [] (users !! n)
  | None => []
  end.

(** The manager's invariant for one producer [n]: there is a manager, and
    every (consumer, position) it records is a call holding [n] at that
    position. *)
Definition users_recorded (g : Graph) (n : AnfNodePtr) : bool :=
  match node_users g with
  | Some _ =>
      forallb (fun u => match cnode_inputs g u.1 with
                        | Some inputs => bool_decide (inputs !! u.2 = Some n)
                        | None => false
                        end)
              (users_of g n)
  | None => false
  end.

(** The store after [ProcessDependEdge] ran over the user list [U]: every
    node is where it was; a call keeps its sub-graph and its operand
    count, and holds [new] at the in-range positions recorded in [U] for
    it when it is a MakeTuple call other than [mt], its old operand
    everywhere else. *)
Definition repointed (U : list (AnfNodePtr * nat)) (mt new : AnfNodePtr)
    (g g' : Graph) : Prop :=
  length (nodes g') = length (nodes g)
  ∧ ∀ p, match node_at g p with
         | Some (CNode ins fg) =>
             ∃ ins', node_at g' p = Some (CNode ins' fg)
                     ∧ length ins' = length ins
                     ∧ ∀ j, ins' !! j =
                            if bool_decide ((p, j) ∈ U ∧ p ≠ mt
                                            ∧ IsPrimitiveCNode g p kPrimMakeTuple = true
                                            ∧ j < length ins)
                            then Some new else ins !! j
         | o => node_at g' p = o
         end.

(** The nodes lines 106-117 append to the store [g], in order: the copy of
    [z] in [fg] when [z] crosses the graph, then the tuple, the add, the
    AllReduce and the Mul; [z'] is what the tuple holds for [z]. *)
Definition rehomed (g : Graph) (z : AnfNodePtr) (fg : FuncGraphPtr) : list AnfNode :=
  if crosses_graph g z fg then
    match cnode_inputs g z with
    | Some zin => [CNode zin (Some fg)]
    | None => []
    end
  else [].

Definition rewritten (g : Graph) (addn_op mt_op ar_op mul_op x y z : AnfNodePtr)
    (fg : FuncGraphPtr) : list AnfNode :=
  let pre := rehomed g z fg in
  let z' := if crosses_graph g z fg then length (nodes g) else z in
  let k := length (nodes g) + length pre in
  pre ++ [CNode [mt_op; z'; x] (Some fg); CNode [addn_op; k] (Some fg);
          CNode [ar_op; S k] (Some fg); CNode [mul_op; S (S k); y] (Some fg)].

(** The user map after [ProcessDependEdge] ran over [U]: [new] keeps the
    users it had, and has every record of [U] whose consumer is a
    MakeTuple call other than [mt]. *)
Definition recorded (U : list (AnfNodePtr * nat)) (mt new : AnfNodePtr)
    (g g' : Graph) : Prop :=
  (∀ u, u ∈ users_of g new -> u ∈ users_of g' new)
  ∧ (∀ c i, (c, i) ∈ U -> c ≠ mt ->
            IsPrimitiveCNode g c kPrimMakeTuple = true ->
            (c, i) ∈ users_of g' new).

(** A node built by [NewCNode]. *)
Definition is_CNode (n : AnfNode) : Prop :=
  match n with
  | CNode _ _ => True
  | _ => False
  end.

(** The candidate [node] is [AddN(MakeTuple(Mul(AllReduce(x), y), z))]:
    [mt], [m] and [ar] are its MakeTuple, Mul and AllReduce calls, the
    [_op] nodes their operator nodes, [fg] the AllReduce's sub-graph. *)
Definition reassociable (g : Graph)
    (node addn_op mt mt_op m mul_op ar ar_op x y z : AnfNodePtr)
    (fg : FuncGraphPtr) : Prop :=
  cnode_inputs g node = Some [addn_op; mt]
  ∧ value_of g addn_op = Some (PrimitiveValue kPrimAddN)
  ∧ cnode_inputs g mt = Some [mt_op; m; z]
  ∧ value_of g mt_op = Some (PrimitiveValue kPrimMakeTuple)
  ∧ cnode_inputs g m = Some [mul_op; ar; y]
  ∧ value_of g mul_op = Some (PrimitiveValue kPrimMul)
  ∧ cnode_inputs g ar = Some [ar_op; x]
  ∧ value_of g ar_op = Some (PrimitiveValue kPrimAllReduce)
  ∧ func_graph_of g ar = Some fg.

(** The shape [Mul(AllReduce(_), _)]: a Mul call of two operands whose
    first operand is an AllReduce call of one operand. *)
Definition reduce_mul_shape (g : Graph) (e : AnfNodePtr) : bool :=
  IsPrimitiveCNode g e kPrimMul
  && match cnode_inputs g e with
     | Some [_; ar; _] =>
         IsPrimitiveCNode g ar kPrimAllReduce
         && match cnode_inputs g ar with
            | Some [_; _] => true
            | _ => false
            end
     | _ => false
     end.

(** Unfolding the rule macros of sweep 1 at a candidate. *)
Ltac run_rules :=
  unfold ArithmeticSimplify, MATCH_REPLACE_LAMBDA, MATCH_REPLACE_IF, MATCH_REPLACE,
    TryCapture; cbn.

(** Some binding the acceptance test of line 99 needs is missing. *)
Definition unbound (v : Visitor) : Prop :=
  x_ v = None ∨ y_ v = None ∨ z_ v = None ∨ all_reduce_fg_ v = None.

(** ** Sample graphs *)

(** A visitor that has not run yet. *)
Definition fresh_visitor : Visitor :=
  mkVisitor 0 false None None None None None None None None.

(** The four operator nodes the reassociation samples share, at addresses
    0 to 3: AddN, MakeTuple, Mul, AllReduce. *)
Definition reduce_ops : list AnfNode :=
  [ValueNode (PrimitiveValue kPrimAddN); ValueNode (PrimitiveValue kPrimMakeTuple);
   ValueNode (PrimitiveValue kPrimMul); ValueNode (PrimitiveValue kPrimAllReduce)].

(** [AddN(MakeTuple(Mul(AllReduce(g), w), d))] at address 11, in sub-graph
    0, where the decay term [d] (address 9) is a call of sub-graph 1.  The
    old Mul (address 8) has three more recorded users: another MakeTuple
    (address 12) and, twice, a Mul (address 13). *)
Definition reduce_graph : Graph :=
  mkGraph
    (reduce_ops ++
     [ParameterNode (Some 0);        (* 4: g *)
      ParameterNode (Some 0);        (* 5: w *)
      ParameterNode (Some 1);        (* 6 *)
      CNode [3; 4] (Some 0);         (* 7: AllReduce(g) *)
      CNode [2; 7; 5] (Some 0);      (* 8: Mul(7, w) *)
      CNode [2; 6; 6] (Some 1);      (* 9: d, in sub-graph 1 *)
      CNode [1; 8; 9] (Some 0);      (* 10: MakeTuple(8, d) *)
      CNode [0; 10] (Some 0);        (* 11: AddN(10) *)
      CNode [1; 8; 4] (Some 0);      (* 12: MakeTuple(8, g) *)
      CNode [2; 8; 8] (Some 0)])     (* 13: Mul(8, 8) *)
    (Some {[ 8 := [(10, 1); (12, 1); (13, 1); (13, 2)] ]}).

(** [AddN(MakeTuple(Mul(w, AllReduce(g)), d))] at address 10: the
    AllReduce is the second operand of the Mul. *)
Definition mirrored_graph : Graph :=
  mkGraph
    (reduce_ops ++
     [ParameterNode (Some 0);        (* 4: g *)
      ParameterNode (Some 0);        (* 5: w *)
      ParameterNode (Some 0);        (* 6: d *)
      CNode [3; 4] (Some 0);         (* 7: AllReduce(g) *)
      CNode [2; 5; 7] (Some 0);      (* 8: Mul(w, 7) *)
      CNode [1; 8; 6] (Some 0);      (* 9: MakeTuple(8, d) *)
      CNode [0; 9] (Some 0)])        (* 10: AddN(9) *)
    (Some ∅).

(** [AddN(MakeTuple(Mul(AllReduce(g), w), d, g))] at address 10, a tuple
    of three, and [AddN(MakeTuple(Mul(g, w), d))] at address 13, a tuple
    with no AllReduce in it. *)
Definition declined_graph : Graph :=
  mkGraph
    (reduce_ops ++
     [ParameterNode (Some 0);        (* 4: g *)
      ParameterNode (Some 0);        (* 5: w *)
      ParameterNode (Some 0);        (* 6: d *)
      CNode [3; 4] (Some 0);         (* 7: AllReduce(g) *)
      CNode [2; 7; 5] (Some 0);      (* 8: Mul(7, w) *)
      CNode [1; 8; 6; 4] (Some 0);   (* 9: MakeTuple(8, d, g) *)
      CNode [0; 9] (Some 0);         (* 10: AddN(9) *)
      CNode [2; 4; 5] (Some 0);      (* 11: Mul(g, w) *)
      CNode [1; 11; 6] (Some 0);     (* 12: MakeTuple(11, d) *)
      CNode [0; 12] (Some 0)])       (* 13: AddN(12) *)
    (Some ∅).

(** [AddN(MakeTuple(Mul(AllReduce(a), b), Mul(AllReduce(c), d)))] at
    address 13. *)
Definition twin_graph : Graph :=
  mkGraph
    (reduce_ops ++
     [ParameterNode (Some 0);        (* 4: a *)
      ParameterNode (Some 0);        (* 5: b *)
      ParameterNode (Some 0);        (* 6: c *)
      ParameterNode (Some 0);        (* 7: d *)
      CNode [3; 4] (Some 0);         (* 8: AllReduce(a) *)
      CNode [2; 8; 5] (Some 0);      (* 9: Mul(8, b) *)
      CNode [3; 6] (Some 0);         (* 10: AllReduce(c) *)
      CNode [2; 10; 7] (Some 0);     (* 11: Mul(10, d) *)
      CNode [1; 9; 11] (Some 0);     (* 12: MakeTuple(9, 11) *)
      CNode [0; 12] (Some 0)])       (* 13: AddN(12) *)
    (Some ∅).

(** A literal arithmetic routine for the samples: two scalar immediates
    fold to their product, nothing else is representable. *)
Definition fold_int32 (a b : Value) (op : Primitive) : option Value :=
  match a, b with
  | Int32Imm x, Int32Imm y => Some (Int32Imm (x * y))
  | _, _ => None
  end.

(** Arithmetic candidates over a parameter [x] (address 4), the literals
    0, 1, 2, 3 (addresses 5 to 8) and a rank-1 tensor constant (address
    9). *)
Definition arith_graph : Graph :=
  mkGraph
    [ValueNode (PrimitiveValue kPrimTensorAdd);   (* 0 *)
     ValueNode (PrimitiveValue kPrimMul);         (* 1 *)
     ValueNode (PrimitiveValue kPrimScalarMul);   (* 2 *)
     ValueNode (PrimitiveValue kPrimPow);         (* 3 *)
     ParameterNode (Some 0);                      (* 4: x *)
     ValueNode (Int32Imm 0);                      (* 5 *)
     ValueNode (Int32Imm 1);                      (* 6 *)
     ValueNode (Int32Imm 2);                      (* 7 *)
     ValueNode (Int32Imm 3);                      (* 8 *)
     ValueNode (Tensor 1 [2%Z; 2%Z]);             (* 9 *)
     CNode [0; 4; 5] (Some 0);                    (* 10: x + 0 *)
     CNode [0; 5; 4] (Some 0);                    (* 11: 0 + x *)
     CNode [1; 8; 4] (Some 0);                    (* 12: 3 * x *)
     CNode [1; 7; 12] (Some 0);                   (* 13: 2 * (3 * x) *)
     CNode [1; 9; 12] (Some 0);                   (* 14: tensor * (3 * x) *)
     CNode [1; 7; 12] None;                       (* 15: 2 * (3 * x), detached *)
     CNode [2; 5; 4] (Some 0);                    (* 16: scalar_mul(0, x) *)
     CNode [2; 4; 5] (Some 0);                    (* 17: scalar_mul(x, 0) *)
     CNode [2; 5; 6] (Some 0);                    (* 18: scalar_mul(0, 1) *)
     CNode [1; 7; 6] (Some 0);                    (* 19: 2 * 1 *)
     CNode [1; 4; 6] (Some 0);                    (* 20: x * 1 *)
     CNode [2; 6; 4] (Some 0);                    (* 21: scalar_mul(1, x) *)
     CNode [2; 4; 6] (Some 0)]                    (* 22: scalar_mul(x, 1) *)
    (Some ∅).

(** ** Sweep 2: [ArithmeticSimplify2::operator()] *)

Section ArithmeticSimplify2.

(** Modelled from the spec: what [PConstant::GetNode] makes of a constant
    that holds no node is declared outside this file, and §4.3 says of it
    only that rule 2 of sweep 2 rewrites to 0.  It is the parameter here:
    the constant of the given check value made for the candidate, which
    may build nodes and may give nothing. *)
Variable new_constant : AnfNodePtr -> Z -> M Graph (option AnfNodePtr).

(** Modelled from the spec: [PConstant::GetNode] is declared outside this
    file; a constant that captured a node gives that node (§4.2: the bound
    node is returned directly, no new node is built), and one that
    captured nothing gives what [new_constant] makes for the candidate.
    Rule 2 reads [zero_] although its pattern does not hold it.
    [GetNode_const] above is this function where sweep 1 reads a constant,
    which is always after it captured a node. *)
Definition GetNode_constant (c : PConstant) (node : AnfNodePtr) (b : Bindings)
  : M Graph (option AnfNodePtr) :=
  match captured_const b c with
  | Some n => ret (Some n)
  | None => new_constant node (check_value c)
  end.

(** Modelled from the spec: [MATCH_REPLACE] around a replacement that may
    be nothing; by §4.2 the rule returns the replacement when the pattern
    captures the candidate and there is one, and otherwise the next rule
    is tried.  The replacements of sweep 1 always give a node. *)
Definition MATCH_REPLACE_nullable (node : AnfNodePtr) (pat : Pattern)
    (rep : Bindings -> M Graph (option AnfNodePtr)) (rest : Rule) : Rule :=
  fun b g =>
    let '(ok, b') := TryCapture g pat node b in
    if ok then (r <- rep b' ;;
                match r with
                | Some n => ret (Some n)
                | None => rest b'
                end) g
    else rest b' g.

(** Lines 71-79. *)
Definition ArithmeticSimplify2 (node : AnfNodePtr) : M Graph (option AnfNodePtr) :=
  (MATCH_REPLACE_nullable node (px * zero_) (GetNode_constant zero_ node) $
   MATCH_REPLACE_nullable node (px * PPrimitive kPrimZerosLike [PNode py])
     (GetNode_constant zero_ node) $
   fun _ => ret None) no_bindings.

End ArithmeticSimplify2.

(** ** What the passes keep *)

(** The primitives the rules of sweep 1 are written for. *)
Definition sweep1_primitives : list Primitive :=
  [kPrimTensorAdd; kPrimScalarAdd; kPrimMul; kPrimScalarMul; kPrimIdentity;
   kPrimMomentum; kPrimPow].

(** The store [g'] is [g] with the nodes [news] appended: no old node and
    no user record changed. *)
Definition appended (g g' : Graph) (news : list AnfNode) : Prop :=
  nodes g' = nodes g ++ news ∧ node_users g' = node_users g.

(** What one run of sweep 1 on the candidate [node] of [g] may leave: at
    most two new nodes appended to the store, none when nothing is
    returned; the node returned is an operand of the candidate when
    nothing was built, and the last node built otherwise. *)
Definition built_by_rule (g : Graph) (node : AnfNodePtr) (r : option AnfNodePtr)
    (g' : Graph) : Prop :=
  ∃ news, appended g g' news ∧ length news ≤ 2
          ∧ (r = None -> news = [])
          ∧ ∀ p, r = Some p ->
                 (news = [] ∧ ∃ ins, cnode_inputs g node = Some ins ∧ p ∈ drop 1 ins)
                 ∨ (news ≠ [] ∧ S p = length (nodes g')).

(** From [g] to [g'] only operands of calls changed: a value or a
    parameter of [g] is what it was, and a call of [g] is a call of the
    same sub-graph over as many operands. *)
Definition operands_only (g g' : Graph) : Prop :=
  ∀ p, match node_at g p with
       | Some (CNode ins fg) =>
           ∃ ins', node_at g' p = Some (CNode ins' fg) ∧ length ins' = length ins
       | Some n => node_at g' p = Some n
       | None => True
       end.

(** What a call of the reassociation pass that returned [r] in the store
    [g'] did to the store [g]: nothing when it returned nothing; otherwise
    there is a manager, and [r] is the last of four or five nodes appended
    to the store.  Of the old nodes only operands of calls changed. *)
Definition pass_outcome (g : Graph) (r : option AnfNodePtr) (g' : Graph) : Prop :=
  (r = None -> g' = g)
  ∧ (is_Some r -> is_Some (node_users g))
  ∧ operands_only g g'
  ∧ length (nodes g) ≤ length (nodes g') ≤ length (nodes g) + 5
  ∧ (∀ p, r = Some p -> S p = length (nodes g')).

(** Two visitors that hold the same bindings: they agree on the fields
    [Reset] clears, and on [all_reduce_], [mul_] and [mul_cnode_] as far as
    [x_] and [y_] say these were set since. *)
Definition same_bindings (v v' : Visitor) : Prop :=
  level_ v = level_ v'
  ∧ is_reduce_match_ v = is_reduce_match_ v'
  ∧ x_ v = x_ v' ∧ y_ v = y_ v' ∧ z_ v = z_ v' ∧ tmp_ v = tmp_ v'
  ∧ all_reduce_fg_ v = all_reduce_fg_ v'
  ∧ (is_Some (x_ v) -> is_Some (all_reduce_ v) ∧ all_reduce_ v = all_reduce_ v')
  ∧ (is_Some (y_ v) ->
     is_Some (mul_ v) ∧ mul_ v = mul_ v' ∧ mul_cnode_ v = mul_cnode_ v').

(** The candidate is a call [AddN(MakeTuple(_, _))]: what lines 91-98 ask
    before anything is visited. *)
Definition addn_of_pair (g : Graph) (node : AnfNodePtr) : bool :=
  IsPrimitiveCNode g node kPrimAddN
  && match cnode_inputs g node with
     | Some [_; mt] =>
         IsPrimitiveCNode g mt kPrimMakeTuple
         && match cnode_inputs g mt with
            | Some [_; _; _] => true
            | _ => false
            end
     | _ => false
     end.

(** Unfolding the rule macros of sweep 2 at a candidate. *)
Ltac run_rules2 :=
  unfold ArithmeticSimplify2, MATCH_REPLACE_nullable, TryCapture, GetNode_constant; cbn.

(** The query the evaluation of the rules waits for: the innermost
    scrutinee of the goal. *)
Ltac active t :=
  lazymatch t with
  | match ?s with _ => _ end => active s
  | (match ?s with _ => _ end) _ => active s
  | _ => t
  end.

Ltac split_active :=
  lazymatch goal with
  | |- match ?s with _ => _ end => let a := active s in destruct a eqn:?
  end.

(** Answering a query that was asked before. *)
Ltac recall :=
  match goal with
  | H : IsVNode ?g ?n = _ |- context [IsVNode ?g ?n] => rewrite H
  | H : captures ?g ?c ?n = _ |- context [captures ?g ?c ?n] => rewrite H
  | H : value_of ?g ?n = _ |- context [value_of ?g ?n] => rewrite H
  | H : cnode_inputs ?g ?n = _ |- context [cnode_inputs ?g ?n] => rewrite H
  | H : func_graph_of ?g ?n = _ |- context [func_graph_of ?g ?n] => rewrite H
  | H : IsPrimitiveCNode ?g ?n ?p = _ |- context [IsPrimitiveCNode ?g ?n ?p] => rewrite H
  end.

(** ** More sample graphs *)

(** Candidates of the rules of sweep 1 the arithmetic samples leave out,
    and of sweep 2, over the parameters [x], [m], [v] (addresses 6 to 8)
    and the literals 0, 1, 2 (addresses 9 to 11). *)
Definition rules_graph : Graph :=
  mkGraph
    [ValueNode (PrimitiveValue kPrimIdentity);    (* 0 *)
     ValueNode (PrimitiveValue kPrimPow);         (* 1 *)
     ValueNode (PrimitiveValue kPrimMomentum);    (* 2 *)
     ValueNode (PrimitiveValue kPrimZerosLike);   (* 3 *)
     ValueNode (PrimitiveValue kPrimScalarAdd);   (* 4 *)
     ValueNode (PrimitiveValue kPrimMul);         (* 5 *)
     ParameterNode (Some 0);                      (* 6: x *)
     ParameterNode (Some 0);                      (* 7: m *)
     ParameterNode (Some 0);                      (* 8: v *)
     ValueNode (Int32Imm 0);                      (* 9 *)
     ValueNode (Int32Imm 1);                      (* 10 *)
     ValueNode (Int32Imm 2);                      (* 11 *)
     CNode [0; 6] (Some 0);                       (* 12: identity(x) *)
     CNode [0; 6] None;                           (* 13: identity(x), detached *)
     CNode [1; 6; 10] (Some 0);                   (* 14: pow(x, 1) *)
     CNode [1; 6; 10] None;                       (* 15: pow(x, 1), detached *)
     CNode [1; 6; 11] (Some 0);                   (* 16: pow(x, 2) *)
     CNode [3; 6] (Some 0);                       (* 17: ZerosLike(x) *)
     CNode [2; 17; 7; 8; 11] (Some 0);            (* 18: Momentum(17, m, v, 2) *)
     CNode [2; 17; 7; 8; 11] None;                (* 19: the same, detached *)
     CNode [4; 9; 6] (Some 0);                    (* 20: scalar_add(0, x) *)
     CNode [4; 6; 9] (Some 0);                    (* 21: scalar_add(x, 0) *)
     CNode [5; 6; 9] (Some 0);                    (* 22: x * 0 *)
     CNode [5; 9; 6] (Some 0);                    (* 23: 0 * x *)
     CNode [5; 6; 17] (Some 0)]                   (* 24: x * ZerosLike(x) *)
    (Some ∅).

(** A constant maker for the samples of sweep 2: it stamps a scalar
    immediate. *)
Definition stamp_constant (node : AnfNodePtr) (k : Z) : M Graph (option AnfNodePtr) :=
  n <- NewValueNode (Int32Imm k) ;; ret (Some n).

(** [AddN(MakeTuple(d, Mul(AllReduce(g), w)))] at address 10: the decay
    term is the first element of the tuple.  The old Mul (address 8) is
    also held by another MakeTuple (address 11). *)
Definition swapped_graph : Graph :=
  mkGraph
    (reduce_ops ++
     [ParameterNode (Some 0);        (* 4: g *)
      ParameterNode (Some 0);        (* 5: w *)
      ParameterNode (Some 0);        (* 6: d *)
      CNode [3; 4] (Some 0);         (* 7: AllReduce(g) *)
      CNode [2; 7; 5] (Some 0);      (* 8: Mul(7, w) *)
      CNode [1; 6; 8] (Some 0);      (* 9: MakeTuple(d, 8) *)
      CNode [0; 9] (Some 0);         (* 10: AddN(9) *)
      CNode [1; 8; 4] (Some 0)])     (* 11: MakeTuple(8, g) *)
    (Some {[ 8 := [(9, 2); (11, 1)] ]}).

(** [AddN(MakeTuple(Mul(AllReduce(g), w), d))] at address 10, all in
    sub-graph 0; the old Mul (address 8) is held by the matched MakeTuple
    and by a Mul (address 11), and by no other MakeTuple. *)
Definition plain_graph : Graph :=
  mkGraph
    (reduce_ops ++
     [ParameterNode (Some 0);        (* 4: g *)
      ParameterNode (Some 0);        (* 5: w *)
      ParameterNode (Some 0);        (* 6: d *)
      CNode [3; 4] (Some 0);         (* 7: AllReduce(g) *)
      CNode [2; 7; 5] (Some 0);      (* 8: Mul(7, w) *)
      CNode [1; 8; 6] (Some 0);      (* 9: MakeTuple(8, d) *)
      CNode [0; 9] (Some 0);         (* 10: AddN(9) *)
      CNode [2; 8; 5] (Some 0)])     (* 11: Mul(8, w) *)
    (Some {[ 8 := [(9, 1); (11, 1)] ]}).

(** [AddN(MakeTuple(Mul(w, r), Mul(AllReduce(g), AllReduce(h))))] at
    address 13: the second Mul has no operand that is not an AllReduce
    call; and the same with the tuple in the other order at address
    15. *)
Definition stale_graph : Graph :=
  mkGraph
    (reduce_ops ++
     [ParameterNode (Some 0);        (* 4: g *)
      ParameterNode (Some 0);        (* 5: h *)
      ParameterNode (Some 0);        (* 6: w *)
      ParameterNode (Some 0);        (* 7: r *)
      CNode [3; 4] (Some 0);         (* 8: AllReduce(g) *)
      CNode [3; 5] (Some 0);         (* 9: AllReduce(h) *)
      CNode [2; 8; 9] (Some 0);      (* 10: Mul(8, 9) *)
      CNode [2; 6; 7] (Some 0);      (* 11: Mul(w, r) *)
      CNode [1; 11; 10] (Some 0);    (* 12: MakeTuple(11, 10) *)
      CNode [0; 12] (Some 0);        (* 13: AddN(12) *)
      CNode [1; 10; 11] (Some 0);    (* 14: MakeTuple(10, 11) *)
      CNode [0; 14] (Some 0)])       (* 15: AddN(14) *)
    (Some ∅).

(** [AddN(MakeTuple(Mul(AllReduce(g), w), d))] at address 10, where the
    AllReduce call (address 7) belongs to no sub-graph. *)
Definition detached_reduce_graph : Graph :=
  mkGraph
    (reduce_ops ++
     [ParameterNode (Some 0);        (* 4: g *)
      ParameterNode (Some 0);        (* 5: w *)
      ParameterNode (Some 0);        (* 6: d *)
      CNode [3; 4] None;             (* 7: AllReduce(g), detached *)
      CNode [2; 7; 5] (Some 0);      (* 8: Mul(7, w) *)
      CNode [1; 8; 6] (Some 0);      (* 9: MakeTuple(8, d) *)
      CNode [0; 9] (Some 0)])        (* 10: AddN(9) *)
    (Some ∅).

(** [plain_graph] with no manager. *)
Definition unmanaged_graph : Graph := mkGraph (nodes plain_graph) None.

(** A visitor as an earlier call of the pass may leave it. *)
Definition stale_visitor : Visitor :=
  mkVisitor 0 true (Some 4) (Some 5) None (Some 5) (Some 0) (Some 3) (Some 2) (Some 8).

(** * Verified properties *)

(** ** The visitor *)

Section Visitor_facts.

Lemma PassState_eta s : mkPassState (self s) (graph s) = s.
Proof. by destruct s. Qed.

Lemma level1_step_level g n v : level_ (level1_step g n v) = level_ v.
Proof.
  unfold level1_step. destruct (IsPrimitiveCNode g n kPrimAllReduce); [|done].
  destruct (cnode_inputs g n) as [[|? [|? ?]]|]; done.
Qed.

Lemma Visit_level1_eq node s :
  Visit_level1 node s
  = Ok (tt, mkPassState (level1_step (graph s) node (self s)) (graph s)).
Proof.
  unfold Visit_level1, level1_step, bind, get, on_self, modify, ret.
  destruct (IsPrimitiveCNode (graph s) node kPrimAllReduce); [|done].
  destruct (cnode_inputs (graph s) node) as [[|? [|? ?]]|];
    rewrite ?PassState_eta; done.
Qed.

Lemma Visit_at_level1 d node s :
  level_ (self s) = 1 -> Visit (S d) node s = Visit_level1 node s.
Proof.
  intros Hl. cbn [Visit]. unfold Visit_body, bind, get, ret.
  rewrite Hl. rewrite (bool_decide_eq_false_2 (1 = 0)) by done.
  cbv beta iota. rewrite Hl. by rewrite bool_decide_eq_true_2.
Qed.

Lemma for_each_level1 d inputs s :
  level_ (self s) = 1 ->
  for_each inputs (Visit (S d)) s
  = Ok (tt, mkPassState (fold_left (fun w n => level1_step (graph s) n w) inputs (self s))
                        (graph s)).
Proof.
  revert s. induction inputs as [|n inputs IH]; intros s Hl.
  - cbn. unfold ret. by rewrite PassState_eta.
  - cbn [for_each fold_left]. unfold bind at 1.
    rewrite Visit_at_level1, Visit_level1_eq by done.
    rewrite IH; [done|]. cbn. by rewrite level1_step_level.
Qed.

Lemma Match_Mul_eq d node s :
  level_ (self s) = 1 ->
  Match kPrimMul [] (Visit (S d)) node s
  = Ok (tt, mkPassState
              (if IsPrimitiveCNode (graph s) node kPrimMul then
                 match cnode_inputs (graph s) node with
                 | Some inputs =>
                     fold_left (fun w n => level1_step (graph s) n w) (drop 1 inputs) (self s)
                 | None => self s
                 end
               else self s)
              (graph s)).
Proof.
  intros Hl. unfold Match, bind, get.
  destruct (IsPrimitiveCNode (graph s) node kPrimMul); cbv beta iota.
  - destruct (cnode_inputs (graph s) node) as [inputs|].
    + cbn [negb length andb]. rewrite (bool_decide_eq_false_2 (0 < 0)) by lia.
      cbn [andb]. by rewrite for_each_level1.
    + cbn [negb]. unfold ret. by rewrite PassState_eta.
  - cbn [negb]. unfold ret. by rewrite PassState_eta.
Qed.

Lemma same_primitive_decide p q : same_primitive p q = bool_decide (p = q).
Proof.
  destruct p, q; cbn; try (by rewrite bool_decide_eq_false_2);
    try (by rewrite bool_decide_eq_true_2).
  case_bool_decide as H.
  - injection H as ->. apply Nat.eqb_refl.
  - apply Nat.eqb_neq. congruence.
Qed.

Lemma visit_element_level g node v : level_ (visit_element g node v) = 0.
Proof.
  unfold visit_element.
  match goal with |- context [is_reduce_match_ ?w] => destruct (is_reduce_match_ w) end;
    [|done].
  destruct (cnode_inputs g node) as [[|? ?]|]; done.
Qed.

Lemma IsPrimitiveCNode_inputs g node prim :
  IsPrimitiveCNode g node prim = true ->
  ∃ op rest, cnode_inputs g node = Some (op :: rest)
             ∧ value_of g op = Some (PrimitiveValue prim).
Proof.
  unfold IsPrimitiveCNode. destruct (cnode_inputs g node) as [[|op rest]|]; try done.
  destruct (value_of g op) as [[| |q|]|] eqn:Hop; try done.
  rewrite same_primitive_decide. intros ->%bool_decide_eq_true. by exists op, rest.
Qed.

Lemma Visit_level0 d node s :
  level_ (self s) = 0 ->
  Visit (S (S d)) node s
  = Ok (tt, mkPassState (visit_element (graph s) node (self s)) (graph s)).
Proof.
  intros Hl. change (Visit (S (S d)) node s) with (Visit_body (Visit (S d)) node s).
  unfold Visit_body. unfold bind at 1. unfold get at 1. cbv beta iota.
  rewrite Hl, (bool_decide_eq_true_2 (0 = 0)) by done.
  unfold bind at 1. unfold bind at 1. unfold on_self at 1, modify. cbv beta iota.
  unfold bind at 1. unfold on_self at 1, modify. cbv beta iota.
  unfold bind at 1. rewrite Match_Mul_eq by done. cbv beta iota.
  cbn [self graph].
  unfold bind at 1. unfold on_self at 1, modify. cbv beta iota. cbn [self graph].
  unfold bind at 1. unfold get at 1. cbv beta iota. cbn [self graph].
  unfold visit_element.
  set (v2 := if IsPrimitiveCNode (graph s) node kPrimMul then _ else _).
  destruct (is_reduce_match_ (set_level_ 0 v2)) eqn:Hm.
  - assert (∃ op rest, cnode_inputs (graph s) node = Some (op :: rest)) as (op & rest & Hin).
    { destruct (IsPrimitiveCNode (graph s) node kPrimMul) eqn:Hp.
      - apply IsPrimitiveCNode_inputs in Hp as (op & rest & ? & _). eauto.
      - subst v2. done. }
    rewrite Hin. unfold on_self, modify, bind, get. cbn.
    by rewrite bool_decide_eq_false_2.
  - unfold on_self, modify, bind, get. cbn. by rewrite bool_decide_eq_false_2.
Qed.

Lemma Visit_other_level d node s :
  level_ (self s) ≠ 0 -> level_ (self s) ≠ 1 -> Visit (S d) node s = Ok (tt, s).
Proof.
  intros H0 H1. cbn [Visit]. unfold Visit_body, bind, get, ret.
  rewrite (bool_decide_eq_false_2 (level_ (self s) = 0)) by done.
  cbv beta iota. by rewrite bool_decide_eq_false_2.
Qed.

(** Depth 2 is enough: more depth never changes what [Visit] does, and
    [Visit 2] never runs out of depth. *)
Lemma Visit_depth d node s : Visit (S (S d)) node s = Visit 2 node s.
Proof.
  destruct (decide (level_ (self s) = 0)) as [H0|H0].
  { by rewrite !Visit_level0. }
  destruct (decide (level_ (self s) = 1)) as [H1|H1].
  { by rewrite !Visit_at_level1. }
  by rewrite !Visit_other_level.
Qed.

Lemma Visit_returns node s : ∃ v, Visit 2 node s = Ok (tt, mkPassState v (graph s)).
Proof.
  destruct (decide (level_ (self s) = 0)) as [H0|H0].
  { rewrite Visit_level0 by done. eauto. }
  destruct (decide (level_ (self s) = 1)) as [H1|H1].
  { rewrite Visit_at_level1, Visit_level1_eq by done. eauto. }
  rewrite Visit_other_level by done. exists (self s). by rewrite PassState_eta.
Qed.

Lemma for_each_level0 elems s :
  level_ (self s) = 0 ->
  for_each elems (Visit 2) s
  = Ok (tt, mkPassState (fold_left (fun w e => visit_element (graph s) e w) elems (self s))
                        (graph s)).
Proof.
  revert s. induction elems as [|e elems IH]; intros s Hl.
  - cbn. unfold ret. by rewrite PassState_eta.
  - cbn [for_each fold_left]. unfold bind at 1.
    rewrite Visit_level0 by done.
    rewrite IH; [done|]. cbn. by rewrite visit_element_level.
Qed.

Lemma Match_MakeTuple_eq mt s :
  level_ (self s) = 0 ->
  Match kPrimMakeTuple [IsNode; IsNode] (Visit 2) mt s
  = Ok (tt, mkPassState (match_tuple (graph s) mt (self s)) (graph s)).
Proof.
  intros Hl. unfold Match, match_tuple, bind, get.
  destruct (IsPrimitiveCNode (graph s) mt kPrimMakeTuple) eqn:Hp; cbv beta iota;
    cbn [negb]; [|unfold ret; by rewrite PassState_eta].
  destruct (IsPrimitiveCNode_inputs _ _ _ Hp) as (op & rest & -> & _).
  rewrite (bool_decide_eq_true_2 (0 < length [IsNode; IsNode])) by (cbn; lia).
  cbn [andb].
  destruct rest as [|e1 [|e2 [|e3 rest]]]; cbn [length drop zip zip_with forallb];
    try (rewrite bool_decide_eq_false_2 by (cbn; lia); cbn [andb negb];
         unfold ret; by rewrite PassState_eta).
  rewrite bool_decide_eq_true_2 by (cbn; lia).
  unfold IsNode. cbn [andb negb fst snd].
  by rewrite for_each_level0.
Qed.

Lemma match_AddN_eq node s :
  match_AddN node s
  = let v0 := Reset (self s) in
    if IsPrimitiveCNode (graph s) node kPrimAddN then
      match cnode_inputs (graph s) node with
      | Some [a; mt] =>
          Ok (Some (a, mt), mkPassState (match_tuple (graph s) mt v0) (graph s))
      | _ => Ok (None, mkPassState v0 (graph s))
      end
    else Ok (None, mkPassState v0 (graph s)).
Proof.
  unfold match_AddN. unfold bind at 1. unfold on_self at 1, modify. cbv beta iota zeta.
  unfold bind at 1. unfold get at 1. cbv beta iota. cbn [self graph].
  destruct (IsPrimitiveCNode (graph s) node kPrimAddN); cbn [negb]; [|done].
  destruct (cnode_inputs (graph s) node) as [[|a [|mt [|? ?]]]|]; try done.
  unfold bind. by rewrite Match_MakeTuple_eq.
Qed.

Lemma match_AddN_returns node s :
  ∃ r v1, match_AddN node s = Ok (r, mkPassState v1 (graph s)).
Proof.
  rewrite match_AddN_eq. cbv zeta.
  destruct (IsPrimitiveCNode (graph s) node kPrimAddN); [|eauto].
  destruct (cnode_inputs (graph s) node) as [[|a [|mt [|? ?]]]|]; eauto.
Qed.

Lemma rewrite_AddN_unbound a mt s :
  unbound (self s) -> rewrite_AddN a mt s = Ok (None, s).
Proof.
  unfold unbound, rewrite_AddN, bind, get. intros H.
  destruct (x_ (self s)), (y_ (self s)), (z_ (self s)), (all_reduce_fg_ (self s));
    try done; intuition discriminate.
Qed.

Lemma cnode_inputs_intro g p ins fg :
  node_at g p = Some (CNode ins fg) -> cnode_inputs g p = Some ins.
Proof. unfold cnode_inputs. by intros ->. Qed.

Lemma IsPrimitiveCNode_intro g p op args q prim :
  cnode_inputs g p = Some (op :: args) ->
  value_of g op = Some (PrimitiveValue q) ->
  IsPrimitiveCNode g p prim = bool_decide (q = prim).
Proof.
  intros Hp Hop. unfold IsPrimitiveCNode. by rewrite Hp, Hop, same_primitive_decide.
Qed.

Lemma set_tmp_eta v : set_tmp_ (tmp_ v) v = v.
Proof. by destruct v. Qed.

Lemma level1_step_not_call g n v :
  is_AllReduce_call g n = false ->
  level1_step g n v = set_tmp_ (tmp_ (level1_step g n v)) v.
Proof.
  unfold is_AllReduce_call, level1_step.
  destruct (IsPrimitiveCNode g n kPrimAllReduce); [|done].
  destruct (cnode_inputs g n) as [[|? [|? ?]]|]; try done;
    intros _; by rewrite set_tmp_eta.
Qed.

Lemma fold_level1_not_call g inputs v :
  existsb (is_AllReduce_call g) inputs = false ->
  let w := fold_left (fun w n => level1_step g n w) inputs v in
  w = set_tmp_ (tmp_ w) v.
Proof.
  revert v. induction inputs as [|n inputs IH]; intros v H; cbn [fold_left].
  - by rewrite set_tmp_eta.
  - cbn [existsb] in H. apply orb_false_iff in H as [Hn Hrest].
    cbv zeta. rewrite (IH _ Hrest) at 1.
    by rewrite (level1_step_not_call _ _ _ Hn) at 2.
Qed.

Lemma level1_step_mono g n v :
  is_reduce_match_ v = true -> is_reduce_match_ (level1_step g n v) = true.
Proof.
  unfold level1_step. destruct (IsPrimitiveCNode g n kPrimAllReduce); [|done].
  destruct (cnode_inputs g n) as [[|? [|? ?]]|]; done.
Qed.

Lemma fold_level1_mono g inputs v :
  is_reduce_match_ v = true ->
  is_reduce_match_ (fold_left (fun w n => level1_step g n w) inputs v) = true.
Proof.
  revert v. induction inputs as [|n inputs IH]; intros v H; cbn [fold_left]; [done|].
  by apply IH, level1_step_mono.
Qed.

Lemma fold_level1_call g inputs v :
  existsb (is_AllReduce_call g) inputs = true ->
  is_reduce_match_ (fold_left (fun w n => level1_step g n w) inputs v) = true.
Proof.
  revert v. induction inputs as [|n inputs IH]; intros v H; cbn [fold_left]; [done|].
  cbn [existsb] in H. apply orb_true_iff in H as [Hn|Hrest]; [|by apply IH].
  apply fold_level1_mono. unfold is_AllReduce_call in Hn. unfold level1_step.
  apply andb_true_iff in Hn as [-> Hn].
  destruct (cnode_inputs g n) as [[|? [|? ?]]|]; done.
Qed.

(** Level 1 never touches [z_], [y_], [mul_] or [mul_cnode_]. *)
Lemma fold_level1_frame g inputs v :
  let w := fold_left (fun w n => level1_step g n w) inputs v in
  z_ w = z_ v ∧ y_ w = y_ v ∧ mul_ w = mul_ v ∧ mul_cnode_ w = mul_cnode_ v.
Proof.
  revert v. induction inputs as [|n inputs IH]; intros v; cbn [fold_left]; [done|].
  cbv zeta. destruct (IH (level1_step g n v)) as (-> & -> & -> & ->).
  unfold level1_step. destruct (IsPrimitiveCNode g n kPrimAllReduce); [|done].
  destruct (cnode_inputs g n) as [[|? [|? ?]]|]; done.
Qed.

(** An element that is no reduce-mul is recorded as [z_]; the other
    bindings stay as they were. *)
Lemma visit_element_not_reduce g e v :
  reduce_mul g e = false ->
  visit_element g e v
  = mkVisitor 0 false (x_ v) (y_ v) (Some e) (tmp_ (visit_element g e v))
              (all_reduce_fg_ v) (all_reduce_ v) (mul_ v) (mul_cnode_ v).
Proof.
  unfold reduce_mul, visit_element. cbv zeta.
  destruct (IsPrimitiveCNode g e kPrimMul); [|done].
  destruct (cnode_inputs g e) as [inputs|]; [|done].
  cbn [andb]. intros H.
  rewrite (fold_level1_not_call _ _ _ H). done.
Qed.

(** A reduce-mul element never becomes [z_]; it becomes [mul_cnode_]. *)
Lemma visit_element_reduce g e v :
  reduce_mul g e = true ->
  z_ (visit_element g e v) = z_ v ∧ mul_cnode_ (visit_element g e v) = Some e.
Proof.
  unfold reduce_mul, visit_element. cbv zeta.
  destruct (IsPrimitiveCNode g e kPrimMul) eqn:Hp; [|done].
  destruct (IsPrimitiveCNode_inputs _ _ _ Hp) as (op & rest & -> & _).
  cbn [andb]. intros H.
  pose proof (fold_level1_call g _ (set_is_reduce_match_ false (set_level_ 1 v)) H) as Hm.
  pose proof (fold_level1_frame g (drop 1 (op :: rest))
                (set_is_reduce_match_ false (set_level_ 1 v))) as (Hz & _).
  cbv zeta in Hz.
  change (is_reduce_match_ (set_level_ 0 ?w)) with (is_reduce_match_ w).
  rewrite Hm. cbn [set_mul_branch z_ mul_cnode_ set_level_]. by rewrite Hz.
Qed.

(** The element [Mul(AllReduce(x, ...), y)] with [y] no AllReduce call. *)
Lemma visit_element_reduce_mul g m mul_op ar y ar_op x rest v :
  cnode_inputs g m = Some [mul_op; ar; y] ->
  value_of g mul_op = Some (PrimitiveValue kPrimMul) ->
  cnode_inputs g ar = Some (ar_op :: x :: rest) ->
  value_of g ar_op = Some (PrimitiveValue kPrimAllReduce) ->
  IsPrimitiveCNode g y kPrimAllReduce = false ->
  visit_element g m v
  = mkVisitor 0 true (Some x) (Some y) (z_ v) (Some y) (func_graph_of g ar)
              (Some ar_op) (Some mul_op) (Some m).
Proof.
  intros Hm Hmul Har Harop Hy.
  assert (∀ w, level1_step g ar w = set_all_reduce ar_op x (func_graph_of g ar) w)
    as Hstep_ar.
  { intros w. unfold level1_step.
    rewrite (IsPrimitiveCNode_intro _ _ _ _ _ kPrimAllReduce Har Harop), Har.
    by rewrite bool_decide_eq_true_2. }
  assert (∀ w, level1_step g y w = set_tmp_ (Some y) w) as Hstep_y.
  { intros w. unfold level1_step. by rewrite Hy. }
  unfold visit_element. cbv zeta.
  rewrite (IsPrimitiveCNode_intro _ _ _ _ _ kPrimMul Hm Hmul), Hm.
  rewrite bool_decide_eq_true_2 by done.
  cbn [drop fold_left]. rewrite Hstep_ar, Hstep_y. done.
Qed.

End Visitor_facts.

(** C5: for every candidate and every state of the visitor and the graph,
    the match of lines 89-98 returns without a fault and leaves the graph
    as it was; and when it leaves one of [x_], [y_], [z_] or the
    AllReduce's sub-graph unbound, [AdjustAllReduceMulAdd] returns nothing
    in that same graph: no node built, none re-homed, no edge replaced. *)
Theorem no_partial_rewrite node s :
  ∃ r v1, match_AddN node s = Ok (r, mkPassState v1 (graph s))
          ∧ (unbound v1 ->
             AdjustAllReduceMulAdd node s = Ok (None, mkPassState v1 (graph s))).
Proof.
  destruct (match_AddN_returns node s) as (r & v1 & Hm).
  exists r, v1. split; [done|]. intros Hu.
  unfold AdjustAllReduceMulAdd, bind. rewrite Hm.
  destruct r as [[a mt]|]; [|done].
  by apply rewrite_AddN_unbound.
Qed.

(** ** The edge repair *)

Section Store_facts.

Lemma SetEdge_nodes c i new ins fg g :
  node_at g c = Some (CNode ins fg) ->
  is_Some (node_users g) ->
  ∃ g', SetEdge c i new g = Ok (tt, g')
        ∧ nodes g' = <[c := CNode (<[i := new]> ins) fg]> (nodes g)
        ∧ is_Some (node_users g')
        ∧ (c, i) ∈ users_of g' new
        ∧ (∀ u, u ∈ users_of g new -> u ∈ users_of g' new).
Proof.
  intros Hc [users Husers]. unfold SetEdge. rewrite Husers, Hc. eexists. split; [done|].
  split; [done|]. split; [done|].
  unfold users_of. rewrite Husers. cbn [node_users]. rewrite lookup_insert_eq.
  cbn [default]. split.
  { apply elem_of_app. right. apply elem_of_cons. by left. }
  intros u Hu. apply elem_of_app.
  destruct (decide (u = (c, i))) as [->|Hne].
  { right. apply elem_of_cons. by left. }
  left. destruct (ins !! i) as [old|]; [|done].
  destruct (decide (old = new)) as [->|Hold].
  - rewrite lookup_alter_eq. destruct (users !! new) as [l|]; [|done].
    cbn. unfold remove_user. by apply list_elem_of_filter.
  - by rewrite lookup_alter_ne.
Qed.

Lemma node_at_insert_eq g g' c n n' :
  nodes g' = <[c := n']> (nodes g) -> node_at g c = Some n -> node_at g' c = Some n'.
Proof.
  unfold node_at. intros -> Hc. apply list_lookup_insert_eq.
  by eapply lookup_lt_Some.
Qed.

Lemma node_at_insert_ne g g' c n' p :
  nodes g' = <[c := n']> (nodes g) -> p ≠ c -> node_at g' p = node_at g p.
Proof. unfold node_at. intros -> Hne. by apply list_lookup_insert_ne. Qed.

(** Re-pointing an operand other than the operator changes no node's
    primitive. *)
Lemma SetEdge_IsPrimitiveCNode g g' c i new ins fg :
  nodes g' = <[c := CNode (<[i := new]> ins) fg]> (nodes g) ->
  node_at g c = Some (CNode ins fg) ->
  i ≠ 0 ->
  ∀ p prim, IsPrimitiveCNode g' p prim = IsPrimitiveCNode g p prim.
Proof.
  intros Hn Hc Hi p prim.
  assert (∀ q, value_of g' q = value_of g q) as Hval.
  { intros q. unfold value_of. destruct (decide (q = c)) as [->|Hq].
    - by rewrite (node_at_insert_eq _ _ _ _ _ Hn Hc), Hc.
    - by rewrite (node_at_insert_ne _ _ _ _ _ Hn Hq). }
  unfold IsPrimitiveCNode, cnode_inputs. destruct (decide (p = c)) as [->|Hp].
  - rewrite (node_at_insert_eq _ _ _ _ _ Hn Hc), Hc.
    destruct ins as [|op ins]; [done|]. destruct i; [done|]. cbn. by rewrite Hval.
  - rewrite (node_at_insert_ne _ _ _ _ _ Hn Hp).
    destruct (node_at g p) as [[[|op ?] ?| |]|]; try done. by rewrite Hval.
Qed.

Lemma repointed_nil mt new g : repointed [] mt new g g.
Proof.
  split; [done|]. intros p. destruct (node_at g p) as [[ins fg| |]|]; try done.
  exists ins. by split_and!.
Qed.

(** A user the loop skips. *)
Lemma repointed_skip c i U mt new g g' :
  ¬ (c ≠ mt ∧ IsPrimitiveCNode g c kPrimMakeTuple = true) ->
  repointed U mt new g g' -> repointed ((c, i) :: U) mt new g g'.
Proof.
  intros Hskip [Hlen H]. split; [done|]. intros p. specialize (H p).
  destruct (node_at g p) as [[ins fg| |]|]; try done.
  destruct H as (ins' & Hp & Hl & Hj). exists ins'. split_and!; try done.
  intros j. rewrite Hj. apply (f_equal (fun b : bool => if b then _ else _)).
  apply bool_decide_ext. rewrite elem_of_cons. split; [tauto|].
  intros ([[= -> ->]|?] & ? & ? & ?); [|done]. by destruct Hskip.
Qed.

(** A user the loop re-points. *)
Lemma repointed_step c i U mt new g g1 g' ins fg :
  node_at g c = Some (CNode ins fg) ->
  nodes g1 = <[c := CNode (<[i := new]> ins) fg]> (nodes g) ->
  c ≠ mt -> IsPrimitiveCNode g c kPrimMakeTuple = true -> i ≠ 0 ->
  repointed U mt new g1 g' -> repointed ((c, i) :: U) mt new g g'.
Proof.
  intros Hc Hn Hmt Hprim Hi [Hlen H].
  pose proof (SetEdge_IsPrimitiveCNode _ _ _ _ _ _ _ Hn Hc Hi) as HP.
  split.
  { rewrite Hlen, Hn. apply length_insert. }
  intros p. specialize (H p). destruct (decide (p = c)) as [->|Hp].
  - rewrite (node_at_insert_eq _ _ _ _ _ Hn Hc) in H. rewrite Hc.
    destruct H as (ins' & Hp' & Hl & Hj). exists ins'.
    rewrite length_insert in Hl. split_and!; try done.
    intros j. rewrite Hj, HP, length_insert.
    destruct (decide (j = i)) as [->|Hji].
    + destruct (decide (i < length ins)) as [Hlt|Hge].
      * rewrite list_lookup_insert_eq by done.
        transitivity (Some new); [by case_bool_decide|].
        rewrite bool_decide_eq_true_2; [done|].
        split_and!; try done. apply elem_of_cons. by left.
      * rewrite list_insert_ge by lia.
        rewrite !(bool_decide_eq_false_2 (_ ∧ _ ∧ _ ∧ _)); [done|tauto..].
    + rewrite list_lookup_insert_ne by done.
      apply (f_equal (fun b : bool => if b then _ else _)).
      apply bool_decide_ext. rewrite elem_of_cons.
      split; [tauto|]. intros ([[= ->]|?] & ?); [done|tauto].
  - rewrite (node_at_insert_ne _ _ _ _ _ Hn Hp) in H.
    destruct (node_at g p) as [[insp fgp| |]|]; try done.
    destruct H as (ins' & Hp' & Hl & Hj). exists ins'. split_and!; try done.
    intros j. rewrite Hj, HP.
    apply (f_equal (fun b : bool => if b then _ else _)).
    apply bool_decide_ext. rewrite elem_of_cons.
    split; [tauto|]. intros ([[= -> _]|?] & ?); [done|tauto].
Qed.

Lemma ProcessDependEdge_loop mt new U v :
  ∀ g, is_Some (node_users g) ->
       (∀ c i, (c, i) ∈ U -> IsPrimitiveCNode g c kPrimMakeTuple = true -> i ≠ 0) ->
       ∃ g', for_each U (ProcessDependEdge_user mt new) (mkPassState v g)
             = Ok (tt, mkPassState v g')
             ∧ repointed U mt new g g'
             ∧ recorded U mt new g g'.
Proof.
  induction U as [|[c i] U IH]; intros g Hmgr HU.
  { exists g. split; [done|]. split; [apply repointed_nil|].
    split; [done|]. intros c i Hin. by apply elem_of_nil in Hin. }
  cbn [for_each]. unfold bind at 1. unfold ProcessDependEdge_user at 1. cbn [fst snd].
  destruct (decide (c ≠ mt ∧ IsPrimitiveCNode g c kPrimMakeTuple = true))
    as [[Hmt Hprim]|Hskip].
  - rewrite bool_decide_eq_true_2 by done.
    unfold bind at 1, get at 1. cbn [graph]. rewrite Hprim.
    destruct (IsPrimitiveCNode_inputs _ _ _ Hprim) as (op & rest & Hin & _).
    unfold cnode_inputs in Hin.
    destruct (node_at g c) as [[ins fg| |]|] eqn:Hc; try done.
    destruct (SetEdge_nodes c i new ins fg g Hc Hmgr)
      as (g1 & Hset & Hn & Hmgr1 & Hnew & Hkeep).
    unfold on_graph. cbn [graph self]. rewrite Hset.
    assert (i ≠ 0) as Hi. { eapply HU; [|done]. apply elem_of_cons. by left. }
    pose proof (SetEdge_IsPrimitiveCNode _ _ _ _ _ _ _ Hn Hc Hi) as HP.
    destruct (IH g1) as (g' & Hloop & Hrep & Hkeep' & Hadd'); [done|..].
    { intros c' i' Hin' Hp'. eapply HU; [apply elem_of_cons; by right|].
      by rewrite <- HP. }
    exists g'. split; [done|]. split; [by eapply repointed_step|].
    split; [by auto|].
    intros c' i' [[= -> ->]|Hin']%elem_of_cons Hne' Hp'; [by auto|].
    apply Hadd'; [done..|]. by rewrite HP.
  - assert ((if bool_decide (c ≠ mt)
             then s <- get;;
                  if IsPrimitiveCNode (graph s) c kPrimMakeTuple
                  then on_graph (SetEdge c i new) else ret ()
             else ret ()) (mkPassState v g) = Ok (tt, mkPassState v g)) as ->.
    { case_bool_decide; [|done]. unfold bind, get. cbn [graph].
      destruct (IsPrimitiveCNode g c kPrimMakeTuple); [|done]. by destruct Hskip. }
    destruct (IH g) as (g' & Hloop & Hrep & Hkeep' & Hadd'); [done|..].
    { intros c' i' Hin' Hp'. eapply HU; [apply elem_of_cons; by right|done]. }
    exists g'. split; [done|]. split; [by apply repointed_skip|].
    split; [done|].
    intros c' i' [[= -> ->]|Hin']%elem_of_cons Hne' Hp'; [by destruct Hskip|].
    by apply Hadd'.
Qed.

End Store_facts.

(** ** The graph surgery *)

Section Rewrite_facts.

Lemma on_graph_NewCNode ins fg v g :
  on_graph (NewCNode ins (Some fg)) (mkPassState v g)
  = Ok (length (nodes g),
        mkPassState v (mkGraph (nodes g ++ [CNode ins (Some fg)]) (node_users g))).
Proof. done. Qed.

Lemma isa_CNode_inputs g z : isa_CNode g z = true -> ∃ zin, cnode_inputs g z = Some zin.
Proof.
  unfold isa_CNode, cnode_inputs. destruct (node_at g z) as [[zin ?| |]|]; eauto; done.
Qed.

(** The graph surgery up to the edge repair: the new nodes are appended to
    the store, and the repair runs against the new AllReduce. *)
Lemma rewrite_AddN_build a mt mt_op mt_rest v1 g x y z fg ar_op mul_op :
  x_ v1 = Some x -> y_ v1 = Some y -> z_ v1 = Some z ->
  all_reduce_fg_ v1 = Some fg ->
  all_reduce_ v1 = Some ar_op -> mul_ v1 = Some mul_op ->
  cnode_inputs g mt = Some (mt_op :: mt_rest) ->
  let k := length (nodes g) + length (rehomed g z fg) in
  ∃ v2, mul_cnode_ v2 = mul_cnode_ v1 ∧
  rewrite_AddN a mt (mkPassState v1 g)
  = (ProcessDependEdge mt (S (S k)) ;; ret (Some (S (S (S k)))))
      (mkPassState v2
         (mkGraph (nodes g ++ rewritten g a mt_op ar_op mul_op x y z fg) (node_users g))).
Proof.
  intros Hx Hy Hz Hfg Har Hmul Hmt k. subst k.
  unfold rewrite_AddN, rewritten, rehomed.
  unfold bind at 1, get at 1. cbn [self graph]. rewrite Hx, Hy, Hz, Hfg, Har, Hmul, Hmt.
  destruct (crosses_graph g z fg) eqn:Hc.
  - apply andb_true_iff in Hc as [Hc _].
    destruct (isa_CNode_inputs _ _ Hc) as (zin & ->).
    exists (set_z_ (Some (length (nodes g))) v1). split; [done|].
    unfold bind at 1. unfold bind at 1. rewrite on_graph_NewCNode.
    unfold bind at 1. unfold on_self at 1, modify. cbv beta iota. cbn [self graph ret].
    unfold bind at 1. cbn [ret].
    unfold bind at 1. rewrite on_graph_NewCNode. cbn [nodes node_users].
    unfold bind at 1. rewrite on_graph_NewCNode. cbn [nodes node_users].
    unfold bind at 1. cbn [deref ret].
    unfold bind at 1. rewrite on_graph_NewCNode. cbn [nodes node_users].
    unfold bind at 1. cbn [deref ret].
    unfold bind at 1. rewrite on_graph_NewCNode. cbn [nodes node_users].
    rewrite !length_app. cbn [length].
    rewrite <- !app_assoc. cbn [app].
    by rewrite ?Nat.add_0_r, ?Nat.add_1_r.
  - exists v1. split; [done|].
    unfold bind at 1. cbn [ret].
    unfold bind at 1. cbn [ret].
    unfold bind at 1. rewrite on_graph_NewCNode. cbn [nodes node_users].
    unfold bind at 1. rewrite on_graph_NewCNode. cbn [nodes node_users].
    unfold bind at 1. cbn [deref ret].
    unfold bind at 1. rewrite on_graph_NewCNode. cbn [nodes node_users].
    unfold bind at 1. cbn [deref ret].
    unfold bind at 1. rewrite on_graph_NewCNode. cbn [nodes node_users].
    rewrite !length_app. cbn [length app].
    rewrite <- !app_assoc. cbn [app].
    by rewrite ?Nat.add_0_r, ?Nat.add_1_r.
Qed.

Lemma users_recorded_manager g m :
  users_recorded g m = true -> ∃ users, node_users g = Some users.
Proof. unfold users_recorded. destruct (node_users g); [eauto|done]. Qed.

Lemma users_recorded_elem g m c i :
  users_recorded g m = true ->
  (c, i) ∈ users_of g m ->
  ∃ ins, cnode_inputs g c = Some ins ∧ ins !! i = Some m.
Proof.
  unfold users_recorded. destruct (node_users g) eqn:Hmgr; [|done].
  rewrite forallb_forall. intros H Hin.
  apply list_elem_of_In in Hin. specialize (H _ Hin). cbn [fst snd] in H.
  destruct (cnode_inputs g c) as [ins|]; [|done].
  apply bool_decide_eq_true in H. eauto.
Qed.

Lemma cnode_inputs_lt g c ins : cnode_inputs g c = Some ins -> c < length (nodes g).
Proof.
  unfold cnode_inputs, node_at. destruct (nodes g !! c) eqn:H; [|done].
  intros _. by eapply lookup_lt_Some.
Qed.

Lemma node_at_app g news users p :
  p < length (nodes g) -> node_at (mkGraph (nodes g ++ news) users) p = node_at g p.
Proof. intros Hp. unfold node_at. cbn [nodes]. by apply lookup_app_l. Qed.

Lemma value_of_app g news users p :
  Forall is_CNode news ->
  value_of (mkGraph (nodes g ++ news) users) p = value_of g p.
Proof.
  intros Hnews. unfold value_of. destruct (decide (p < length (nodes g))) as [Hp|Hp].
  { by rewrite node_at_app. }
  unfold node_at at 2. rewrite lookup_ge_None_2 by lia.
  unfold node_at. cbn [nodes]. rewrite lookup_app_r by lia.
  destruct (news !! (p - length (nodes g))) as [n|] eqn:Hn; [|done].
  apply list_elem_of_lookup_2 in Hn. rewrite Forall_forall in Hnews.
  specialize (Hnews _ Hn). by destruct n.
Qed.

(** Appending calls to the store changes no old node's primitive. *)
Lemma IsPrimitiveCNode_app g news users p prim :
  Forall is_CNode news -> p < length (nodes g) ->
  IsPrimitiveCNode (mkGraph (nodes g ++ news) users) p prim = IsPrimitiveCNode g p prim.
Proof.
  intros Hnews Hp. unfold IsPrimitiveCNode, cnode_inputs.
  rewrite node_at_app by done.
  destruct (node_at g p) as [[[|op ?] ?| |]|]; try done.
  by rewrite value_of_app.
Qed.

Lemma rewritten_CNodes g a mt_op ar_op mul_op x y z fg :
  Forall is_CNode (rewritten g a mt_op ar_op mul_op x y z fg).
Proof.
  unfold rewritten, rehomed. apply Forall_app. split; [|by repeat constructor].
  destruct (crosses_graph g z fg); [|done].
  destruct (cnode_inputs g z); by repeat constructor.
Qed.

(** A node the loop had no reason to touch is what it was. *)
Lemma repointed_unchanged U mt new g g' p :
  repointed U mt new g g' ->
  (∀ j, (p, j) ∈ U -> p = mt ∨ IsPrimitiveCNode g p kPrimMakeTuple = false) ->
  node_at g' p = node_at g p.
Proof.
  intros [_ H] Hp. specialize (H p).
  destruct (node_at g p) as [[ins fg| |]|]; try done.
  destruct H as (ins' & -> & _ & Hj). do 2 f_equal.
  apply list_eq. intros j. rewrite Hj. rewrite bool_decide_eq_false_2; [done|].
  intros (Hin & Hne & Hprim & _). destruct (Hp _ Hin) as [?|Hf]; [done|].
  by rewrite Hf in Hprim.
Qed.

(** A recorded MakeTuple consumer other than [mt] holds [new] at the
    recorded position. *)
Lemma repointed_set U mt new g g' p j ins :
  repointed U mt new g g' ->
  (p, j) ∈ U -> p ≠ mt -> IsPrimitiveCNode g p kPrimMakeTuple = true ->
  cnode_inputs g p = Some ins -> j < length ins ->
  ∃ ins', cnode_inputs g' p = Some ins' ∧ ins' !! j = Some new
          ∧ length ins' = length ins.
Proof.
  intros [_ H] Hin Hne Hprim Hins Hj. specialize (H p).
  unfold cnode_inputs in Hins |- *.
  destruct (node_at g p) as [[ins0 fg| |]|]; try done. injection Hins as ->.
  destruct H as (ins' & -> & Hl & Hlook). exists ins'. split_and!; try done.
  rewrite Hlook. by rewrite bool_decide_eq_true_2.
Qed.

(** The accepted candidate: the pass returns the new Mul, having appended
    the new nodes and run the edge repair over the users of the old Mul. *)
Lemma AdjustAllReduceMulAdd_accept v g node addn_op mt mt_op m mul_op ar ar_op x y z fg :
  reassociable g node addn_op mt mt_op m mul_op ar ar_op x y z fg ->
  IsPrimitiveCNode g y kPrimAllReduce = false ->
  reduce_mul g z = false ->
  users_recorded g m = true ->
  let k := length (nodes g) + length (rehomed g z fg) in
  let g1 := mkGraph (nodes g ++ rewritten g addn_op mt_op ar_op mul_op x y z fg)
                    (node_users g) in
  ∃ v' g', AdjustAllReduceMulAdd node (mkPassState v g)
           = Ok (Some (S (S (S k))), mkPassState v' g')
           ∧ repointed (users_of g m) mt (S (S k)) g1 g'
           ∧ recorded (users_of g m) mt (S (S k)) g1 g'.
Proof.
  intros (Hnode & Haddn & Hmt & Hmtop & Hm & Hmul & Har & Harop & Hfg) Hy Hz Hrec k g1.
  unfold AdjustAllReduceMulAdd. unfold bind at 1. rewrite match_AddN_eq.
  cbv zeta. cbn [self graph].
  rewrite (IsPrimitiveCNode_intro _ _ _ _ _ kPrimAddN Hnode Haddn), Hnode.
  rewrite bool_decide_eq_true_2 by done.
  unfold match_tuple.
  rewrite (IsPrimitiveCNode_intro _ _ _ _ _ kPrimMakeTuple Hmt Hmtop), Hmt.
  rewrite bool_decide_eq_true_2 by done.
  rewrite (visit_element_reduce_mul _ _ _ _ _ _ _ _ _ Hm Hmul Har Harop Hy), Hfg.
  rewrite (visit_element_not_reduce _ _ _ Hz).
  cbn [x_ y_ z_ all_reduce_fg_ all_reduce_ mul_ mul_cnode_ Reset].
  match goal with |- context [mkPassState ?w g] => set (v1 := w) end.
  destruct (rewrite_AddN_build addn_op mt mt_op [m; z] v1 g x y z fg ar_op mul_op)
    as (v2 & Hv2 & ->); try done.
  fold k. fold g1.
  destruct (users_recorded_manager _ _ Hrec) as (users & Hmgr).
  unfold bind at 1. unfold ProcessDependEdge. unfold bind at 1, get at 1.
  cbn [self graph]. rewrite Hv2. cbn [mul_cnode_ v1 node_users g1]. rewrite Hmgr.
  assert (∀ c i, (c, i) ∈ users_of g m ->
                 IsPrimitiveCNode g1 c kPrimMakeTuple = true -> i ≠ 0) as HU.
  { intros c i Hin Hprim ->.
    destruct (users_recorded_elem _ _ _ _ Hrec Hin) as (ins & Hins & Hi).
    unfold g1 in Hprim.
    rewrite IsPrimitiveCNode_app in Hprim
      by eauto using rewritten_CNodes, cnode_inputs_lt.
    destruct (IsPrimitiveCNode_inputs _ _ _ Hprim) as (op & rest & Hins' & Hop).
    rewrite Hins in Hins'. injection Hins' as ->. injection Hi as ->.
    unfold value_of in Hop. unfold cnode_inputs in Hm.
    by destruct (node_at g m) as [[]|]. }
  unfold users_of in *. rewrite Hmgr in *.
  destruct (users !! m) as [U|] eqn:HUm; cbn [default] in *.
  - destruct (ProcessDependEdge_loop mt (S (S k)) U v2 g1) as (g' & -> & Hrep & Hrec');
      [unfold g1; cbn [node_users]; by rewrite Hmgr|done|].
    by exists v2, g'.
  - exists v2, g1. split; [done|]. split; [apply repointed_nil|].
    split; [done|]. intros c i Hin. by apply elem_of_nil in Hin.
Qed.

End Rewrite_facts.

(** ** The accepted rewrite *)

Lemma cnode_inputs_app g news users p :
  p < length (nodes g) ->
  cnode_inputs (mkGraph (nodes g ++ news) users) p = cnode_inputs g p.
Proof. intros Hp. unfold cnode_inputs. by rewrite node_at_app. Qed.

Lemma rewritten_lookup g a mt_op ar_op mul_op x y z fg users :
  let k := length (nodes g) + length (rehomed g z fg) in
  let g1 := mkGraph (nodes g ++ rewritten g a mt_op ar_op mul_op x y z fg) users in
  let z' := if crosses_graph g z fg then length (nodes g) else z in
  node_at g1 k = Some (CNode [mt_op; z'; x] (Some fg))
  ∧ node_at g1 (S k) = Some (CNode [a; k] (Some fg))
  ∧ node_at g1 (S (S k)) = Some (CNode [ar_op; S k] (Some fg))
  ∧ node_at g1 (S (S (S k))) = Some (CNode [mul_op; S (S k); y] (Some fg))
  ∧ (if crosses_graph g z fg
     then ∃ zin, cnode_inputs g z = Some zin
                 ∧ node_at g1 (length (nodes g)) = Some (CNode zin (Some fg))
     else True).
Proof.
  intros k g1 z'. subst k g1 z'. unfold node_at, rewritten. cbn [nodes].
  rewrite !app_assoc.
  set (l := nodes g ++ rehomed g z fg).
  assert (length l = length (nodes g) + length (rehomed g z fg)) as <-.
  { unfold l. by rewrite length_app. }
  split_and!.
  - rewrite lookup_app_r by lia. by rewrite Nat.sub_diag.
  - rewrite lookup_app_r by lia. by replace (S (length l) - length l) with 1 by lia.
  - rewrite lookup_app_r by lia. by replace (S (S (length l)) - length l) with 2 by lia.
  - rewrite lookup_app_r by lia.
    by replace (S (S (S (length l))) - length l) with 3 by lia.
  - unfold l, rehomed. destruct (crosses_graph g z fg) eqn:Hc; [|done].
    unfold crosses_graph in Hc. apply andb_true_iff in Hc as [Hc _].
    destruct (isa_CNode_inputs _ _ Hc) as (zin & Hzin). rewrite Hzin.
    exists zin. split; [done|]. rewrite <- app_assoc.
    rewrite lookup_app_r by lia. by rewrite Nat.sub_diag.
Qed.

(** C1: on a candidate [AddN(MakeTuple(Mul(AllReduce(x), y), z))] whose
    parts all get bound ([y] is no AllReduce call, [z] no reduce-mul, the
    AllReduce lives in a sub-graph [fg]), the pass returns a new node
    [Mul(AllReduce(AddN(MakeTuple(z', x))), y)]: four new calls at
    addresses [k .. k + 3] past the old store, all owned by [fg], over the
    operator nodes of the old AddN, MakeTuple, AllReduce and Mul.  [z'] is
    [z], or the copy of [z] built in [fg] when [z] is a call of another
    sub-graph. *)
Theorem reassociation_result v g node addn_op mt mt_op m mul_op ar ar_op x y z fg :
  reassociable g node addn_op mt mt_op m mul_op ar ar_op x y z fg ->
  IsPrimitiveCNode g y kPrimAllReduce = false ->
  reduce_mul g z = false ->
  users_recorded g m = true ->
  ∃ s' z' k,
    AdjustAllReduceMulAdd node (mkPassState v g) = Ok (Some (k + 3), s')
    ∧ length (nodes g) ≤ k
    ∧ node_at (graph s') k = Some (CNode [mt_op; z'; x] (Some fg))
    ∧ node_at (graph s') (k + 1) = Some (CNode [addn_op; k] (Some fg))
    ∧ node_at (graph s') (k + 2) = Some (CNode [ar_op; k + 1] (Some fg))
    ∧ node_at (graph s') (k + 3) = Some (CNode [mul_op; k + 2; y] (Some fg))
    ∧ (if crosses_graph g z fg
       then ∃ zin, cnode_inputs g z = Some zin ∧ z' = length (nodes g)
                   ∧ node_at (graph s') z' = Some (CNode zin (Some fg))
       else z' = z).
Proof.
  intros Hshape Hy Hz Hrec.
  destruct (AdjustAllReduceMulAdd_accept v g node _ _ _ _ _ _ _ _ _ _ _ Hshape Hy Hz Hrec)
    as (v' & g' & Hrun & Hrep & _).
  set (k := length (nodes g) + length (rehomed g z fg)) in *.
  set (g1 := mkGraph _ _) in Hrep.
  assert (∀ p, length (nodes g) ≤ p -> node_at g' p = node_at g1 p) as Hnew.
  { intros p Hp. eapply repointed_unchanged; [done|]. intros j Hin.
    destruct (users_recorded_elem _ _ _ _ Hrec Hin) as (ins & Hins%cnode_inputs_lt & _).
    lia. }
  destruct (rewritten_lookup g addn_op mt_op ar_op mul_op x y z fg (node_users g))
    as (H0 & H1 & H2 & H3 & Hz').
  fold k in H0, H1, H2, H3, Hz'. fold g1 in H0, H1, H2, H3, Hz'.
  exists (mkPassState v' g'), (if crosses_graph g z fg then length (nodes g) else z), k.
  replace (k + 3) with (S (S (S k))) by lia.
  replace (k + 2) with (S (S k)) by lia.
  replace (k + 1) with (S k) by lia.
  cbn [graph]. rewrite !Hnew by lia.
  split_and!; try done; [lia|].
  destruct (crosses_graph g z fg); [|done].
  destruct Hz' as (zin & Hzin & Hl). exists zin. by rewrite Hnew.
Qed.

(** C4: when the rewrite is accepted, a recorded user [(c, i)] of the old
    Mul that is a MakeTuple call other than the matched MakeTuple holds
    the new AllReduce node at position [i] afterwards, and the manager
    records [(c, i)] among the users of the new AllReduce; a user that is
    no MakeTuple call, and the matched MakeTuple itself, is the node it
    was. *)
Theorem dependency_edges_repaired
    v g node addn_op mt mt_op m mul_op ar ar_op x y z fg c i :
  reassociable g node addn_op mt mt_op m mul_op ar ar_op x y z fg ->
  IsPrimitiveCNode g y kPrimAllReduce = false ->
  reduce_mul g z = false ->
  users_recorded g m = true ->
  (c, i) ∈ users_of g m ->
  ∃ s' mul' all_reduce' add',
    AdjustAllReduceMulAdd node (mkPassState v g) = Ok (Some mul', s')
    ∧ cnode_inputs (graph s') mul' = Some [mul_op; all_reduce'; y]
    ∧ cnode_inputs (graph s') all_reduce' = Some [ar_op; add']
    ∧ length (nodes g) ≤ all_reduce'
    ∧ (if bool_decide (c ≠ mt) && IsPrimitiveCNode g c kPrimMakeTuple
       then (∃ ins', cnode_inputs (graph s') c = Some ins'
                     ∧ ins' !! i = Some all_reduce')
            ∧ (c, i) ∈ users_of (graph s') all_reduce'
       else node_at (graph s') c = node_at g c).
Proof.
  intros Hshape Hy Hz Hrec Hin.
  destruct (AdjustAllReduceMulAdd_accept v g node _ _ _ _ _ _ _ _ _ _ _ Hshape Hy Hz Hrec)
    as (v' & g' & Hrun & Hrep & _ & Hadd).
  set (k := length (nodes g) + length (rehomed g z fg)) in *.
  set (g1 := mkGraph _ _) in Hrep, Hadd.
  assert (∀ p, length (nodes g) ≤ p -> node_at g' p = node_at g1 p) as Hnew.
  { intros p Hp. eapply repointed_unchanged; [done|]. intros j Hj.
    destruct (users_recorded_elem _ _ _ _ Hrec Hj) as (ins & Hins%cnode_inputs_lt & _).
    lia. }
  destruct (rewritten_lookup g addn_op mt_op ar_op mul_op x y z fg (node_users g))
    as (_ & _ & H2 & H3 & _).
  fold k in H2, H3. fold g1 in H2, H3.
  destruct (users_recorded_elem _ _ _ _ Hrec Hin) as (ins & Hins & Hi).
  pose proof (cnode_inputs_lt _ _ _ Hins) as Hc.
  exists (mkPassState v' g'), (S (S (S k))), (S (S k)), (S k). cbn [graph].
  split_and!; try done.
  - unfold cnode_inputs. by rewrite Hnew, H3 by lia.
  - unfold cnode_inputs. by rewrite Hnew, H2 by lia.
  - lia.
  - destruct (bool_decide (c ≠ mt) && IsPrimitiveCNode g c kPrimMakeTuple) eqn:Hcond.
    + apply andb_true_iff in Hcond as [Hne%bool_decide_eq_true Hprim].
      assert (IsPrimitiveCNode g1 c kPrimMakeTuple = true) as Hprim1.
      { unfold g1. by rewrite IsPrimitiveCNode_app by eauto using rewritten_CNodes. }
      split; [|by apply Hadd].
      destruct (repointed_set _ _ _ _ _ c i ins Hrep Hin Hne Hprim1) as (ins' & ? & ? & _).
      * unfold g1. by rewrite cnode_inputs_app.
      * by eapply lookup_lt_Some.
      * eauto.
    + rewrite (repointed_unchanged _ _ _ _ _ c Hrep).
      * unfold g1. by rewrite node_at_app.
      * intros j _. unfold g1.
        rewrite IsPrimitiveCNode_app by eauto using rewritten_CNodes.
        apply andb_false_iff in Hcond as [Hne%bool_decide_eq_false|?]; [left|by right].
        by destruct (decide (c = mt)).
Qed.

(** ** Sweep 1 *)

Section Sweep1.
Variable fold : Value -> Value -> Primitive -> option Value.

#[local] Arguments IsPrimitiveCNode : simpl never.
#[local] Arguments cnode_inputs : simpl never.
#[local] Arguments value_of : simpl never.
#[local] Arguments func_graph_of : simpl never.
#[local] Arguments IsVNode : simpl never.
#[local] Arguments captures : simpl never.

Lemma IsPrimitiveCNode_eval g p op args q prim :
  cnode_inputs g p = Some (op :: args) ->
  value_of g op = Some (PrimitiveValue q) ->
  IsPrimitiveCNode g p prim = same_primitive q prim.
Proof. intros Hp Hop. unfold IsPrimitiveCNode. by rewrite Hp, Hop. Qed.

Lemma captures_any g c n :
  any_value c = true -> captures g c n = IsVNode g n.
Proof.
  intros Hc. unfold captures, IsVNode, value_of. rewrite Hc.
  by destruct (node_at g n) as [[]|].
Qed.

Lemma captures_value g c n v :
  value_of g n = Some v -> any_value c = true -> captures g c n = true.
Proof. intros Hn Hc. unfold captures. by rewrite Hn, Hc. Qed.

Lemma captures_CNode g c p ins : cnode_inputs g p = Some ins -> captures g c p = false.
Proof. unfold cnode_inputs, captures, value_of. by destruct (node_at g p) as [[]|]. Qed.

Lemma func_graph_of_app g news users p :
  p < length (nodes g) ->
  func_graph_of (mkGraph (nodes g ++ news) users) p = func_graph_of g p.
Proof. intros Hp. unfold func_graph_of. by rewrite node_at_app. Qed.

(** A scalar zero is no scalar one. *)
Lemma captures_zero_not_one g n :
  captures g zero_scalar_ n = true -> captures g one_scalar_ n = false.
Proof.
  unfold captures. destruct (value_of g n) as [[k|dims data| |]|]; cbn; try done.
  - intros ->%Z.eqb_eq. done.
  - destruct dims; [|done]. destruct data as [|k [|? ?]]; try done.
    intros ->%Z.eqb_eq. done.
Qed.

(** The rule that is there: [x + 0], the zero on the right, gives back the
    node [x] itself. *)
Lemma add_zero_right g node op x zn :
  cnode_inputs g node = Some [op; x; zn] ->
  value_of g op = Some (PrimitiveValue kPrimTensorAdd) ->
  captures g zero_ zn || captures g zero_scalar_ zn = true ->
  ArithmeticSimplify fold node g = Ok (Some x, g).
Proof.
  intros Hnode Hop Hz. run_rules.
  destruct (captures g zero_ zn) eqn:Hz1; cbn in Hz;
    by repeat (progress (rewrite ?(IsPrimitiveCNode_eval _ _ _ _ _ _ Hnode Hop),
                           ?Hnode, ?Hz1, ?Hz; cbn)).
Qed.

(** The scalar-add primitive is written for both operand orders: here the
    zero on the left. *)
Lemma scalar_add_zero_left g node op zn x :
  cnode_inputs g node = Some [op; zn; x] ->
  value_of g op = Some (PrimitiveValue kPrimScalarAdd) ->
  captures g zero_scalar_ zn = true ->
  ArithmeticSimplify fold node g = Ok (Some x, g).
Proof.
  intros Hnode Hop Hz. run_rules.
  by repeat (progress (rewrite ?(IsPrimitiveCNode_eval _ _ _ _ _ _ Hnode Hop),
                         ?Hnode, ?Hz; cbn)).
Qed.

(** The zero on the right: [x], unless [x] is a scalar zero itself, when
    the rule for the other order fires first and returns the second
    operand. *)
Lemma scalar_add_zero_right g node op x zn :
  cnode_inputs g node = Some [op; x; zn] ->
  value_of g op = Some (PrimitiveValue kPrimScalarAdd) ->
  captures g zero_scalar_ zn = true ->
  ArithmeticSimplify fold node g
  = Ok (Some (if captures g zero_scalar_ x then zn else x), g).
Proof.
  intros Hnode Hop Hz. run_rules.
  destruct (captures g zero_scalar_ x) eqn:Hx;
    by repeat (progress (rewrite ?(IsPrimitiveCNode_eval _ _ _ _ _ _ Hnode Hop),
                           ?Hnode, ?Hz, ?Hx; cbn)).
Qed.

(** C7, what the code does with [0 + x]: a tensor add whose second operand
    is no zero constant is not rewritten, whatever its first operand, so
    [0 + x] stays as it is; only the scalar-add primitive is written for
    both operand orders. *)
Theorem add_zero_left_not_rewritten g node op zn x :
  cnode_inputs g node = Some [op; zn; x] ->
  value_of g op = Some (PrimitiveValue kPrimTensorAdd) ->
  captures g zero_ x = false ->
  captures g zero_scalar_ x = false ->
  ArithmeticSimplify fold node g = Ok (None, g).
Proof.
  intros Hnode Hop Hx Hxs. run_rules.
  repeat (progress (rewrite ?(IsPrimitiveCNode_eval _ _ _ _ _ _ Hnode Hop),
                      ?Hnode, ?Hx, ?Hxs; cbn)).
  by destruct (func_graph_of g node).
Qed.

(** C8, amended: for every node [x] that [one_scalar_] does not capture,
    sweep 1 rewrites [scalar_mul(0, x)] and [scalar_mul(x, 0)] to a newly
    stamped zero literal: a value node at the first free address of the
    store, which is not the matched zero operand. *)
Theorem scalar_mul_zero_fresh g node op a b zn x :
  cnode_inputs g node = Some [op; a; b] ->
  value_of g op = Some (PrimitiveValue kPrimScalarMul) ->
  (a = zn ∧ b = x) ∨ (a = x ∧ b = zn) ->
  captures g zero_scalar_ zn = true ->
  captures g one_scalar_ x = false ->
  ArithmeticSimplify fold node g
  = Ok (Some (length (nodes g)),
        mkGraph (nodes g ++ [ValueNode (Int32Imm 0)]) (node_users g)).
Proof.
  intros Hnode Hop Hab Hz Hx. run_rules.
  pose proof (captures_zero_not_one _ _ Hz) as Hz1.
  destruct Hab as [[-> ->]|[-> ->]];
    destruct (captures g zero_scalar_ x) eqn:Hxz;
    by repeat (progress (rewrite ?(IsPrimitiveCNode_eval _ _ _ _ _ _ Hnode Hop),
                           ?Hnode, ?Hz, ?Hz1, ?Hx, ?Hxz; cbn)).
Qed.

(** C9: [x * 1] in the tensor-multiply form is rewritten to [x] when [x]
    is a value node and is not rewritten when it is not; the
    scalar-multiply primitive is rewritten for both operand orders,
    whatever kind of node [x] is: [scalar_mul(1, x)] to [x], and
    [scalar_mul(x, 1)] to [x] too, unless [x] is itself a scalar one, when
    the rule for the other order fires first and returns the second
    operand. *)
Theorem multiply_by_one g node op x one :
  (cnode_inputs g node = Some [op; x; one] ->
   value_of g op = Some (PrimitiveValue kPrimMul) ->
   captures g one_ one = true ->
   ArithmeticSimplify fold node g
   = Ok ((if IsVNode g x then Some x else None), g))
  ∧ (cnode_inputs g node = Some [op; one; x] ->
     value_of g op = Some (PrimitiveValue kPrimScalarMul) ->
     captures g one_scalar_ one = true ->
     ArithmeticSimplify fold node g = Ok (Some x, g))
  ∧ (cnode_inputs g node = Some [op; x; one] ->
     value_of g op = Some (PrimitiveValue kPrimScalarMul) ->
     captures g one_scalar_ one = true ->
     ArithmeticSimplify fold node g
     = Ok (Some (if captures g one_scalar_ x then one else x), g)).
Proof.
  split_and!; intros Hnode Hop Ho; run_rules;
    unfold CheckFunc_IsVNode, WithValueOf, bind, get, GetNode, ret;
    rewrite ?(captures_any g const_ x) by done;
    destruct (IsVNode g x) eqn:Hx;
    destruct (captures g one_scalar_ x) eqn:Hox;
    repeat (progress (rewrite ?(IsPrimitiveCNode_eval _ _ _ _ _ _ Hnode Hop),
                        ?Hnode, ?Ho, ?Hx, ?Hox, ?(captures_any g const_ x) by done; cbn));
    try done; by destruct (func_graph_of g node).
Qed.

(** C6: on an attached node [c1 * (c2 * x)] with [c1] and [c2] value
    nodes, sweep 1 returns a new call [x * k] over the outer multiply's own
    operator node, where [k] is a new value node holding the folded
    literal when [fold] gives one, and otherwise a new call [c1 * c2] over
    the two original constant nodes and that same operator node. *)
Theorem nested_constant_multiply g node mul_op c1 inner mul_op2 c2 x v1 v2 fg :
  cnode_inputs g node = Some [mul_op; c1; inner] ->
  value_of g mul_op = Some (PrimitiveValue kPrimMul) ->
  cnode_inputs g inner = Some [mul_op2; c2; x] ->
  value_of g mul_op2 = Some (PrimitiveValue kPrimMul) ->
  value_of g c1 = Some v1 ->
  value_of g c2 = Some v2 ->
  func_graph_of g node = Some fg ->
  let n := length (nodes g) in
  ArithmeticSimplify fold node g
  = Ok (Some (S n),
        mkGraph (nodes g ++ [match fold v1 v2 kPrimMul with
                             | Some v => ValueNode v
                             | None => CNode [mul_op; c1; c2] (Some fg)
                             end;
                             CNode [mul_op; x; n] (Some fg)])
                (node_users g)).
Proof.
  intros Hnode Hop Hinner Hop2 Hc1 Hc2 Hfg n. run_rules.
  pose proof (captures_CNode g one_ _ _ Hinner) as Hi1.
  pose proof (captures_value g const_ _ _ Hc1 eq_refl) as Hk1.
  pose proof (captures_value g const_2 _ _ Hc2 eq_refl) as Hk2.
  repeat (progress (rewrite ?(IsPrimitiveCNode_eval _ _ _ _ _ _ Hnode Hop),
                      ?(IsPrimitiveCNode_eval _ _ _ _ _ _ Hinner Hop2),
                      ?Hnode, ?Hinner, ?Hi1, ?Hk1, ?Hk2; cbn)).
  unfold const_dup_lambda, MulByPatternConst, bind, get, GetNode, GetNode_const, ret. cbn.
  rewrite Hc1, Hc2.
  pose proof (cnode_inputs_lt _ _ _ Hnode) as Hlt.
  destruct (fold v1 v2 kPrimMul) as [v|]; cbn.
  - rewrite cnode_inputs_app, func_graph_of_app, Hnode, Hfg by done. cbn.
    rewrite length_app, <- app_assoc. cbn. by rewrite Nat.add_1_r.
  - rewrite Hnode, Hfg. cbn.
    rewrite length_app, <- app_assoc. cbn. by rewrite Nat.add_1_r.
Qed.

(** C3, what the code does on a detached [c1 * (c2 * x)]: the folding rule
    stands before the guard of line 57, so it fires and builds its calls
    into the absent sub-graph: a fault, where the specification has the
    pass return nothing. *)
Theorem detached_constant_multiply_faults g node mul_op c1 inner mul_op2 c2 x v1 v2 :
  cnode_inputs g node = Some [mul_op; c1; inner] ->
  value_of g mul_op = Some (PrimitiveValue kPrimMul) ->
  cnode_inputs g inner = Some [mul_op2; c2; x] ->
  value_of g mul_op2 = Some (PrimitiveValue kPrimMul) ->
  value_of g c1 = Some v1 ->
  value_of g c2 = Some v2 ->
  func_graph_of g node = None ->
  ArithmeticSimplify fold node g = Fault.
Proof.
  intros Hnode Hop Hinner Hop2 Hc1 Hc2 Hfg. run_rules.
  pose proof (captures_CNode g one_ _ _ Hinner) as Hi1.
  pose proof (captures_value g const_ _ _ Hc1 eq_refl) as Hk1.
  pose proof (captures_value g const_2 _ _ Hc2 eq_refl) as Hk2.
  repeat (progress (rewrite ?(IsPrimitiveCNode_eval _ _ _ _ _ _ Hnode Hop),
                      ?(IsPrimitiveCNode_eval _ _ _ _ _ _ Hinner Hop2),
                      ?Hnode, ?Hinner, ?Hi1, ?Hk1, ?Hk2; cbn)).
  unfold const_dup_lambda, MulByPatternConst, bind, get, GetNode, GetNode_const, ret. cbn.
  rewrite Hc1, Hc2.
  pose proof (cnode_inputs_lt _ _ _ Hnode) as Hlt.
  destruct (fold v1 v2 kPrimMul) as [v|]; cbn.
  - by rewrite cnode_inputs_app, func_graph_of_app, Hnode, Hfg by done.
  - by rewrite Hnode, Hfg.
Qed.

(** The guard of line 57 does keep the Momentum and pow rules from a
    detached node: a detached [pow(x, 1)] is left alone. *)
Lemma detached_pow_not_tried g node op x one :
  cnode_inputs g node = Some [op; x; one] ->
  value_of g op = Some (PrimitiveValue kPrimPow) ->
  func_graph_of g node = None ->
  ArithmeticSimplify fold node g = Ok (None, g).
Proof.
  intros Hnode Hop Hfg. run_rules.
  by repeat (progress (rewrite ?(IsPrimitiveCNode_eval _ _ _ _ _ _ Hnode Hop),
                         ?Hnode, ?Hfg; cbn)).
Qed.

(** An attached [pow(x, 1)] is rewritten to [x]. *)
Lemma pow_one g node op x one fg :
  cnode_inputs g node = Some [op; x; one] ->
  value_of g op = Some (PrimitiveValue kPrimPow) ->
  captures g one_scalar_ one = true ->
  func_graph_of g node = Some fg ->
  ArithmeticSimplify fold node g = Ok (Some x, g).
Proof.
  intros Hnode Hop Ho Hfg. run_rules.
  by repeat (progress (rewrite ?(IsPrimitiveCNode_eval _ _ _ _ _ _ Hnode Hop),
                         ?Hnode, ?Hfg, ?Ho; cbn)).
Qed.

End Sweep1.

(** ** Candidates the pass declines *)

Lemma fold_visit_not_reduce g elems v :
  (∀ e, e ∈ elems -> reduce_mul g e = false) ->
  x_ (fold_left (fun w e => visit_element g e w) elems v) = x_ v.
Proof.
  revert v. induction elems as [|e elems IH]; intros v H; cbn [fold_left]; [done|].
  rewrite IH by (intros e' He'; apply H, elem_of_cons; by right).
  rewrite visit_element_not_reduce; [done|]. apply H, elem_of_cons. by left.
Qed.

(** C2, amended: a candidate [AddN] whose [MakeTuple] holds more than two
    elements, or none of whose elements is a Mul call with an AllReduce
    call among its operands, gets no rewrite: the pass returns nothing and
    the graph is the one it was. *)
Theorem no_rewrite_without_reduce_mul v g node addn_op mt mt_op elems :
  cnode_inputs g node = Some [addn_op; mt] ->
  value_of g addn_op = Some (PrimitiveValue kPrimAddN) ->
  cnode_inputs g mt = Some (mt_op :: elems) ->
  value_of g mt_op = Some (PrimitiveValue kPrimMakeTuple) ->
  2 < length elems ∨ forallb (fun e => negb (reduce_mul g e)) elems = true ->
  ∃ v', AdjustAllReduceMulAdd node (mkPassState v g) = Ok (None, mkPassState v' g).
Proof.
  intros Hnode Haddn Hmt Hmtop Helems.
  unfold AdjustAllReduceMulAdd. unfold bind at 1. rewrite match_AddN_eq.
  cbv zeta. cbn [self graph].
  rewrite (IsPrimitiveCNode_intro _ _ _ _ _ kPrimAddN Hnode Haddn), Hnode.
  rewrite bool_decide_eq_true_2 by done.
  eexists. apply rewrite_AddN_unbound. left. cbn [self].
  unfold match_tuple.
  rewrite (IsPrimitiveCNode_intro _ _ _ _ _ kPrimMakeTuple Hmt Hmtop), Hmt.
  rewrite bool_decide_eq_true_2 by done.
  destruct elems as [|e1 [|e2 [|e3 elems]]]; try done.
  destruct Helems as [Hlen|Hnot]; [cbn in Hlen; lia|].
  assert (∀ e, e ∈ [e1; e2] -> reduce_mul g e = false) as Hnot'.
  { rewrite forallb_forall in Hnot. intros e He%list_elem_of_In.
    by apply negb_true_iff, Hnot. }
  clear Hnot. rename Hnot' into Hnot.
  pose proof (fold_visit_not_reduce g [e1; e2] (Reset v) Hnot) as Hx.
  cbn [fold_left] in Hx. by rewrite Hx.
Qed.

Lemma reduce_mul_shape_reduce_mul g e :
  reduce_mul_shape g e = true -> reduce_mul g e = true.
Proof.
  unfold reduce_mul_shape, reduce_mul.
  destruct (IsPrimitiveCNode g e kPrimMul); [|done]. cbn [andb].
  destruct (cnode_inputs g e) as [[|op [|ar [|y [|? ?]]]]|]; try done.
  intros [Har Hin]%andb_true_iff. cbn [drop existsb].
  unfold is_AllReduce_call. rewrite Har.
  by destruct (cnode_inputs g ar) as [[|? [|? [|? ?]]]|].
Qed.

(** C10: when both elements of the tuple have the shape
    [Mul(AllReduce(_), _)], the visit never binds [z_]: the second element
    overwrites [mul_cnode_] instead, and the pass returns nothing in the
    graph it was given. *)
Theorem both_elements_reduce_mul v g node addn_op mt mt_op e1 e2 :
  cnode_inputs g node = Some [addn_op; mt] ->
  value_of g addn_op = Some (PrimitiveValue kPrimAddN) ->
  cnode_inputs g mt = Some [mt_op; e1; e2] ->
  value_of g mt_op = Some (PrimitiveValue kPrimMakeTuple) ->
  reduce_mul_shape g e1 = true ->
  reduce_mul_shape g e2 = true ->
  ∃ v', AdjustAllReduceMulAdd node (mkPassState v g) = Ok (None, mkPassState v' g)
        ∧ z_ v' = None ∧ mul_cnode_ v' = Some e2.
Proof.
  intros Hnode Haddn Hmt Hmtop He1%reduce_mul_shape_reduce_mul
         He2%reduce_mul_shape_reduce_mul.
  unfold AdjustAllReduceMulAdd. unfold bind at 1. rewrite match_AddN_eq.
  cbv zeta. cbn [self graph].
  rewrite (IsPrimitiveCNode_intro _ _ _ _ _ kPrimAddN Hnode Haddn), Hnode.
  rewrite bool_decide_eq_true_2 by done.
  unfold match_tuple.
  rewrite (IsPrimitiveCNode_intro _ _ _ _ _ kPrimMakeTuple Hmt Hmtop), Hmt.
  rewrite bool_decide_eq_true_2 by done.
  set (v0 := Reset v).
  destruct (visit_element_reduce g e1 v0 He1) as [Hz1 _].
  destruct (visit_element_reduce g e2 (visit_element g e1 v0) He2) as [Hz2 Hm2].
  assert (z_ (visit_element g e2 (visit_element g e1 v0)) = None) as Hz.
  { by rewrite Hz2, Hz1. }
  eexists. split_and!; [|exact Hz|exact Hm2].
  apply rewrite_AddN_unbound. right. right. by left.
Qed.

(** ** The theorems at the sample graphs *)

(** C1 at [reduce_graph]: the new Mul is node 18, over the new AllReduce
    17, the new AddN 16 and the new tuple 15, which holds the copy 14 of
    the decay term. *)
Lemma reassociation_result_at_reduce_graph :
  ∃ s' z' k,
    AdjustAllReduceMulAdd 11 (mkPassState fresh_visitor reduce_graph)
    = Ok (Some (k + 3), s')
    ∧ length (nodes reduce_graph) ≤ k
    ∧ node_at (graph s') k = Some (CNode [1; z'; 4] (Some 0))
    ∧ node_at (graph s') (k + 1) = Some (CNode [0; k] (Some 0))
    ∧ node_at (graph s') (k + 2) = Some (CNode [3; k + 1] (Some 0))
    ∧ node_at (graph s') (k + 3) = Some (CNode [2; k + 2; 5] (Some 0))
    ∧ (if crosses_graph reduce_graph 9 0
       then ∃ zin, cnode_inputs reduce_graph 9 = Some zin
                   ∧ z' = length (nodes reduce_graph)
                   ∧ node_at (graph s') z' = Some (CNode zin (Some 0))
       else z' = 9).
Proof.
  apply (reassociation_result fresh_visitor reduce_graph 11 0 10 1 8 2 7 3 4 5 9 0).
  - repeat split.
  - reflexivity.
  - reflexivity.
  - vm_compute. reflexivity.
Defined.

(** C2, counterexample at [mirrored_graph]: the first operand of the only
    Mul is no AllReduce call, the AllReduce is its second operand, and the
    candidate is rewritten all the same. *)
Lemma mirrored_mul_is_rewritten :
  cnode_inputs mirrored_graph 8 = Some [2; 5; 7]
  ∧ IsPrimitiveCNode mirrored_graph 5 kPrimAllReduce = false
  ∧ IsPrimitiveCNode mirrored_graph 7 kPrimAllReduce = true
  ∧ ∃ v', AdjustAllReduceMulAdd 10 (mkPassState fresh_visitor mirrored_graph)
          = Ok (Some 14,
                mkPassState v'
                  (mkGraph (nodes mirrored_graph ++
                            [CNode [1; 6; 4] (Some 0); CNode [0; 11] (Some 0);
                             CNode [3; 12] (Some 0); CNode [2; 13; 5] (Some 0)])
                           (node_users mirrored_graph))).
Proof. split_and!; try reflexivity. eexists. vm_compute. reflexivity. Qed.

(** C2, amended, at [declined_graph]: the tuple of three, and the tuple
    with no AllReduce. *)
Lemma no_rewrite_at_declined_graph :
  (∃ v', AdjustAllReduceMulAdd 10 (mkPassState fresh_visitor declined_graph)
         = Ok (None, mkPassState v' declined_graph))
  ∧ (∃ v', AdjustAllReduceMulAdd 13 (mkPassState fresh_visitor declined_graph)
           = Ok (None, mkPassState v' declined_graph)).
Proof.
  split.
  - apply (no_rewrite_without_reduce_mul fresh_visitor declined_graph 10 0 9 1 [8; 6; 4]);
      try reflexivity.
    left. simpl. lia.
  - apply (no_rewrite_without_reduce_mul fresh_visitor declined_graph 13 0 12 1 [11; 6]);
      try reflexivity.
    right. reflexivity.
Defined.

(** C3 at [arith_graph]: the detached [2 * (3 * x)] faults. *)
Lemma detached_constant_multiply_at_arith_graph :
  func_graph_of arith_graph 15 = None
  ∧ ArithmeticSimplify fold_int32 15 arith_graph = Fault.
Proof.
  split; [reflexivity|].
  apply (detached_constant_multiply_faults fold_int32 arith_graph 15 1 7 12 1 8 4
           (Int32Imm 2) (Int32Imm 3)); reflexivity.
Defined.

(** C4 at [reduce_graph]: the other MakeTuple (12) is re-pointed to the new
    AllReduce; the Mul user (13) and the matched MakeTuple (10) are the
    nodes they were. *)
Lemma dependency_edges_at_reduce_graph :
  (∃ s' mul' all_reduce' add',
     AdjustAllReduceMulAdd 11 (mkPassState fresh_visitor reduce_graph)
     = Ok (Some mul', s')
     ∧ cnode_inputs (graph s') mul' = Some [2; all_reduce'; 5]
     ∧ cnode_inputs (graph s') all_reduce' = Some [3; add']
     ∧ length (nodes reduce_graph) ≤ all_reduce'
     ∧ (if bool_decide (12 ≠ 10) && IsPrimitiveCNode reduce_graph 12 kPrimMakeTuple
        then (∃ ins', cnode_inputs (graph s') 12 = Some ins'
                      ∧ ins' !! 1 = Some all_reduce')
             ∧ (12, 1) ∈ users_of (graph s') all_reduce'
        else node_at (graph s') 12 = node_at reduce_graph 12))
  ∧ (∃ s' mul' all_reduce' add',
       AdjustAllReduceMulAdd 11 (mkPassState fresh_visitor reduce_graph)
       = Ok (Some mul', s')
       ∧ cnode_inputs (graph s') mul' = Some [2; all_reduce'; 5]
       ∧ cnode_inputs (graph s') all_reduce' = Some [3; add']
       ∧ length (nodes reduce_graph) ≤ all_reduce'
       ∧ (if bool_decide (13 ≠ 10) && IsPrimitiveCNode reduce_graph 13 kPrimMakeTuple
          then (∃ ins', cnode_inputs (graph s') 13 = Some ins'
                        ∧ ins' !! 2 = Some all_reduce')
               ∧ (13, 2) ∈ users_of (graph s') all_reduce'
          else node_at (graph s') 13 = node_at reduce_graph 13))
  ∧ (∃ s' mul' all_reduce' add',
       AdjustAllReduceMulAdd 11 (mkPassState fresh_visitor reduce_graph)
       = Ok (Some mul', s')
       ∧ cnode_inputs (graph s') mul' = Some [2; all_reduce'; 5]
       ∧ cnode_inputs (graph s') all_reduce' = Some [3; add']
       ∧ length (nodes reduce_graph) ≤ all_reduce'
       ∧ (if bool_decide (10 ≠ 10) && IsPrimitiveCNode reduce_graph 10 kPrimMakeTuple
          then (∃ ins', cnode_inputs (graph s') 10 = Some ins'
                        ∧ ins' !! 1 = Some all_reduce')
               ∧ (10, 1) ∈ users_of (graph s') all_reduce'
          else node_at (graph s') 10 = node_at reduce_graph 10)).
Proof.
  split_and!.
  - apply (dependency_edges_repaired fresh_visitor reduce_graph 11 0 10 1 8 2 7 3 4 5 9 0
             12 1); try reflexivity; [repeat split|].
    apply list_elem_of_In. vm_compute. tauto.
  - apply (dependency_edges_repaired fresh_visitor reduce_graph 11 0 10 1 8 2 7 3 4 5 9 0
             13 2); try reflexivity; [repeat split|].
    apply list_elem_of_In. vm_compute. tauto.
  - apply (dependency_edges_repaired fresh_visitor reduce_graph 11 0 10 1 8 2 7 3 4 5 9 0
             10 1); try reflexivity; [repeat split|].
    apply list_elem_of_In. vm_compute. tauto.
Defined.

(** C6 at [arith_graph]: [2 * (3 * x)] folds to [x * 6]; the tensor
    constant and 3 do not fold, and [tensor * (3 * x)] becomes
    [x * (tensor * 3)]. *)
Lemma nested_constant_multiply_at_arith_graph :
  ArithmeticSimplify fold_int32 13 arith_graph
  = Ok (Some 24,
        mkGraph (nodes arith_graph ++ [ValueNode (Int32Imm 6); CNode [1; 4; 23] (Some 0)])
                (node_users arith_graph))
  ∧ ArithmeticSimplify fold_int32 14 arith_graph
    = Ok (Some 24,
          mkGraph (nodes arith_graph ++
                   [CNode [1; 9; 8] (Some 0); CNode [1; 4; 23] (Some 0)])
                  (node_users arith_graph)).
Proof.
  split.
  - apply (nested_constant_multiply fold_int32 arith_graph 13 1 7 12 1 8 4
             (Int32Imm 2) (Int32Imm 3) 0); reflexivity.
  - apply (nested_constant_multiply fold_int32 arith_graph 14 1 9 12 1 8 4
             (Tensor 1 [2%Z; 2%Z]) (Int32Imm 3) 0); reflexivity.
Defined.

(** C7 at [arith_graph]: [0 + x] is left alone, while [x + 0] gives [x]. *)
Lemma add_zero_left_at_arith_graph :
  captures arith_graph zero_ 5 = true
  ∧ ArithmeticSimplify fold_int32 10 arith_graph = Ok (Some 4, arith_graph)
  ∧ ArithmeticSimplify fold_int32 11 arith_graph = Ok (None, arith_graph).
Proof.
  split; [reflexivity|]. split; [reflexivity|].
  apply (add_zero_left_not_rewritten fold_int32 arith_graph 11 0 5 4); reflexivity.
Defined.

(** C8, counterexample at [arith_graph]: [scalar_mul(0, 1)] is rewritten by
    the multiply-by-one rule to its zero operand, node 5, and no node is
    built. *)
Lemma scalar_mul_zero_one_returns_operand :
  cnode_inputs arith_graph 18 = Some [2; 5; 6]
  ∧ captures arith_graph zero_scalar_ 5 = true
  ∧ ArithmeticSimplify fold_int32 18 arith_graph = Ok (Some 5, arith_graph).
Proof. split_and!; reflexivity. Qed.

(** C8, amended, at [arith_graph]: [scalar_mul(0, x)] and
    [scalar_mul(x, 0)] give the new node 23. *)
Lemma scalar_mul_zero_at_arith_graph :
  ArithmeticSimplify fold_int32 16 arith_graph
  = Ok (Some 23,
        mkGraph (nodes arith_graph ++ [ValueNode (Int32Imm 0)]) (node_users arith_graph))
  ∧ ArithmeticSimplify fold_int32 17 arith_graph
    = Ok (Some 23,
          mkGraph (nodes arith_graph ++ [ValueNode (Int32Imm 0)]) (node_users arith_graph)).
Proof.
  split.
  - apply (scalar_mul_zero_fresh fold_int32 arith_graph 16 2 5 4 5 4); try reflexivity.
    left. split; reflexivity.
  - apply (scalar_mul_zero_fresh fold_int32 arith_graph 17 2 4 5 5 4); try reflexivity.
    right. split; reflexivity.
Defined.

(** C9 at [arith_graph]: [2 * 1] gives the node 2, [x * 1] is left alone,
    and both scalar forms give [x]. *)
Lemma multiply_by_one_at_arith_graph :
  ArithmeticSimplify fold_int32 19 arith_graph = Ok (Some 7, arith_graph)
  ∧ ArithmeticSimplify fold_int32 20 arith_graph = Ok (None, arith_graph)
  ∧ ArithmeticSimplify fold_int32 21 arith_graph = Ok (Some 4, arith_graph)
  ∧ ArithmeticSimplify fold_int32 22 arith_graph = Ok (Some 4, arith_graph).
Proof.
  split_and!.
  - apply (proj1 (multiply_by_one fold_int32 arith_graph 19 1 7 6)); reflexivity.
  - apply (proj1 (multiply_by_one fold_int32 arith_graph 20 1 4 6)); reflexivity.
  - apply (proj1 (proj2 (multiply_by_one fold_int32 arith_graph 21 2 4 6))); reflexivity.
  - apply (proj2 (proj2 (multiply_by_one fold_int32 arith_graph 22 2 4 6))); reflexivity.
Defined.

(** C10 at [twin_graph]: nothing is returned, [z_] is unbound and
    [mul_cnode_] is the second element. *)
Lemma both_elements_at_twin_graph :
  ∃ v', AdjustAllReduceMulAdd 13 (mkPassState fresh_visitor twin_graph)
        = Ok (None, mkPassState v' twin_graph)
        ∧ z_ v' = None ∧ mul_cnode_ v' = Some 11.
Proof.
  apply (both_elements_reduce_mul fresh_visitor twin_graph 13 0 12 1 9 11); reflexivity.
Defined.

(** * Further properties *)

(** ** Sweep 1, rule by rule *)

Section Sweep1_rules.
Variable fold : Value -> Value -> Primitive -> option Value.

#[local] Arguments IsPrimitiveCNode : simpl never.
#[local] Arguments cnode_inputs : simpl never.
#[local] Arguments value_of : simpl never.
#[local] Arguments func_graph_of : simpl never.
#[local] Arguments IsVNode : simpl never.
#[local] Arguments captures : simpl never.

(** X1: on a tensor add of two operands, sweep 1 returns the first operand
    itself when the second is a zero constant (tensor or scalar), and
    nothing otherwise; the store is the one it was. *)
Theorem tensor_add_rule g node op a b :
  cnode_inputs g node = Some [op; a; b] ->
  value_of g op = Some (PrimitiveValue kPrimTensorAdd) ->
  ArithmeticSimplify fold node g
  = Ok ((if captures g zero_ b || captures g zero_scalar_ b then Some a else None), g).
Proof.
  intros Hnode Hop. run_rules.
  destruct (captures g zero_ b) eqn:Hz; destruct (captures g zero_scalar_ b) eqn:Hzs;
    repeat (progress (rewrite ?(IsPrimitiveCNode_eval _ _ _ _ _ _ Hnode Hop),
                        ?Hnode, ?Hz, ?Hzs; cbn)); try done.
  by destruct (func_graph_of g node).
Qed.

(** X2: on a scalar add of two operands, sweep 1 returns the second
    operand when the first is a scalar zero, else the first operand when
    the second is a scalar zero, else nothing; the store is the one it
    was. *)
Theorem scalar_add_rule g node op a b :
  cnode_inputs g node = Some [op; a; b] ->
  value_of g op = Some (PrimitiveValue kPrimScalarAdd) ->
  ArithmeticSimplify fold node g
  = Ok ((if captures g zero_scalar_ a then Some b
         else if captures g zero_scalar_ b then Some a else None), g).
Proof.
  intros Hnode Hop. run_rules.
  destruct (captures g zero_scalar_ a) eqn:Ha; destruct (captures g zero_scalar_ b) eqn:Hb;
    repeat (progress (rewrite ?(IsPrimitiveCNode_eval _ _ _ _ _ _ Hnode Hop),
                        ?Hnode, ?Ha, ?Hb; cbn)); try done.
  by destruct (func_graph_of g node).
Qed.

(** X3: the rules on a scalar multiply of two operands, in their order: a
    scalar one on the left gives the right operand, else a scalar one on
    the right gives the left operand, else a scalar zero on either side
    gives a newly stamped zero literal, else nothing. *)
Theorem scalar_mul_rule g node op a b :
  cnode_inputs g node = Some [op; a; b] ->
  value_of g op = Some (PrimitiveValue kPrimScalarMul) ->
  ArithmeticSimplify fold node g
  = if captures g one_scalar_ a then Ok (Some b, g)
    else if captures g one_scalar_ b then Ok (Some a, g)
    else if captures g zero_scalar_ a || captures g zero_scalar_ b
         then Ok (Some (length (nodes g)),
                  mkGraph (nodes g ++ [ValueNode (Int32Imm 0)]) (node_users g))
         else Ok (None, g).
Proof.
  intros Hnode Hop. run_rules.
  destruct (captures g one_scalar_ a) eqn:Ha1; destruct (captures g one_scalar_ b) eqn:Hb1;
    destruct (captures g zero_scalar_ a) eqn:Ha0;
    destruct (captures g zero_scalar_ b) eqn:Hb0;
    repeat (progress (rewrite ?(IsPrimitiveCNode_eval _ _ _ _ _ _ Hnode Hop),
                        ?Hnode, ?Ha1, ?Hb1, ?Ha0, ?Hb0; cbn)); try done.
  by destruct (func_graph_of g node).
Qed.

(** X4: [identity(x)] is rewritten to the node [x] itself, attached or
    not, and the store is the one it was. *)
Theorem identity_rule g node op x :
  cnode_inputs g node = Some [op; x] ->
  value_of g op = Some (PrimitiveValue kPrimIdentity) ->
  ArithmeticSimplify fold node g = Ok (Some x, g).
Proof.
  intros Hnode Hop. run_rules.
  by repeat (progress (rewrite ?(IsPrimitiveCNode_eval _ _ _ _ _ _ Hnode Hop),
                         ?Hnode; cbn)).
Qed.

(** X5: [pow(x, e)] is rewritten to the node [x] itself exactly when [e]
    is a scalar one and the candidate is attached to a sub-graph; a
    detached [pow(x, 1)] is left alone.  The store is the one it was. *)
Theorem pow_rule g node op x e :
  cnode_inputs g node = Some [op; x; e] ->
  value_of g op = Some (PrimitiveValue kPrimPow) ->
  ArithmeticSimplify fold node g
  = Ok ((if captures g one_scalar_ e
         then match func_graph_of g node with Some _ => Some x | None => None end
         else None), g).
Proof.
  intros Hnode Hop. run_rules.
  destruct (captures g one_scalar_ e) eqn:He;
    destruct (func_graph_of g node) eqn:Hfg;
    by repeat (progress (rewrite ?(IsPrimitiveCNode_eval _ _ _ _ _ _ Hnode Hop),
                           ?Hnode, ?He, ?Hfg; cbn)).
Qed.

(** X6: an attached [Momentum(ZerosLike(x), y, z, xs)] is rewritten to a
    new call [MakeTuple(z, y)] in the candidate's sub-graph, over a newly
    made MakeTuple operator node; a detached one is left alone. *)
Theorem momentum_rule g node op zl zl_op x y z xs :
  cnode_inputs g node = Some [op; zl; y; z; xs] ->
  value_of g op = Some (PrimitiveValue kPrimMomentum) ->
  cnode_inputs g zl = Some [zl_op; x] ->
  value_of g zl_op = Some (PrimitiveValue kPrimZerosLike) ->
  let n := length (nodes g) in
  ArithmeticSimplify fold node g
  = match func_graph_of g node with
    | Some fg =>
        Ok (Some (S n),
            mkGraph (nodes g ++ [ValueNode (PrimitiveValue kPrimMakeTuple);
                                 CNode [n; z; y] (Some fg)])
                    (node_users g))
    | None => Ok (None, g)
    end.
Proof.
  intros Hnode Hop Hzl Hzlop n. run_rules.
  pose proof (cnode_inputs_lt _ _ _ Hnode) as Hlt.
  destruct (func_graph_of g node) as [fg|] eqn:Hfg;
    repeat (progress (rewrite ?(IsPrimitiveCNode_eval _ _ _ _ _ _ Hnode Hop),
                        ?(IsPrimitiveCNode_eval _ _ _ _ _ _ Hzl Hzlop),
                        ?Hnode, ?Hzl, ?Hfg; cbn)); try done.
  unfold GetNode_prim, bind, get, GetNode, ret, NewValueNode, NewCNode. cbn.
  rewrite func_graph_of_app, Hfg by done.
  rewrite length_app, <- app_assoc. cbn. by rewrite Nat.add_1_r.
Qed.

End Sweep1_rules.

(** ** Sweep 1 on every candidate *)

Section Sweep1_frame.
Variable fold : Value -> Value -> Primitive -> option Value.

#[local] Arguments IsPrimitiveCNode : simpl never.
#[local] Arguments cnode_inputs : simpl never.
#[local] Arguments value_of : simpl never.
#[local] Arguments func_graph_of : simpl never.
#[local] Arguments IsVNode : simpl never.
#[local] Arguments captures : simpl never.

Lemma IsPrimitiveCNode_no_operator g p prim :
  (∀ op args q, cnode_inputs g p = Some (op :: args) ->
                value_of g op ≠ Some (PrimitiveValue q)) ->
  IsPrimitiveCNode g p prim = false.
Proof.
  intros H. unfold IsPrimitiveCNode.
  destruct (cnode_inputs g p) as [[|op args]|] eqn:Hp; try done.
  destruct (value_of g op) as [[| |q|]|] eqn:Hop; try done.
  by destruct (H op args q).
Qed.

Lemma built_nothing g node : built_by_rule g node None g.
Proof.
  exists []. unfold appended. rewrite app_nil_r. by split_and!; try (cbn; lia).
Qed.

Lemma built_operand g node ins p :
  cnode_inputs g node = Some ins -> p ∈ drop 1 ins -> built_by_rule g node (Some p) g.
Proof.
  intros Hins Hp. exists []. unfold appended. rewrite app_nil_r.
  split_and!; try done; [cbn; lia|]. intros ? [= <-]. left. eauto.
Qed.

Lemma built_one g node n :
  built_by_rule g node (Some (length (nodes g)))
    (mkGraph (nodes g ++ [n]) (node_users g)).
Proof.
  exists [n]. unfold appended. cbn. split_and!; try done; [lia|].
  intros ? [= <-]. right. split; [done|]. rewrite length_app. cbn. lia.
Qed.

Lemma built_two g node n1 n2 :
  built_by_rule g node (Some (S (length (nodes g))))
    (mkGraph ((nodes g ++ [n1]) ++ [n2]) (node_users g)).
Proof.
  exists [n1; n2]. unfold appended. cbn. rewrite <- app_assoc.
  split_and!; try done.
  intros ? [= <-]. right. split; [done|]. rewrite !length_app. cbn. lia.
Qed.

(** X7: whatever the candidate, sweep 1 changes no node and no user
    record of the store: it returns after appending at most two nodes,
    none when it returns nothing, and the node it returns is an operand of
    the candidate or the last node it built.  Its only fault is on a
    detached Mul call. *)
Theorem sweep1_builds_only g node :
  match ArithmeticSimplify fold node g with
  | Ok (r, g') => built_by_rule g node r g'
  | Fault => func_graph_of g node = None ∧ IsPrimitiveCNode g node kPrimMul = true
  end.
Proof.
  destruct (cnode_inputs g node) as [[|op args]|] eqn:Hnode.
  1,3: run_rules; rewrite !IsPrimitiveCNode_no_operator by (intros ???; congruence); cbn;
       destruct (func_graph_of g node); cbn;
       rewrite ?IsPrimitiveCNode_no_operator by (intros ???; congruence); cbn;
       apply built_nothing.
  destruct (value_of g op) as [v|] eqn:Hop.
  2: { run_rules; rewrite !IsPrimitiveCNode_no_operator by (intros ???; congruence); cbn;
       destruct (func_graph_of g node); cbn;
       rewrite ?IsPrimitiveCNode_no_operator by (intros ???; congruence); cbn;
       apply built_nothing. }
  destruct v as [| |q|].
  1,2,4: run_rules; rewrite !IsPrimitiveCNode_no_operator by (intros ???; congruence); cbn;
       destruct (func_graph_of g node); cbn;
       rewrite ?IsPrimitiveCNode_no_operator by (intros ???; congruence); cbn;
       apply built_nothing.
  pose proof (cnode_inputs_lt _ _ _ Hnode) as Hlt.
  run_rules.
  rewrite !(IsPrimitiveCNode_eval _ _ _ _ _ _ Hnode Hop), ?Hnode.
  unfold const_dup_lambda, MulByPatternConst, GetNode_prim, WithValueOf,
    CheckFunc_IsVNode, NewValue, NewValueNode, NewCNode, bind, get, GetNode,
    GetNode_const, ret, raise.
  destruct q; cbn;
    repeat (first [ progress (rewrite ?cnode_inputs_app, ?func_graph_of_app by done;
                              rewrite ?(IsPrimitiveCNode_eval _ _ _ _ _ _ Hnode Hop), ?Hnode;
                              cbn)
                  | progress (repeat recall); cbn
                  | split_active; cbn ]);
    first [ apply built_nothing
          | eapply built_operand; [eassumption|]; cbn; rewrite ?elem_of_cons; tauto
          | rewrite ?length_app; cbn [length]; rewrite ?Nat.add_1_r; apply built_one
          | rewrite ?length_app; cbn [length]; rewrite ?Nat.add_1_r; apply built_two
          | by split ].
Qed.

(** X8: a candidate that is no call of one of the seven primitives the
    rules are written for (a value, a parameter, a call of a sub-graph or
    of any other primitive) is left alone: nothing is returned and the
    store is the one it was. *)
Theorem sweep1_other_candidates g node :
  existsb (IsPrimitiveCNode g node) sweep1_primitives = false ->
  ArithmeticSimplify fold node g = Ok (None, g).
Proof.
  cbn [existsb sweep1_primitives]. rewrite !orb_false_iff.
  intros (H1 & H2 & H3 & H4 & H5 & H6 & H7 & _). run_rules.
  rewrite H1, H2, H3, H4, H5. cbn.
  destruct (func_graph_of g node); cbn; [|done].
  by rewrite H6, H7.
Qed.

(** X9: the folding rule settles.  After [c1 * (c2 * x)] was rewritten,
    with [x] a node of the store that is no value node, sweep 1 finds
    nothing more to do on the node it returned, whether the constants
    folded or not. *)
Theorem folded_multiply_settles g node mul_op c1 inner mul_op2 c2 x v1 v2 fg :
  cnode_inputs g node = Some [mul_op; c1; inner] ->
  value_of g mul_op = Some (PrimitiveValue kPrimMul) ->
  cnode_inputs g inner = Some [mul_op2; c2; x] ->
  value_of g mul_op2 = Some (PrimitiveValue kPrimMul) ->
  value_of g c1 = Some v1 ->
  value_of g c2 = Some v2 ->
  func_graph_of g node = Some fg ->
  x < length (nodes g) ->
  IsVNode g x = false ->
  ∃ r g', ArithmeticSimplify fold node g = Ok (Some r, g')
          ∧ ArithmeticSimplify fold r g' = Ok (None, g').
Proof.
  intros Hnode Hop Hinner Hop2 Hc1 Hc2 Hfg Hx Hxv.
  pose proof (cnode_inputs_lt _ _ _ Hnode) as Hlt.
  set (n := length (nodes g)).
  set (k := match fold v1 v2 kPrimMul with
            | Some v => ValueNode v
            | None => CNode [mul_op; c1; c2] (Some fg)
            end).
  set (g' := mkGraph (nodes g ++ [k; CNode [mul_op; x; n] (Some fg)]) (node_users g)).
  exists (S n), g'. split.
  { run_rules.
    pose proof (captures_CNode g one_ _ _ Hinner) as Hi1.
    pose proof (captures_value g const_ _ _ Hc1 eq_refl) as Hk1.
    pose proof (captures_value g const_2 _ _ Hc2 eq_refl) as Hk2.
    repeat (progress (rewrite ?(IsPrimitiveCNode_eval _ _ _ _ _ _ Hnode Hop),
                        ?(IsPrimitiveCNode_eval _ _ _ _ _ _ Hinner Hop2),
                        ?Hnode, ?Hinner, ?Hi1, ?Hk1, ?Hk2; cbn)).
    unfold const_dup_lambda, MulByPatternConst, bind, get, GetNode, GetNode_const, ret. cbn.
    rewrite Hc1, Hc2. subst g' k n.
    destruct (fold v1 v2 kPrimMul) as [v|]; cbn.
    - rewrite cnode_inputs_app, func_graph_of_app, Hnode, Hfg by done. cbn.
      rewrite length_app, <- app_assoc. cbn. by rewrite Nat.add_1_r.
    - rewrite Hnode, Hfg. cbn.
      rewrite length_app, <- app_assoc. cbn. by rewrite Nat.add_1_r. }
  assert (node_at g' (S n) = Some (CNode [mul_op; x; n] (Some fg))) as Hr.
  { unfold node_at, g'. cbn [nodes]. rewrite lookup_app_r by (unfold n; lia).
    by replace (S n - length (nodes g)) with 1 by (unfold n; lia). }
  assert (node_at g' n = Some k) as Hk.
  { unfold node_at, g'. cbn [nodes]. rewrite lookup_app_r by (unfold n; lia).
    by replace (n - length (nodes g)) with 0 by (unfold n; lia). }
  assert (∀ p, p < n -> node_at g' p = node_at g p) as Hold.
  { intros p Hp. by apply node_at_app. }
  assert (cnode_inputs g' (S n) = Some [mul_op; x; n]) as Hnode'.
  { unfold cnode_inputs. by rewrite Hr. }
  assert (value_of g' mul_op = Some (PrimitiveValue kPrimMul)) as Hop'.
  { unfold value_of in *. rewrite Hold; [done|].
    unfold node_at in Hop. destruct (nodes g !! mul_op) eqn:Hl; [|done].
    by eapply lookup_lt_Some. }
  assert (IsVNode g' x = false) as Hxv'.
  { unfold IsVNode in *. by rewrite Hold. }
  assert (captures g' const_ x = false) as Hcx.
  { by rewrite captures_any. }
  assert (func_graph_of g' (S n) = Some fg) as Hfg'.
  { unfold func_graph_of. by rewrite Hr. }
  run_rules. unfold CheckFunc_IsVNode, WithValueOf, bind, get, GetNode, ret.
  destruct (captures g' one_ n) eqn:Ho;
    repeat (progress (rewrite ?(IsPrimitiveCNode_eval _ _ _ _ _ _ Hnode' Hop'),
                        ?Hnode', ?Ho, ?Hxv', ?Hcx, ?Hfg'; cbn)); done.
Qed.

End Sweep1_frame.

(** ** Sweep 2 *)

Section Sweep2.
Variable new_constant : AnfNodePtr -> Z -> M Graph (option AnfNodePtr).

#[local] Arguments IsPrimitiveCNode : simpl never.
#[local] Arguments cnode_inputs : simpl never.
#[local] Arguments value_of : simpl never.
#[local] Arguments captures : simpl never.

(** X10: sweep 2 rewrites [x * 0], the zero a tensor or scalar constant in
    the second place, to that zero operand itself: no node is built and
    the store is the one it was. *)
Theorem mul_zero_rule g node op x zn :
  cnode_inputs g node = Some [op; x; zn] ->
  value_of g op = Some (PrimitiveValue kPrimMul) ->
  captures g zero_ zn = true ->
  ArithmeticSimplify2 new_constant node g = Ok (Some zn, g).
Proof.
  intros Hnode Hop Hz. run_rules2.
  by repeat (progress (rewrite ?(IsPrimitiveCNode_eval _ _ _ _ _ _ Hnode Hop),
                         ?Hnode, ?Hz; cbn)).
Qed.

(** X11: on [x * ZerosLike(y)] sweep 2 holds no captured zero: what it
    returns, and the store it leaves, is what the constant maker makes of
    the literal 0 for the candidate, and nothing when that makes
    nothing. *)
Theorem mul_zeros_like_rule g node op x zl zl_op y :
  cnode_inputs g node = Some [op; x; zl] ->
  value_of g op = Some (PrimitiveValue kPrimMul) ->
  cnode_inputs g zl = Some [zl_op; y] ->
  value_of g zl_op = Some (PrimitiveValue kPrimZerosLike) ->
  ArithmeticSimplify2 new_constant node g = new_constant node 0%Z g.
Proof.
  intros Hnode Hop Hzl Hzlop. run_rules2.
  pose proof (captures_CNode g zero_ _ _ Hzl) as Hz.
  repeat (progress (rewrite ?(IsPrimitiveCNode_eval _ _ _ _ _ _ Hnode Hop),
                      ?(IsPrimitiveCNode_eval _ _ _ _ _ _ Hzl Hzlop),
                      ?Hnode, ?Hzl, ?Hz; cbn)).
  unfold bind, ret. by destruct (new_constant node 0%Z g) as [[[n|] g']|].
Qed.

(** X12: sweep 2 looks at the second operand of a Mul only.  A candidate
    that is no Mul call of two operands, or whose second operand is
    neither a zero constant nor a ZerosLike call, is left alone, whatever
    its first operand: [0 * x] is not rewritten. *)
Theorem sweep2_other_candidates g node :
  (∀ op a b, cnode_inputs g node = Some [op; a; b] ->
             value_of g op = Some (PrimitiveValue kPrimMul) ->
             captures g zero_ b = false ∧ IsPrimitiveCNode g b kPrimZerosLike = false) ->
  ArithmeticSimplify2 new_constant node g = Ok (None, g).
Proof.
  intros H. run_rules2.
  destruct (IsPrimitiveCNode g node kPrimMul) eqn:Hp; [|done].
  destruct (IsPrimitiveCNode_inputs _ _ _ Hp) as (op & rest & Hnode & Hop).
  rewrite Hnode. destruct rest as [|a [|b [|c rest]]]; try done.
  destruct (H _ _ _ Hnode Hop) as [Hz Hzl]. by rewrite Hz, Hzl.
Qed.

End Sweep2.

(** ** The reassociation pass on every candidate *)

Section Pass_facts.

(** X13: [Visit] always returns.  Two nested activations are all it ever
    needs (allowing more changes nothing), it leaves the graph as it was,
    and it leaves the level counter at the value it found. *)
Theorem Visit_restores_level d node s :
  ∃ v, Visit 2 node s = Ok (tt, mkPassState v (graph s))
       ∧ Visit (S (S d)) node s = Visit 2 node s
       ∧ level_ v = level_ (self s).
Proof.
  enough (∃ v, Visit 2 node s = Ok (tt, mkPassState v (graph s))
               ∧ level_ v = level_ (self s)) as (v & ? & ?).
  { exists v. split_and!; try done. apply Visit_depth. }
  destruct (decide (level_ (self s) = 0)) as [H0|H0].
  { rewrite Visit_level0 by done. eexists. split; [done|].
    by rewrite visit_element_level. }
  destruct (decide (level_ (self s) = 1)) as [H1|H1].
  { rewrite Visit_at_level1, Visit_level1_eq by done. eexists. split; [done|].
    by rewrite level1_step_level. }
  rewrite Visit_other_level by done. exists (self s). by rewrite PassState_eta.
Qed.

Lemma same_bindings_Reset v v' : same_bindings (Reset v) (Reset v').
Proof.
  unfold same_bindings. cbn. split_and!; try done; by intros [? [=]].
Qed.

Lemma same_bindings_level1_step g n v v' :
  same_bindings v v' -> same_bindings (level1_step g n v) (level1_step g n v').
Proof.
  unfold level1_step. destruct (IsPrimitiveCNode g n kPrimAllReduce).
  - destruct (cnode_inputs g n) as [[|op [|x rest]]|]; try done.
    destruct v, v'. unfold same_bindings. cbn. intros (? & ? & ? & ? & ? & ? & ? & ? & ?).
    by split_and!.
  - destruct v, v'. unfold same_bindings. cbn. intros (? & ? & ? & ? & ? & ? & ? & ? & ?).
    by split_and!.
Qed.

Lemma same_bindings_fold_level1 g inputs v v' :
  same_bindings v v' ->
  same_bindings (fold_left (fun w n => level1_step g n w) inputs v)
                (fold_left (fun w n => level1_step g n w) inputs v').
Proof.
  revert v v'. induction inputs as [|n inputs IH]; intros v v' H; cbn [fold_left]; [done|].
  by apply IH, same_bindings_level1_step.
Qed.

Lemma same_bindings_visit_element g e v v' :
  same_bindings v v' -> same_bindings (visit_element g e v) (visit_element g e v').
Proof.
  intros H. unfold visit_element. cbv zeta.
  assert (same_bindings (set_is_reduce_match_ false (set_level_ 1 v))
                        (set_is_reduce_match_ false (set_level_ 1 v'))) as H1.
  { destruct v, v'. unfold same_bindings in *. cbn in *. by destruct_and!. }
  set (v2 := if IsPrimitiveCNode g e kPrimMul then _ else _).
  set (v2' := if IsPrimitiveCNode g e kPrimMul then _ else _).
  assert (same_bindings v2 v2') as H2.
  { subst v2 v2'. destruct (IsPrimitiveCNode g e kPrimMul); [|done].
    destruct (cnode_inputs g e); [|done]. by apply same_bindings_fold_level1. }
  clearbody v2 v2'. clear H H1.
  destruct v2, v2'. unfold same_bindings in H2. cbn in H2.
  destruct H2 as (? & ? & ? & ? & ? & ? & ? & ? & ?). simplify_eq. cbn.
  match goal with |- context [if ?b then _ else _] => destruct b end.
  - destruct (cnode_inputs g e) as [[|op rest]|]; unfold same_bindings; cbn;
      split_and!; try done; eauto.
  - unfold same_bindings; cbn. by split_and!.
Qed.

Lemma same_bindings_match_tuple g mt v v' :
  same_bindings v v' -> same_bindings (match_tuple g mt v) (match_tuple g mt v').
Proof.
  intros H. unfold match_tuple. destruct (IsPrimitiveCNode g mt kPrimMakeTuple); [|done].
  destruct (cnode_inputs g mt) as [[|? [|e1 [|e2 [|? ?]]]]|]; try done.
  by do 2 apply same_bindings_visit_element.
Qed.

Lemma operands_only_refl g : operands_only g g.
Proof.
  intros p. destruct (node_at g p) as [[ins fg| |]|]; eauto.
Qed.

Lemma operands_only_trans g1 g2 g3 :
  operands_only g1 g2 -> operands_only g2 g3 -> operands_only g1 g3.
Proof.
  intros H12 H23 p. specialize (H12 p). specialize (H23 p).
  destruct (node_at g1 p) as [[ins fg| |]|]; try done.
  - destruct H12 as (ins2 & H2 & Hl2). rewrite H2 in H23.
    destruct H23 as (ins3 & H3 & Hl3). exists ins3. split; [done|]. congruence.
  - by rewrite H12 in H23.
  - by rewrite H12 in H23.
Qed.

Lemma operands_only_app g news users g' :
  operands_only (mkGraph (nodes g ++ news) users) g' -> operands_only g g'.
Proof.
  intros H p. specialize (H p).
  destruct (node_at g p) as [n|] eqn:Hp; [|done].
  assert (p < length (nodes g)) as Hlt by by (eapply lookup_lt_Some).
  rewrite node_at_app, Hp in H by done. done.
Qed.

Lemma operands_only_SetEdge c i new g g' :
  SetEdge c i new g = Ok (tt, g') ->
  operands_only g g' ∧ length (nodes g') = length (nodes g) ∧ is_Some (node_users g').
Proof.
  unfold SetEdge. destruct (node_users g) as [users|] eqn:Hmgr; [|done].
  destruct (node_at g c) as [[ins fg| |]|] eqn:Hc;
    intros [= <-]; try (split_and!; [apply operands_only_refl|done|by rewrite Hmgr]).
  cbn [nodes node_users]. split_and!; [|apply length_insert|done].
  intros p. destruct (decide (p = c)) as [->|Hp].
  - rewrite Hc. exists (<[i := new]> ins). split; [|apply length_insert].
    unfold node_at. cbn [nodes]. apply list_lookup_insert_eq.
    by eapply lookup_lt_Some.
  - unfold node_at. cbn [nodes]. rewrite list_lookup_insert_ne by done.
    destruct (nodes g !! p) as [[insp fgp| |]|]; eauto.
Qed.

(** The loop of [ProcessDependEdge] over any user list, on any store that
    has a manager. *)
Lemma ProcessDependEdge_loop_any mt new U :
  ∀ g, is_Some (node_users g) ->
       ∃ g', (∀ v, for_each U (ProcessDependEdge_user mt new) (mkPassState v g)
                   = Ok (tt, mkPassState v g'))
             ∧ operands_only g g'
             ∧ length (nodes g') = length (nodes g).
Proof.
  induction U as [|[c i] U IH]; intros g Hmgr.
  { exists g. split; [done|]. split; [apply operands_only_refl|done]. }
  assert (∃ g1, (∀ v, ProcessDependEdge_user mt new (c, i) (mkPassState v g)
                      = Ok (tt, mkPassState v g1))
                ∧ operands_only g g1 ∧ length (nodes g1) = length (nodes g)
                ∧ is_Some (node_users g1))
    as (g1 & Hstep & Hop1 & Hl1 & Hmgr1).
  { unfold ProcessDependEdge_user. cbn [fst snd].
    case_bool_decide;
      [|exists g; split; [done|]; split_and!; [apply operands_only_refl|done..]].
    unfold bind, get. cbn [graph].
    destruct (IsPrimitiveCNode g c kPrimMakeTuple);
      [|exists g; split; [done|]; split_and!; [apply operands_only_refl|done..]].
    unfold on_graph. cbn [graph self].
    destruct (SetEdge c i new g) as [[[] g1]|] eqn:Hset.
    - exists g1. split; [done|]. by apply operands_only_SetEdge in Hset.
    - unfold SetEdge in Hset. destruct Hmgr as [users Hmgr]. rewrite Hmgr in Hset.
      by destruct (node_at g c) as [[]|]. }
  destruct (IH g1 Hmgr1) as (g' & Hloop & Hop' & Hl').
  exists g'. split_and!.
  - intros v. cbn [for_each]. unfold bind at 1. by rewrite Hstep.
  - by eapply operands_only_trans.
  - congruence.
Qed.

(** [ProcessDependEdge] on any store: with a manager it returns, without
    one it faults. *)
Lemma ProcessDependEdge_any mt new g mc :
  match node_users g with
  | Some _ =>
      ∃ g', (∀ v, mul_cnode_ v = mc ->
                  ProcessDependEdge mt new (mkPassState v g) = Ok (tt, mkPassState v g'))
            ∧ operands_only g g'
            ∧ length (nodes g') = length (nodes g)
  | None => ∀ v, ProcessDependEdge mt new (mkPassState v g) = Fault
  end.
Proof.
  destruct (node_users g) as [users|] eqn:Hmgr.
  - destruct mc as [m|].
    + destruct (users !! m) as [U|] eqn:HU.
      * destruct (ProcessDependEdge_loop_any mt new U g) as (g' & Hloop & ? & ?);
          [by rewrite Hmgr|].
        exists g'. split_and!; try done. intros v Hv.
        unfold ProcessDependEdge, bind, get. cbn [self graph]. by rewrite Hmgr, Hv, HU.
      * exists g. split_and!; [|apply operands_only_refl|done]. intros v Hv.
        unfold ProcessDependEdge, bind, get. cbn [self graph]. by rewrite Hmgr, Hv, HU.
    + exists g. split_and!; [|apply operands_only_refl|done]. intros v Hv.
      unfold ProcessDependEdge, bind, get. cbn [self graph]. by rewrite Hmgr, Hv.
  - intros v. unfold ProcessDependEdge, bind, get. cbn [self graph]. by rewrite Hmgr.
Qed.

Lemma rehomed_length g z fg : length (rehomed g z fg) ≤ 1.
Proof.
  unfold rehomed. destruct (crosses_graph g z fg); [|cbn; lia].
  destruct (cnode_inputs g z); cbn; lia.
Qed.

Lemma rewritten_length g a mt_op ar_op mul_op x y z fg :
  length (rewritten g a mt_op ar_op mul_op x y z fg) = length (rehomed g z fg) + 4.
Proof. unfold rewritten. rewrite length_app. done. Qed.

Lemma pass_outcome_declined g : pass_outcome g None g.
Proof.
  unfold pass_outcome.
  split_and!; try done; try lia; try apply operands_only_refl.
Qed.

(** Lines 99-119 from two visitors that hold the same bindings: both
    return the same node in the same store, or, an accepted candidate with
    no manager, both fault. *)
Lemma rewrite_AddN_any a mt g v1 v1' :
  same_bindings v1 v1' ->
  (is_Some (x_ v1) -> ∃ op rest, cnode_inputs g mt = Some (op :: rest)) ->
  (∃ r g', (∃ w, rewrite_AddN a mt (mkPassState v1 g) = Ok (r, mkPassState w g'))
           ∧ (∃ w', rewrite_AddN a mt (mkPassState v1' g) = Ok (r, mkPassState w' g'))
           ∧ pass_outcome g r g')
  ∨ (node_users g = None
     ∧ rewrite_AddN a mt (mkPassState v1 g) = Fault
     ∧ rewrite_AddN a mt (mkPassState v1' g) = Fault).
Proof.
  intros (_ & _ & Hx & Hy & Hz & _ & Hfg & Har & Hmul) Hmt.
  destruct (decide (unbound v1)) as [Hu|Hb].
  { assert (unbound v1') as Hu'.
    { unfold unbound in *. by rewrite <- Hx, <- Hy, <- Hz, <- Hfg. }
    left. exists None, g. split_and!; [| |apply pass_outcome_declined].
    - exists v1. by apply (rewrite_AddN_unbound a mt (mkPassState v1 g)).
    - exists v1'. by apply (rewrite_AddN_unbound a mt (mkPassState v1' g)). }
  unfold unbound in Hb.
  destruct (x_ v1) as [x|] eqn:Ex; [|tauto].
  destruct (y_ v1) as [y|] eqn:Ey; [|tauto].
  destruct (z_ v1) as [z|] eqn:Ez; [|tauto].
  destruct (all_reduce_fg_ v1) as [fg|] eqn:Efg; [|tauto].
  destruct Har as [[ar_op Ear] Ear']; [done|].
  destruct Hmul as ([mul_op Emul] & Emul' & Emc); [done|].
  destruct Hmt as (mt_op & mt_rest & Emt); [done|].
  rewrite Ear in Ear'. rewrite Emul in Emul'.
  destruct (rewrite_AddN_build a mt mt_op mt_rest v1 g x y z fg ar_op mul_op)
    as (v2 & Hv2 & ->); try done.
  destruct (rewrite_AddN_build a mt mt_op mt_rest v1' g x y z fg ar_op mul_op)
    as (v2' & Hv2' & ->); try done.
  set (k := length (nodes g) + length (rehomed g z fg)).
  set (g1 := mkGraph _ _).
  pose proof (ProcessDependEdge_any mt (S (S k)) g1 (mul_cnode_ v1)) as Hpde.
  change (node_users g1) with (node_users g) in Hpde.
  destruct (node_users g) as [users|] eqn:Hmgr.
  - destruct Hpde as (g' & Hrun & Hop & Hlen).
    pose proof (rehomed_length g z fg) as Hre.
    assert (length (nodes g1) = S (S (S (S k)))) as Hl1.
    { unfold g1, k. cbn [nodes]. rewrite length_app, rewritten_length. lia. }
    left. exists (Some (S (S (S k)))), g'. split_and!.
    + exists v2. unfold bind. by rewrite Hrun.
    + exists v2'. unfold bind. rewrite Hrun; [done|]. congruence.
    + unfold pass_outcome. split_and!; try done.
      * by eapply operands_only_app.
      * unfold k in *. lia.
      * unfold k in *. lia.
      * intros p [= <-]. congruence.
  - right. split; [done|]. unfold bind. by rewrite !Hpde.
Qed.

(** Lines 88-120 from two visitors, whatever earlier calls left in them. *)
Lemma AdjustAllReduceMulAdd_any node g v v' :
  (∃ r g', (∃ w, AdjustAllReduceMulAdd node (mkPassState v g) = Ok (r, mkPassState w g'))
           ∧ (∃ w', AdjustAllReduceMulAdd node (mkPassState v' g)
                    = Ok (r, mkPassState w' g'))
           ∧ pass_outcome g r g')
  ∨ (node_users g = None
     ∧ AdjustAllReduceMulAdd node (mkPassState v g) = Fault
     ∧ AdjustAllReduceMulAdd node (mkPassState v' g) = Fault).
Proof.
  unfold AdjustAllReduceMulAdd, bind. rewrite !match_AddN_eq. cbv zeta. cbn [self graph].
  assert (∀ w w',
            (∃ r g', (∃ w0, Ok (None, mkPassState w g) = Ok (r, mkPassState w0 g'))
                     ∧ (∃ w0, Ok (None, mkPassState w' g) = Ok (r, mkPassState w0 g'))
                     ∧ pass_outcome g r g')
            ∨ (node_users g = None
               ∧ @Ok (option nat * PassState) (None, mkPassState w g) = Fault
               ∧ @Ok (option nat * PassState) (None, mkPassState w' g) = Fault))
    as Hdecline.
  { intros w w'. left. exists None, g.
    split_and!; [by eexists..|apply pass_outcome_declined]. }
  destruct (IsPrimitiveCNode g node kPrimAddN); [|apply Hdecline].
  destruct (cnode_inputs g node) as [[|a [|mt [|? ?]]]|]; try apply Hdecline.
  apply rewrite_AddN_any.
  - apply same_bindings_match_tuple, same_bindings_Reset.
  - unfold match_tuple.
    destruct (IsPrimitiveCNode g mt kPrimMakeTuple) eqn:Hp; [|by intros [? [=]]].
    intros _. destruct (IsPrimitiveCNode_inputs _ _ _ Hp) as (op & rest & ? & _). eauto.
Qed.


(** X15: [Reset] leaves [all_reduce_], [mul_] and [mul_cnode_] as the last
    call set them, and still the outcome of the pass does not depend on
    the visitor it starts from: from any two visitors it returns the same
    node and leaves the same store, or, on a candidate it accepts with no
    manager, it faults from both. *)
Theorem pass_ignores_stale_fields node g v v' :
  (∃ r g', (∃ w, AdjustAllReduceMulAdd node (mkPassState v g) = Ok (r, mkPassState w g'))
           ∧ (∃ w', AdjustAllReduceMulAdd node (mkPassState v' g)
                    = Ok (r, mkPassState w' g')))
  ∨ (AdjustAllReduceMulAdd node (mkPassState v g) = Fault
     ∧ AdjustAllReduceMulAdd node (mkPassState v' g) = Fault).
Proof.
  destruct (AdjustAllReduceMulAdd_any node g v v')
    as [(r & g' & Hv & Hv' & _)|(_ & Hv & Hv')]; [left|right]; eauto.
Qed.

(** Line 91 alone: a candidate that is no AddN call. *)
Lemma not_AddN_declined node v g :
  IsPrimitiveCNode g node kPrimAddN = false ->
  AdjustAllReduceMulAdd node (mkPassState v g) = Ok (None, mkPassState (Reset v) g).
Proof.
  intros H. unfold AdjustAllReduceMulAdd, bind. rewrite match_AddN_eq. cbv zeta.
  cbn [self graph]. by rewrite H.
Qed.

(** X16: a candidate that is not a call [AddN(MakeTuple(_, _))] is
    declined before anything is visited: the pass returns nothing, the
    store is the one it was, and the visitor is the one [Reset] makes. *)
Theorem pass_declines_other_candidates node v g :
  addn_of_pair g node = false ->
  AdjustAllReduceMulAdd node (mkPassState v g) = Ok (None, mkPassState (Reset v) g).
Proof.
  unfold addn_of_pair. intros H.
  unfold AdjustAllReduceMulAdd, bind. rewrite match_AddN_eq. cbv zeta. cbn [self graph].
  destruct (IsPrimitiveCNode g node kPrimAddN); [|done]. cbn [andb] in H.
  destruct (cnode_inputs g node) as [[|a [|mt [|? ?]]]|]; try done.
  assert (match_tuple g mt (Reset v) = Reset v) as ->.
  { unfold match_tuple. destruct (IsPrimitiveCNode g mt kPrimMakeTuple); [|done].
    cbn [andb] in H. by destruct (cnode_inputs g mt) as [[|? [|? [|? [|? ?]]]]|]. }
  apply (rewrite_AddN_unbound a mt (mkPassState (Reset v) g)). by left.
Qed.

End Pass_facts.

(** ** The accepted rewrite, the tuple in either order *)

Section Either_order.

(** The element [Mul(a1, a2)], one of [a1], [a2] the call [AllReduce(x)]
    and the other a node [y] that is no AllReduce call: level 1 records
    the same bindings for both orders. *)
Lemma visit_element_reduce_mul_any g m mul_op a1 a2 ar y ar_op x v :
  cnode_inputs g m = Some [mul_op; a1; a2] ->
  (a1 = ar ∧ a2 = y) ∨ (a1 = y ∧ a2 = ar) ->
  value_of g mul_op = Some (PrimitiveValue kPrimMul) ->
  cnode_inputs g ar = Some [ar_op; x] ->
  value_of g ar_op = Some (PrimitiveValue kPrimAllReduce) ->
  IsPrimitiveCNode g y kPrimAllReduce = false ->
  visit_element g m v
  = mkVisitor 0 true (Some x) (Some y) (z_ v) (Some y) (func_graph_of g ar)
              (Some ar_op) (Some mul_op) (Some m).
Proof.
  intros Hm [[-> ->]|[-> ->]] Hmul Har Harop Hy.
  { by eapply visit_element_reduce_mul. }
  unfold visit_element. cbv zeta.
  rewrite (IsPrimitiveCNode_intro _ _ _ _ _ kPrimMul Hm Hmul), Hm.
  rewrite bool_decide_eq_true_2 by done.
  cbn [drop fold_left]. unfold level1_step. rewrite Hy.
  rewrite (IsPrimitiveCNode_intro _ _ _ _ _ kPrimAllReduce Har Harop), Har.
  by rewrite bool_decide_eq_true_2.
Qed.

(** The match and the build on [AddN(MakeTuple(e1, e2))], one of [e1],
    [e2] the reduce-mul [m] and the other the decay term [z]; the
    AllReduce call is either operand of [m]. *)
Lemma AdjustAllReduceMulAdd_build
    v g node addn_op mt mt_op e1 e2 m mul_op a1 a2 ar ar_op x y z fg :
  cnode_inputs g node = Some [addn_op; mt] ->
  value_of g addn_op = Some (PrimitiveValue kPrimAddN) ->
  cnode_inputs g mt = Some [mt_op; e1; e2] ->
  value_of g mt_op = Some (PrimitiveValue kPrimMakeTuple) ->
  (e1 = m ∧ e2 = z) ∨ (e1 = z ∧ e2 = m) ->
  cnode_inputs g m = Some [mul_op; a1; a2] ->
  (a1 = ar ∧ a2 = y) ∨ (a1 = y ∧ a2 = ar) ->
  value_of g mul_op = Some (PrimitiveValue kPrimMul) ->
  cnode_inputs g ar = Some [ar_op; x] ->
  value_of g ar_op = Some (PrimitiveValue kPrimAllReduce) ->
  func_graph_of g ar = Some fg ->
  IsPrimitiveCNode g y kPrimAllReduce = false ->
  reduce_mul g z = false ->
  let k := length (nodes g) + length (rehomed g z fg) in
  let g1 := mkGraph (nodes g ++ rewritten g addn_op mt_op ar_op mul_op x y z fg)
                    (node_users g) in
  ∃ v2, mul_cnode_ v2 = Some m
        ∧ AdjustAllReduceMulAdd node (mkPassState v g)
          = (ProcessDependEdge mt (S (S k)) ;; ret (Some (S (S (S k)))))
              (mkPassState v2 g1).
Proof.
  intros Hnode Haddn Hmt Hmtop Horder Hm Hpos Hmul Har Harop Hfg Hy Hz k g1.
  pose proof (λ w, visit_element_reduce_mul_any g m mul_op a1 a2 ar y ar_op x w
                     Hm Hpos Hmul Har Harop Hy) as Hvisit.
  unfold AdjustAllReduceMulAdd. unfold bind at 1. rewrite match_AddN_eq.
  cbv zeta. cbn [self graph].
  rewrite (IsPrimitiveCNode_intro _ _ _ _ _ kPrimAddN Hnode Haddn), Hnode.
  rewrite bool_decide_eq_true_2 by done.
  unfold match_tuple.
  rewrite (IsPrimitiveCNode_intro _ _ _ _ _ kPrimMakeTuple Hmt Hmtop), Hmt.
  rewrite bool_decide_eq_true_2 by done.
  destruct Horder as [[-> ->]|[-> ->]].
  - rewrite Hvisit, Hfg.
    rewrite (visit_element_not_reduce _ _ _ Hz).
    cbn [x_ y_ z_ all_reduce_fg_ all_reduce_ mul_ mul_cnode_ Reset].
    match goal with |- context [mkPassState ?w g] => set (v1 := w) end.
    destruct (rewrite_AddN_build addn_op mt mt_op [m; z] v1 g x y z fg ar_op mul_op)
      as (v2 & Hv2 & ->); try done.
    by exists v2.
  - rewrite Hvisit, Hfg.
    rewrite (visit_element_not_reduce _ _ _ Hz).
    cbn [x_ y_ z_ all_reduce_fg_ all_reduce_ mul_ mul_cnode_ Reset].
    match goal with |- context [mkPassState ?w g] => set (v1 := w) end.
    destruct (rewrite_AddN_build addn_op mt mt_op [z; m] v1 g x y z fg ar_op mul_op)
      as (v2 & Hv2 & ->); try done.
    by exists v2.
Qed.

(** The accepted candidate, the tuple in either order: the pass returns the
    new Mul, having appended the new nodes and run the edge repair over
    the users of the old Mul. *)
Lemma AdjustAllReduceMulAdd_accept_either
    v g node addn_op mt mt_op e1 e2 m mul_op a1 a2 ar ar_op x y z fg :
  cnode_inputs g node = Some [addn_op; mt] ->
  value_of g addn_op = Some (PrimitiveValue kPrimAddN) ->
  cnode_inputs g mt = Some [mt_op; e1; e2] ->
  value_of g mt_op = Some (PrimitiveValue kPrimMakeTuple) ->
  (e1 = m ∧ e2 = z) ∨ (e1 = z ∧ e2 = m) ->
  cnode_inputs g m = Some [mul_op; a1; a2] ->
  (a1 = ar ∧ a2 = y) ∨ (a1 = y ∧ a2 = ar) ->
  value_of g mul_op = Some (PrimitiveValue kPrimMul) ->
  cnode_inputs g ar = Some [ar_op; x] ->
  value_of g ar_op = Some (PrimitiveValue kPrimAllReduce) ->
  func_graph_of g ar = Some fg ->
  IsPrimitiveCNode g y kPrimAllReduce = false ->
  reduce_mul g z = false ->
  users_recorded g m = true ->
  let k := length (nodes g) + length (rehomed g z fg) in
  let g1 := mkGraph (nodes g ++ rewritten g addn_op mt_op ar_op mul_op x y z fg)
                    (node_users g) in
  ∃ v' g', AdjustAllReduceMulAdd node (mkPassState v g)
           = Ok (Some (S (S (S k))), mkPassState v' g')
           ∧ repointed (users_of g m) mt (S (S k)) g1 g'
           ∧ recorded (users_of g m) mt (S (S k)) g1 g'.
Proof.
  intros Hnode Haddn Hmt Hmtop Horder Hm Hpos Hmul Har Harop Hfg Hy Hz Hrec k g1.
  destruct (AdjustAllReduceMulAdd_build v g node addn_op mt mt_op e1 e2 m mul_op a1 a2
              ar ar_op x y z fg) as (v2 & Hv2 & ->); try done.
  fold k. fold g1.
  destruct (users_recorded_manager _ _ Hrec) as (users & Hmgr).
  unfold bind at 1. unfold ProcessDependEdge. unfold bind at 1, get at 1.
  cbn [self graph]. rewrite Hv2. cbn [node_users g1]. rewrite Hmgr.
  assert (∀ c i, (c, i) ∈ users_of g m ->
                 IsPrimitiveCNode g1 c kPrimMakeTuple = true -> i ≠ 0) as HU.
  { intros c i Hin Hprim ->.
    destruct (users_recorded_elem _ _ _ _ Hrec Hin) as (ins & Hins & Hi).
    unfold g1 in Hprim.
    rewrite IsPrimitiveCNode_app in Hprim
      by eauto using rewritten_CNodes, cnode_inputs_lt.
    destruct (IsPrimitiveCNode_inputs _ _ _ Hprim) as (op & rest & Hins' & Hop).
    rewrite Hins in Hins'. injection Hins' as ->. injection Hi as ->.
    unfold value_of in Hop. unfold cnode_inputs in Hm.
    by destruct (node_at g m) as [[]|]. }
  unfold users_of in *. rewrite Hmgr in *.
  destruct (users !! m) as [U|] eqn:HUm; cbn [default] in *.
  - destruct (ProcessDependEdge_loop mt (S (S k)) U v2 g1) as (g' & -> & Hrep & Hrec');
      [unfold g1; cbn [node_users]; by rewrite Hmgr|done|].
    by exists v2, g'.
  - exists v2, g1. split; [done|]. split; [apply repointed_nil|].
    split; [done|]. intros c i Hin. by apply elem_of_nil in Hin.
Qed.

(** X17: the order of the tuple's two elements does not matter.  On
    [AddN(MakeTuple(z, Mul(AllReduce(x), y)))], the decay term first, the
    pass returns the new Mul over the same four or five new nodes as for
    the other order, and repairs the edges of the other MakeTuple users of
    the old Mul. *)
Theorem reassociation_tuple_swapped
    v g node addn_op mt mt_op m mul_op ar ar_op x y z fg :
  cnode_inputs g node = Some [addn_op; mt] ->
  value_of g addn_op = Some (PrimitiveValue kPrimAddN) ->
  cnode_inputs g mt = Some [mt_op; z; m] ->
  value_of g mt_op = Some (PrimitiveValue kPrimMakeTuple) ->
  cnode_inputs g m = Some [mul_op; ar; y] ->
  value_of g mul_op = Some (PrimitiveValue kPrimMul) ->
  cnode_inputs g ar = Some [ar_op; x] ->
  value_of g ar_op = Some (PrimitiveValue kPrimAllReduce) ->
  func_graph_of g ar = Some fg ->
  IsPrimitiveCNode g y kPrimAllReduce = false ->
  reduce_mul g z = false ->
  users_recorded g m = true ->
  let k := length (nodes g) + length (rehomed g z fg) in
  let g1 := mkGraph (nodes g ++ rewritten g addn_op mt_op ar_op mul_op x y z fg)
                    (node_users g) in
  ∃ v' g', AdjustAllReduceMulAdd node (mkPassState v g)
           = Ok (Some (S (S (S k))), mkPassState v' g')
           ∧ repointed (users_of g m) mt (S (S k)) g1 g'
           ∧ recorded (users_of g m) mt (S (S k)) g1 g'.
Proof.
  intros Hnode Haddn Hmt Hmtop Hm Hmul Har Harop Hfg Hy Hz Hrec.
  apply (AdjustAllReduceMulAdd_accept_either v g node addn_op mt mt_op z m m mul_op
           ar y ar ar_op x y z fg); try done; [by right|by left].
Qed.

(** X20: the accepted rewrite, the tuple in either order, leaves the
    matched nodes in place: every node of the old store that is the
    matched MakeTuple or is no MakeTuple call (the candidate AddN, the old
    Mul and the old AllReduce among them) is what it was.  Replacing the
    candidate is left to the caller. *)
Theorem matched_nodes_kept
    v g node addn_op mt mt_op e1 e2 m mul_op ar ar_op x y z fg p :
  cnode_inputs g node = Some [addn_op; mt] ->
  value_of g addn_op = Some (PrimitiveValue kPrimAddN) ->
  cnode_inputs g mt = Some [mt_op; e1; e2] ->
  value_of g mt_op = Some (PrimitiveValue kPrimMakeTuple) ->
  (e1 = m ∧ e2 = z) ∨ (e1 = z ∧ e2 = m) ->
  cnode_inputs g m = Some [mul_op; ar; y] ->
  value_of g mul_op = Some (PrimitiveValue kPrimMul) ->
  cnode_inputs g ar = Some [ar_op; x] ->
  value_of g ar_op = Some (PrimitiveValue kPrimAllReduce) ->
  func_graph_of g ar = Some fg ->
  IsPrimitiveCNode g y kPrimAllReduce = false ->
  reduce_mul g z = false ->
  users_recorded g m = true ->
  p < length (nodes g) ->
  p = mt ∨ IsPrimitiveCNode g p kPrimMakeTuple = false ->
  ∃ r v' g', AdjustAllReduceMulAdd node (mkPassState v g) = Ok (Some r, mkPassState v' g')
             ∧ node_at g' p = node_at g p.
Proof.
  intros Hnode Haddn Hmt Hmtop Horder Hm Hmul Har Harop Hfg Hy Hz Hrec Hp Hkeep.
  destruct (AdjustAllReduceMulAdd_accept_either v g node addn_op mt mt_op e1 e2 m mul_op
              ar y ar ar_op x y z fg) as (v' & g' & Hrun & Hrep & _); try done; [by left|].
  eexists _, v', g'. split; [exact Hrun|].
  rewrite (repointed_unchanged _ _ _ _ _ p Hrep).
  - by rewrite node_at_app.
  - intros j _. rewrite IsPrimitiveCNode_app by eauto using rewritten_CNodes. done.
Qed.

(** X23: the rewrite settles.  The node the accepted rewrite returns is a
    Mul call, and in the graph the rewrite leaves, edges repaired, the
    pass declines it: run again on its own result it returns nothing and
    changes nothing, whatever the visitor holds. *)
Theorem rewrite_settles
    v g node addn_op mt mt_op e1 e2 m mul_op ar ar_op x y z fg :
  cnode_inputs g node = Some [addn_op; mt] ->
  value_of g addn_op = Some (PrimitiveValue kPrimAddN) ->
  cnode_inputs g mt = Some [mt_op; e1; e2] ->
  value_of g mt_op = Some (PrimitiveValue kPrimMakeTuple) ->
  (e1 = m ∧ e2 = z) ∨ (e1 = z ∧ e2 = m) ->
  cnode_inputs g m = Some [mul_op; ar; y] ->
  value_of g mul_op = Some (PrimitiveValue kPrimMul) ->
  cnode_inputs g ar = Some [ar_op; x] ->
  value_of g ar_op = Some (PrimitiveValue kPrimAllReduce) ->
  func_graph_of g ar = Some fg ->
  IsPrimitiveCNode g y kPrimAllReduce = false ->
  reduce_mul g z = false ->
  users_recorded g m = true ->
  ∃ r v' g', AdjustAllReduceMulAdd node (mkPassState v g) = Ok (Some r, mkPassState v' g')
             ∧ IsPrimitiveCNode g' r kPrimMul = true
             ∧ ∀ w, AdjustAllReduceMulAdd r (mkPassState w g')
                    = Ok (None, mkPassState (Reset w) g').
Proof.
  intros Hnode Haddn Hmt Hmtop Horder Hm Hmul Har Harop Hfg Hy Hz Hrec.
  destruct (AdjustAllReduceMulAdd_accept_either v g node addn_op mt mt_op e1 e2 m mul_op
              ar y ar ar_op x y z fg) as (v' & g' & Hrun & Hrep & _); try done; [by left|].
  set (k := length (nodes g) + length (rehomed g z fg)) in *.
  set (g1 := mkGraph _ _) in Hrep.
  destruct (rewritten_lookup g addn_op mt_op ar_op mul_op x y z fg (node_users g))
    as (_ & _ & _ & H3 & _).
  fold k in H3. fold g1 in H3.
  assert (value_of g1 mul_op = Some (PrimitiveValue kPrimMul)) as Hmul1.
  { unfold g1. by rewrite value_of_app by apply rewritten_CNodes. }
  assert (∀ prim, IsPrimitiveCNode g1 (S (S (S k))) prim = bool_decide (kPrimMul = prim))
    as Hprim1.
  { intros prim. eapply IsPrimitiveCNode_intro; [|done]. by eapply cnode_inputs_intro. }
  assert (node_at g' (S (S (S k))) = node_at g1 (S (S (S k)))) as Hr.
  { eapply repointed_unchanged; [done|]. intros j _. right. by rewrite Hprim1. }
  assert (value_of g' mul_op = Some (PrimitiveValue kPrimMul)) as Hmul'.
  { destruct Hrep as [_ Hrep]. specialize (Hrep mul_op). unfold value_of in *.
    destruct (node_at g1 mul_op) as [[| |]|]; try done. by rewrite Hrep. }
  assert (∀ prim, IsPrimitiveCNode g' (S (S (S k))) prim = bool_decide (kPrimMul = prim))
    as Hprim'.
  { intros prim. eapply IsPrimitiveCNode_intro; [|done].
    eapply cnode_inputs_intro. by rewrite Hr. }
  exists (S (S (S k))), v', g'. split_and!; [done|by rewrite Hprim'|].
  intros w. apply not_AddN_declined. by rewrite Hprim'.
Qed.

(** A user list the loop of [ProcessDependEdge] skips entirely. *)
Lemma ProcessDependEdge_loop_skip mt new U v g :
  (∀ c i, (c, i) ∈ U -> c = mt ∨ IsPrimitiveCNode g c kPrimMakeTuple = false) ->
  for_each U (ProcessDependEdge_user mt new) (mkPassState v g) = Ok (tt, mkPassState v g).
Proof.
  induction U as [|[c i] U IH]; intros HU; [done|].
  cbn [for_each]. unfold bind at 1. unfold ProcessDependEdge_user at 1. cbn [fst snd].
  assert ((if bool_decide (c ≠ mt)
           then s <- get;;
                if IsPrimitiveCNode (graph s) c kPrimMakeTuple
                then on_graph (SetEdge c i new) else ret ()
           else ret ()) (mkPassState v g) = Ok (tt, mkPassState v g)) as ->.
  { case_bool_decide as Hc; [|done]. unfold bind, get. cbn [graph].
    destruct (HU c i) as [? | ->]; [apply elem_of_cons; by left|done..]. }
  apply IH. intros c' i' Hin. apply (HU c' i'), elem_of_cons. by right.
Qed.

(** X18: when the old Mul has no recorded user that is a MakeTuple call
    other than the matched one, the accepted rewrite, the tuple in either
    order, changes nothing of the old graph: the store it leaves is the
    old one with the four or five new nodes appended, the user map
    untouched. *)
Theorem rewrite_appends_only
    v g node addn_op mt mt_op e1 e2 m mul_op ar ar_op x y z fg :
  cnode_inputs g node = Some [addn_op; mt] ->
  value_of g addn_op = Some (PrimitiveValue kPrimAddN) ->
  cnode_inputs g mt = Some [mt_op; e1; e2] ->
  value_of g mt_op = Some (PrimitiveValue kPrimMakeTuple) ->
  (e1 = m ∧ e2 = z) ∨ (e1 = z ∧ e2 = m) ->
  cnode_inputs g m = Some [mul_op; ar; y] ->
  value_of g mul_op = Some (PrimitiveValue kPrimMul) ->
  cnode_inputs g ar = Some [ar_op; x] ->
  value_of g ar_op = Some (PrimitiveValue kPrimAllReduce) ->
  func_graph_of g ar = Some fg ->
  IsPrimitiveCNode g y kPrimAllReduce = false ->
  reduce_mul g z = false ->
  users_recorded g m = true ->
  (∀ c i, (c, i) ∈ users_of g m ->
          c = mt ∨ IsPrimitiveCNode g c kPrimMakeTuple = false) ->
  ∃ v', AdjustAllReduceMulAdd node (mkPassState v g)
        = Ok (Some (length (nodes g) + length (rehomed g z fg) + 3),
              mkPassState v'
                (mkGraph (nodes g ++ rewritten g addn_op mt_op ar_op mul_op x y z fg)
                         (node_users g))).
Proof.
  intros Hnode Haddn Hmt Hmtop Horder Hm Hmul Har Harop Hfg Hy Hz Hrec Hskip.
  destruct (AdjustAllReduceMulAdd_build v g node addn_op mt mt_op e1 e2 m mul_op ar y
              ar ar_op x y z fg) as (v2 & Hv2 & ->); try done; [by left|].
  set (k := length (nodes g) + length (rehomed g z fg)).
  set (g1 := mkGraph _ _).
  replace (k + 3) with (S (S (S k))) by lia.
  destruct (users_recorded_manager _ _ Hrec) as (users & Hmgr).
  exists v2. unfold bind at 1. unfold ProcessDependEdge. unfold bind at 1, get at 1.
  cbn [self graph]. rewrite Hv2. cbn [node_users g1]. rewrite Hmgr.
  destruct (users !! m) as [U|] eqn:HUm; [|done].
  rewrite ProcessDependEdge_loop_skip; [done|].
  intros c i Hin.
  assert ((c, i) ∈ users_of g m) as Hin' by (unfold users_of; by rewrite Hmgr, HUm).
  destruct (users_recorded_elem _ _ _ _ Hrec Hin') as (ins & Hins%cnode_inputs_lt & _).
  unfold g1. rewrite IsPrimitiveCNode_app by eauto using rewritten_CNodes.
  by apply (Hskip c i).
Qed.

(** X24: the place of the AllReduce call among the Mul's two operands does
    not matter.  On a candidate whose reduce-mul is [Mul(y, AllReduce(x))],
    the AllReduce second, the tuple in either order, the pass returns the
    same new Mul over the same new nodes as for [Mul(AllReduce(x), y)],
    the new AllReduce first and [y] second, and repairs the same edges. *)
Theorem reassociation_mul_mirrored
    v g node addn_op mt mt_op e1 e2 m mul_op ar ar_op x y z fg :
  cnode_inputs g node = Some [addn_op; mt] ->
  value_of g addn_op = Some (PrimitiveValue kPrimAddN) ->
  cnode_inputs g mt = Some [mt_op; e1; e2] ->
  value_of g mt_op = Some (PrimitiveValue kPrimMakeTuple) ->
  (e1 = m ∧ e2 = z) ∨ (e1 = z ∧ e2 = m) ->
  cnode_inputs g m = Some [mul_op; y; ar] ->
  value_of g mul_op = Some (PrimitiveValue kPrimMul) ->
  cnode_inputs g ar = Some [ar_op; x] ->
  value_of g ar_op = Some (PrimitiveValue kPrimAllReduce) ->
  func_graph_of g ar = Some fg ->
  IsPrimitiveCNode g y kPrimAllReduce = false ->
  reduce_mul g z = false ->
  users_recorded g m = true ->
  let k := length (nodes g) + length (rehomed g z fg) in
  let g1 := mkGraph (nodes g ++ rewritten g addn_op mt_op ar_op mul_op x y z fg)
                    (node_users g) in
  ∃ v' g', AdjustAllReduceMulAdd node (mkPassState v g)
           = Ok (Some (S (S (S k))), mkPassState v' g')
           ∧ repointed (users_of g m) mt (S (S k)) g1 g'
           ∧ recorded (users_of g m) mt (S (S k)) g1 g'.
Proof.
  intros Hnode Haddn Hmt Hmtop Horder Hm Hmul Har Harop Hfg Hy Hz Hrec.
  apply (AdjustAllReduceMulAdd_accept_either v g node addn_op mt mt_op e1 e2 m mul_op
           y ar ar ar_op x y z fg); try done.
  by right.
Qed.

(** X25: with no manager the accepted rewrite faults.  On a candidate of
    the accepted shape, the tuple and the Mul's operands in either order,
    in a store whose sub-graphs have no manager, the pass builds its new
    nodes and then calls through the null manager at line 125. *)
Theorem unmanaged_rewrite_faults
    v g node addn_op mt mt_op e1 e2 m mul_op a1 a2 ar ar_op x y z fg :
  cnode_inputs g node = Some [addn_op; mt] ->
  value_of g addn_op = Some (PrimitiveValue kPrimAddN) ->
  cnode_inputs g mt = Some [mt_op; e1; e2] ->
  value_of g mt_op = Some (PrimitiveValue kPrimMakeTuple) ->
  (e1 = m ∧ e2 = z) ∨ (e1 = z ∧ e2 = m) ->
  cnode_inputs g m = Some [mul_op; a1; a2] ->
  (a1 = ar ∧ a2 = y) ∨ (a1 = y ∧ a2 = ar) ->
  value_of g mul_op = Some (PrimitiveValue kPrimMul) ->
  cnode_inputs g ar = Some [ar_op; x] ->
  value_of g ar_op = Some (PrimitiveValue kPrimAllReduce) ->
  func_graph_of g ar = Some fg ->
  IsPrimitiveCNode g y kPrimAllReduce = false ->
  reduce_mul g z = false ->
  node_users g = None ->
  AdjustAllReduceMulAdd node (mkPassState v g) = Fault.
Proof.
  intros Hnode Haddn Hmt Hmtop Horder Hm Hpos Hmul Har Harop Hfg Hy Hz Hmgr.
  destruct (AdjustAllReduceMulAdd_build v g node addn_op mt mt_op e1 e2 m mul_op a1 a2
              ar ar_op x y z fg) as (v2 & Hv2 & ->); try done.
  unfold bind at 1. unfold ProcessDependEdge. unfold bind at 1, get at 1.
  cbn [self graph node_users]. by rewrite Hmgr.
Qed.

End Either_order.

(** ** The binding of [y_] *)

Section Stale_tmp.

(** A Mul element none of whose two operands is an AllReduce call: it
    becomes [z_], and its last operand stays behind in [tmp_]. *)
Lemma visit_element_plain_mul g e op p q v :
  cnode_inputs g e = Some [op; p; q] ->
  value_of g op = Some (PrimitiveValue kPrimMul) ->
  IsPrimitiveCNode g p kPrimAllReduce = false ->
  IsPrimitiveCNode g q kPrimAllReduce = false ->
  visit_element g e v
  = mkVisitor 0 false (x_ v) (y_ v) (Some e) (Some q)
              (all_reduce_fg_ v) (all_reduce_ v) (mul_ v) (mul_cnode_ v).
Proof.
  intros He Hop Hp Hq. unfold visit_element. cbv zeta.
  rewrite (IsPrimitiveCNode_intro _ _ _ _ _ kPrimMul He Hop), He.
  rewrite bool_decide_eq_true_2 by done.
  cbn [drop fold_left]. unfold level1_step. by rewrite Hp, Hq.
Qed.

(** A Mul element both of whose operands are AllReduce calls: the second
    one gives [x_], and [y_] is what [tmp_] held before. *)
Lemma visit_element_two_reduces g m mul_op ar1 ar2 op1 x1 op2 x2 v :
  cnode_inputs g m = Some [mul_op; ar1; ar2] ->
  value_of g mul_op = Some (PrimitiveValue kPrimMul) ->
  cnode_inputs g ar1 = Some [op1; x1] ->
  value_of g op1 = Some (PrimitiveValue kPrimAllReduce) ->
  cnode_inputs g ar2 = Some [op2; x2] ->
  value_of g op2 = Some (PrimitiveValue kPrimAllReduce) ->
  visit_element g m v
  = mkVisitor 0 true (Some x2) (tmp_ v) (z_ v) (tmp_ v) (func_graph_of g ar2)
              (Some op2) (Some mul_op) (Some m).
Proof.
  intros Hm Hmul H1 Hop1 H2 Hop2. unfold visit_element. cbv zeta.
  rewrite (IsPrimitiveCNode_intro _ _ _ _ _ kPrimMul Hm Hmul), Hm.
  rewrite bool_decide_eq_true_2 by done.
  cbn [drop fold_left]. unfold level1_step.
  rewrite (IsPrimitiveCNode_intro _ _ _ _ _ kPrimAllReduce H1 Hop1), H1.
  rewrite (IsPrimitiveCNode_intro _ _ _ _ _ kPrimAllReduce H2 Hop2), H2.
  by rewrite bool_decide_eq_true_2.
Qed.

(** X19: [tmp_] is cleared by [Reset] only, not between the two elements
    of the tuple.  On [AddN(MakeTuple(Mul(p, q), Mul(AllReduce(x1),
    AllReduce(x2))))], where the second Mul has no operand of its own to
    give [y_], the pass accepts all the same: it takes [q], the last
    operand of the decay term, for [y], and returns
    [Mul(AllReduce(AddN(MakeTuple(z', x2))), q)]. *)
Theorem y_bound_from_decay_term
    v g node addn_op mt mt_op z z_op p q m mul_op ar1 op1 x1 ar2 op2 x2 fg :
  cnode_inputs g node = Some [addn_op; mt] ->
  value_of g addn_op = Some (PrimitiveValue kPrimAddN) ->
  cnode_inputs g mt = Some [mt_op; z; m] ->
  value_of g mt_op = Some (PrimitiveValue kPrimMakeTuple) ->
  cnode_inputs g z = Some [z_op; p; q] ->
  value_of g z_op = Some (PrimitiveValue kPrimMul) ->
  IsPrimitiveCNode g p kPrimAllReduce = false ->
  IsPrimitiveCNode g q kPrimAllReduce = false ->
  cnode_inputs g m = Some [mul_op; ar1; ar2] ->
  value_of g mul_op = Some (PrimitiveValue kPrimMul) ->
  cnode_inputs g ar1 = Some [op1; x1] ->
  value_of g op1 = Some (PrimitiveValue kPrimAllReduce) ->
  cnode_inputs g ar2 = Some [op2; x2] ->
  value_of g op2 = Some (PrimitiveValue kPrimAllReduce) ->
  func_graph_of g ar2 = Some fg ->
  users_recorded g m = true ->
  users_of g m = [] ->
  ∃ v', AdjustAllReduceMulAdd node (mkPassState v g)
        = Ok (Some (length (nodes g) + length (rehomed g z fg) + 3),
              mkPassState v'
                (mkGraph (nodes g ++ rewritten g addn_op mt_op op2 mul_op x2 q z fg)
                         (node_users g))).
Proof.
  intros Hnode Haddn Hmt Hmtop Hz Hzop Hp Hq Hm Hmul H1 Hop1 H2 Hop2 Hfg Hrec Husers.
  unfold AdjustAllReduceMulAdd. unfold bind at 1. rewrite match_AddN_eq.
  cbv zeta. cbn [self graph].
  rewrite (IsPrimitiveCNode_intro _ _ _ _ _ kPrimAddN Hnode Haddn), Hnode.
  rewrite bool_decide_eq_true_2 by done.
  unfold match_tuple.
  rewrite (IsPrimitiveCNode_intro _ _ _ _ _ kPrimMakeTuple Hmt Hmtop), Hmt.
  rewrite bool_decide_eq_true_2 by done.
  rewrite (visit_element_plain_mul _ _ _ _ _ _ Hz Hzop Hp Hq).
  rewrite (visit_element_two_reduces _ _ _ _ _ _ _ _ _ _ Hm Hmul H1 Hop1 H2 Hop2), Hfg.
  cbn [x_ y_ z_ tmp_ all_reduce_fg_ all_reduce_ mul_ mul_cnode_ Reset].
  match goal with |- context [mkPassState ?w g] => set (v1 := w) end.
  destruct (rewrite_AddN_build addn_op mt mt_op [z; m] v1 g x2 q z fg op2 mul_op)
    as (v2 & Hv2 & ->); try done.
  set (k := length (nodes g) + length (rehomed g z fg)).
  replace (k + 3) with (S (S (S k))) by lia.
  destruct (users_recorded_manager _ _ Hrec) as (users & Hmgr).
  unfold users_of in Husers. rewrite Hmgr in Husers.
  exists v2. unfold bind at 1. unfold ProcessDependEdge. unfold bind at 1, get at 1.
  cbn [self graph]. rewrite Hv2. cbn [node_users mul_cnode_ v1]. rewrite Hmgr.
  destruct (users !! m) as [U|]; [|done]. cbn in Husers. by subst U.
Qed.

End Stale_tmp.

(** ** More candidates the pass declines *)

Section Declined.

(** X21: a detached AllReduce makes the pass decline.  On a candidate of
    the accepted shape, the tuple in either order, whose AllReduce call
    belongs to no sub-graph, [all_reduce_fg_] stays null and the pass
    returns nothing in the graph it was given: it never builds into an
    absent sub-graph. *)
Theorem detached_reduce_declined
    v g node addn_op mt mt_op e1 e2 m mul_op ar ar_op x y z :
  cnode_inputs g node = Some [addn_op; mt] ->
  value_of g addn_op = Some (PrimitiveValue kPrimAddN) ->
  cnode_inputs g mt = Some [mt_op; e1; e2] ->
  value_of g mt_op = Some (PrimitiveValue kPrimMakeTuple) ->
  (e1 = m ∧ e2 = z) ∨ (e1 = z ∧ e2 = m) ->
  cnode_inputs g m = Some [mul_op; ar; y] ->
  value_of g mul_op = Some (PrimitiveValue kPrimMul) ->
  cnode_inputs g ar = Some [ar_op; x] ->
  value_of g ar_op = Some (PrimitiveValue kPrimAllReduce) ->
  func_graph_of g ar = None ->
  IsPrimitiveCNode g y kPrimAllReduce = false ->
  reduce_mul g z = false ->
  ∃ v', AdjustAllReduceMulAdd node (mkPassState v g) = Ok (None, mkPassState v' g).
Proof.
  intros Hnode Haddn Hmt Hmtop Horder Hm Hmul Har Harop Hfg Hy Hz.
  unfold AdjustAllReduceMulAdd. unfold bind at 1. rewrite match_AddN_eq.
  cbv zeta. cbn [self graph].
  rewrite (IsPrimitiveCNode_intro _ _ _ _ _ kPrimAddN Hnode Haddn), Hnode.
  rewrite bool_decide_eq_true_2 by done.
  eexists. apply rewrite_AddN_unbound. right. right. right. cbn [self].
  unfold match_tuple.
  rewrite (IsPrimitiveCNode_intro _ _ _ _ _ kPrimMakeTuple Hmt Hmtop), Hmt.
  rewrite bool_decide_eq_true_2 by done.
  destruct Horder as [[-> ->]|[-> ->]].
  - rewrite (visit_element_reduce_mul _ _ _ _ _ _ _ _ _ Hm Hmul Har Harop Hy), Hfg.
    by rewrite (visit_element_not_reduce _ _ _ Hz).
  - by rewrite (visit_element_reduce_mul _ _ _ _ _ _ _ _ _ Hm Hmul Har Harop Hy), Hfg.
Qed.

(** X22: the order of the tuple does matter when the reduce-mul has no
    operand of its own for [y_].  With [Mul(AllReduce(x1), AllReduce(x2))]
    as the first element, [tmp_] is still null when [y_] is read, and the
    pass declines whatever the second element is. *)
Theorem two_reduces_first_declined
    v g node addn_op mt mt_op m e2 mul_op ar1 op1 x1 ar2 op2 x2 :
  cnode_inputs g node = Some [addn_op; mt] ->
  value_of g addn_op = Some (PrimitiveValue kPrimAddN) ->
  cnode_inputs g mt = Some [mt_op; m; e2] ->
  value_of g mt_op = Some (PrimitiveValue kPrimMakeTuple) ->
  cnode_inputs g m = Some [mul_op; ar1; ar2] ->
  value_of g mul_op = Some (PrimitiveValue kPrimMul) ->
  cnode_inputs g ar1 = Some [op1; x1] ->
  value_of g op1 = Some (PrimitiveValue kPrimAllReduce) ->
  cnode_inputs g ar2 = Some [op2; x2] ->
  value_of g op2 = Some (PrimitiveValue kPrimAllReduce) ->
  ∃ v', AdjustAllReduceMulAdd node (mkPassState v g) = Ok (None, mkPassState v' g).
Proof.
  intros Hnode Haddn Hmt Hmtop Hm Hmul H1 Hop1 H2 Hop2.
  unfold AdjustAllReduceMulAdd. unfold bind at 1. rewrite match_AddN_eq.
  cbv zeta. cbn [self graph].
  rewrite (IsPrimitiveCNode_intro _ _ _ _ _ kPrimAddN Hnode Haddn), Hnode.
  rewrite bool_decide_eq_true_2 by done.
  eexists. apply rewrite_AddN_unbound. cbn [self].
  unfold match_tuple.
  rewrite (IsPrimitiveCNode_intro _ _ _ _ _ kPrimMakeTuple Hmt Hmtop), Hmt.
  rewrite bool_decide_eq_true_2 by done.
  rewrite (visit_element_two_reduces _ _ _ _ _ _ _ _ _ _ Hm Hmul H1 Hop1 H2 Hop2).
  cbn [tmp_ z_ Reset].
  destruct (reduce_mul g e2) eqn:He2.
  - right. right. left.
    by destruct (visit_element_reduce g e2
                   (mkVisitor 0 true (Some x2) None None None (func_graph_of g ar2)
                              (Some op2) (Some mul_op) (Some m)) He2) as [-> _].
  - right. left. by rewrite (visit_element_not_reduce _ _ _ He2).
Qed.

End Declined.

(** ** The further properties at the sample graphs *)

(** X1 at [arith_graph]: [x + 0] gives [x], [0 + x] nothing. *)
Lemma tensor_add_rule_at_arith_graph :
  ArithmeticSimplify fold_int32 10 arith_graph = Ok (Some 4, arith_graph)
  ∧ ArithmeticSimplify fold_int32 11 arith_graph = Ok (None, arith_graph).
Proof.
  split.
  - apply (tensor_add_rule fold_int32 arith_graph 10 0 4 5); reflexivity.
  - apply (tensor_add_rule fold_int32 arith_graph 11 0 5 4); reflexivity.
Defined.

(** X2 at [rules_graph]: both [scalar_add(0, x)] and [scalar_add(x, 0)]
    give [x]. *)
Lemma scalar_add_rule_at_rules_graph :
  ArithmeticSimplify fold_int32 20 rules_graph = Ok (Some 6, rules_graph)
  ∧ ArithmeticSimplify fold_int32 21 rules_graph = Ok (Some 6, rules_graph).
Proof.
  split.
  - apply (scalar_add_rule fold_int32 rules_graph 20 4 9 6); reflexivity.
  - apply (scalar_add_rule fold_int32 rules_graph 21 4 6 9); reflexivity.
Defined.

(** X3 at [arith_graph]: [scalar_mul(1, x)] gives [x], [scalar_mul(0, 1)]
    its zero operand, and [scalar_mul(x, 0)] the new node 23. *)
Lemma scalar_mul_rule_at_arith_graph :
  ArithmeticSimplify fold_int32 21 arith_graph = Ok (Some 4, arith_graph)
  ∧ ArithmeticSimplify fold_int32 18 arith_graph = Ok (Some 5, arith_graph)
  ∧ ArithmeticSimplify fold_int32 17 arith_graph
    = Ok (Some 23,
          mkGraph (nodes arith_graph ++ [ValueNode (Int32Imm 0)]) (node_users arith_graph)).
Proof.
  split_and!.
  - apply (scalar_mul_rule fold_int32 arith_graph 21 2 6 4); reflexivity.
  - apply (scalar_mul_rule fold_int32 arith_graph 18 2 5 6); reflexivity.
  - apply (scalar_mul_rule fold_int32 arith_graph 17 2 4 5); reflexivity.
Defined.

(** X4 at [rules_graph]: [identity(x)], attached and detached. *)
Lemma identity_rule_at_rules_graph :
  ArithmeticSimplify fold_int32 12 rules_graph = Ok (Some 6, rules_graph)
  ∧ ArithmeticSimplify fold_int32 13 rules_graph = Ok (Some 6, rules_graph).
Proof.
  split.
  - apply (identity_rule fold_int32 rules_graph 12 0 6); reflexivity.
  - apply (identity_rule fold_int32 rules_graph 13 0 6); reflexivity.
Defined.

(** X5 at [rules_graph]: [pow(x, 1)] attached gives [x]; detached, and
    [pow(x, 2)], nothing. *)
Lemma pow_rule_at_rules_graph :
  ArithmeticSimplify fold_int32 14 rules_graph = Ok (Some 6, rules_graph)
  ∧ ArithmeticSimplify fold_int32 15 rules_graph = Ok (None, rules_graph)
  ∧ ArithmeticSimplify fold_int32 16 rules_graph = Ok (None, rules_graph).
Proof.
  split_and!.
  - apply (pow_rule fold_int32 rules_graph 14 1 6 10); reflexivity.
  - apply (pow_rule fold_int32 rules_graph 15 1 6 10); reflexivity.
  - apply (pow_rule fold_int32 rules_graph 16 1 6 11); reflexivity.
Defined.

(** X6 at [rules_graph]: the attached Momentum call gives the new call
    [MakeTuple(v, m)] at address 26 over the new operator node 25; the
    detached one nothing. *)
Lemma momentum_rule_at_rules_graph :
  ArithmeticSimplify fold_int32 18 rules_graph
  = Ok (Some 26,
        mkGraph (nodes rules_graph ++ [ValueNode (PrimitiveValue kPrimMakeTuple);
                                       CNode [25; 8; 7] (Some 0)])
                (node_users rules_graph))
  ∧ ArithmeticSimplify fold_int32 19 rules_graph = Ok (None, rules_graph).
Proof.
  split.
  - apply (momentum_rule fold_int32 rules_graph 18 2 17 3 6 7 8 11); reflexivity.
  - apply (momentum_rule fold_int32 rules_graph 19 2 17 3 6 7 8 11); reflexivity.
Defined.

(** X8 at [reduce_graph]: an AddN call, a parameter and a value node. *)
Lemma sweep1_other_candidates_at_reduce_graph :
  ArithmeticSimplify fold_int32 11 reduce_graph = Ok (None, reduce_graph)
  ∧ ArithmeticSimplify fold_int32 4 reduce_graph = Ok (None, reduce_graph)
  ∧ ArithmeticSimplify fold_int32 0 reduce_graph = Ok (None, reduce_graph).
Proof.
  split_and!.
  - apply (sweep1_other_candidates fold_int32 reduce_graph 11); reflexivity.
  - apply (sweep1_other_candidates fold_int32 reduce_graph 4); reflexivity.
  - apply (sweep1_other_candidates fold_int32 reduce_graph 0); reflexivity.
Defined.

(** X9 at [arith_graph]: after [2 * (3 * x)] and after
    [tensor * (3 * x)], the node returned is left alone. *)
Lemma folded_multiply_settles_at_arith_graph :
  (∃ r g', ArithmeticSimplify fold_int32 13 arith_graph = Ok (Some r, g')
           ∧ ArithmeticSimplify fold_int32 r g' = Ok (None, g'))
  ∧ (∃ r g', ArithmeticSimplify fold_int32 14 arith_graph = Ok (Some r, g')
             ∧ ArithmeticSimplify fold_int32 r g' = Ok (None, g')).
Proof.
  split.
  - apply (folded_multiply_settles fold_int32 arith_graph 13 1 7 12 1 8 4
             (Int32Imm 2) (Int32Imm 3) 0); try reflexivity.
    simpl. lia.
  - apply (folded_multiply_settles fold_int32 arith_graph 14 1 9 12 1 8 4
             (Tensor 1 [2%Z; 2%Z]) (Int32Imm 3) 0); try reflexivity.
    simpl. lia.
Defined.

(** X10 at [rules_graph]: [x * 0] gives the zero node 9. *)
Lemma mul_zero_rule_at_rules_graph :
  ArithmeticSimplify2 stamp_constant 22 rules_graph = Ok (Some 9, rules_graph).
Proof.
  apply (mul_zero_rule stamp_constant rules_graph 22 5 6 9); reflexivity.
Defined.

(** X11 at [rules_graph]: [x * ZerosLike(x)] gives the zero the constant
    maker stamps, the new node 25. *)
Lemma mul_zeros_like_rule_at_rules_graph :
  ArithmeticSimplify2 stamp_constant 24 rules_graph
  = Ok (Some 25,
        mkGraph (nodes rules_graph ++ [ValueNode (Int32Imm 0)]) (node_users rules_graph)).
Proof.
  apply (mul_zeros_like_rule stamp_constant rules_graph 24 5 6 17 3 6); reflexivity.
Defined.

(** X12 at [rules_graph]: [0 * x] and [identity(x)] are left alone. *)
Lemma sweep2_other_candidates_at_rules_graph :
  ArithmeticSimplify2 stamp_constant 23 rules_graph = Ok (None, rules_graph)
  ∧ ArithmeticSimplify2 stamp_constant 12 rules_graph = Ok (None, rules_graph).
Proof.
  split.
  - apply (sweep2_other_candidates stamp_constant rules_graph 23).
    intros op a b [= <- <- <-] _. split; reflexivity.
  - apply (sweep2_other_candidates stamp_constant rules_graph 12).
    intros op a b [=].
Defined.

(** X16 at [reduce_graph]: a Mul call and a parameter are declined. *)
Lemma pass_declines_at_reduce_graph :
  AdjustAllReduceMulAdd 8 (mkPassState stale_visitor reduce_graph)
  = Ok (None, mkPassState (Reset stale_visitor) reduce_graph)
  ∧ AdjustAllReduceMulAdd 4 (mkPassState stale_visitor reduce_graph)
    = Ok (None, mkPassState (Reset stale_visitor) reduce_graph).
Proof.
  split.
  - apply (pass_declines_other_candidates 8 stale_visitor reduce_graph); reflexivity.
  - apply (pass_declines_other_candidates 4 stale_visitor reduce_graph); reflexivity.
Defined.

(** X17 at [swapped_graph]: the new Mul is node 15, and the other
    MakeTuple (11) is re-pointed. *)
Lemma reassociation_at_swapped_graph :
  let g1 := mkGraph (nodes swapped_graph ++ rewritten swapped_graph 0 1 3 2 4 5 6 0)
                    (node_users swapped_graph) in
  ∃ v' g', AdjustAllReduceMulAdd 10 (mkPassState fresh_visitor swapped_graph)
           = Ok (Some 15, mkPassState v' g')
           ∧ repointed (users_of swapped_graph 8) 9 14 g1 g'
           ∧ recorded (users_of swapped_graph 8) 9 14 g1 g'.
Proof.
  apply (reassociation_tuple_swapped fresh_visitor swapped_graph 10 0 9 1 8 2 7 3 4 5 6 0);
    reflexivity.
Defined.

(** X18 at [plain_graph]: the four new nodes are appended, and nothing
    else changes. *)
Lemma rewrite_appends_only_at_plain_graph :
  ∃ v', AdjustAllReduceMulAdd 10 (mkPassState fresh_visitor plain_graph)
        = Ok (Some 15,
              mkPassState v'
                (mkGraph (nodes plain_graph ++
                          [CNode [1; 6; 4] (Some 0); CNode [0; 12] (Some 0);
                           CNode [3; 13] (Some 0); CNode [2; 14; 5] (Some 0)])
                         (node_users plain_graph))).
Proof.
  apply (rewrite_appends_only fresh_visitor plain_graph 10 0 9 1 8 6 8 2 7 3 4 5 6 0);
    try reflexivity.
  - left. split; reflexivity.
  - intros c i Hin. apply list_elem_of_In in Hin. vm_compute in Hin.
    destruct Hin as [[= <- <-]|[[= <- <-]|[]]]; [left|right]; reflexivity.
Defined.

(** X19 at [stale_graph]: the new Mul, node 19, multiplies by [r] (node
    7), an operand of the decay term. *)
Lemma y_bound_from_decay_term_at_stale_graph :
  ∃ v', AdjustAllReduceMulAdd 13 (mkPassState fresh_visitor stale_graph)
        = Ok (Some 19,
              mkPassState v'
                (mkGraph (nodes stale_graph ++
                          [CNode [1; 11; 5] (Some 0); CNode [0; 16] (Some 0);
                           CNode [3; 17] (Some 0); CNode [2; 18; 7] (Some 0)])
                         (node_users stale_graph))).
Proof.
  apply (y_bound_from_decay_term fresh_visitor stale_graph 13 0 12 1 11 2 6 7 10 2 8 3 4
           9 3 5 0); reflexivity.
Defined.

(** X20 at [swapped_graph]: the candidate AddN (10), the matched MakeTuple
    (9), the old Mul (8) and the old AllReduce (7) are the nodes they
    were. *)
Lemma matched_nodes_kept_at_swapped_graph :
  (∃ r v' g', AdjustAllReduceMulAdd 10 (mkPassState fresh_visitor swapped_graph)
              = Ok (Some r, mkPassState v' g')
              ∧ node_at g' 10 = node_at swapped_graph 10)
  ∧ (∃ r v' g', AdjustAllReduceMulAdd 10 (mkPassState fresh_visitor swapped_graph)
                = Ok (Some r, mkPassState v' g')
                ∧ node_at g' 9 = node_at swapped_graph 9)
  ∧ (∃ r v' g', AdjustAllReduceMulAdd 10 (mkPassState fresh_visitor swapped_graph)
                = Ok (Some r, mkPassState v' g')
                ∧ node_at g' 8 = node_at swapped_graph 8)
  ∧ (∃ r v' g', AdjustAllReduceMulAdd 10 (mkPassState fresh_visitor swapped_graph)
                = Ok (Some r, mkPassState v' g')
                ∧ node_at g' 7 = node_at swapped_graph 7).
Proof.
  split_and!.
  - apply (matched_nodes_kept fresh_visitor swapped_graph 10 0 9 1 6 8 8 2 7 3 4 5 6 0 10);
      try reflexivity; [by right|simpl; lia|by right].
  - apply (matched_nodes_kept fresh_visitor swapped_graph 10 0 9 1 6 8 8 2 7 3 4 5 6 0 9);
      try reflexivity; [by right|simpl; lia|by left].
  - apply (matched_nodes_kept fresh_visitor swapped_graph 10 0 9 1 6 8 8 2 7 3 4 5 6 0 8);
      try reflexivity; [by right|simpl; lia|by right].
  - apply (matched_nodes_kept fresh_visitor swapped_graph 10 0 9 1 6 8 8 2 7 3 4 5 6 0 7);
      try reflexivity; [by right|simpl; lia|by right].
Defined.

(** X21 at [detached_reduce_graph]: nothing is returned. *)
Lemma detached_reduce_declined_at_sample :
  ∃ v', AdjustAllReduceMulAdd 10 (mkPassState fresh_visitor detached_reduce_graph)
        = Ok (None, mkPassState v' detached_reduce_graph).
Proof.
  apply (detached_reduce_declined fresh_visitor detached_reduce_graph 10 0 9 1 8 6 8 2 7 3
           4 5 6); try reflexivity.
  left. split; reflexivity.
Defined.

(** X22 at [stale_graph]: with the Mul of the two AllReduce calls first
    (candidate 15), nothing is returned. *)
Lemma two_reduces_first_declined_at_stale_graph :
  ∃ v', AdjustAllReduceMulAdd 15 (mkPassState fresh_visitor stale_graph)
        = Ok (None, mkPassState v' stale_graph).
Proof.
  apply (two_reduces_first_declined fresh_visitor stale_graph 15 0 14 1 10 11 2 8 3 4
           9 3 5); reflexivity.
Defined.

(** X23 at [swapped_graph]: run again on the node it returned, the pass
    declines. *)
Lemma rewrite_settles_at_swapped_graph :
  ∃ r v' g', AdjustAllReduceMulAdd 10 (mkPassState fresh_visitor swapped_graph)
             = Ok (Some r, mkPassState v' g')
             ∧ IsPrimitiveCNode g' r kPrimMul = true
             ∧ ∀ w, AdjustAllReduceMulAdd r (mkPassState w g')
                    = Ok (None, mkPassState (Reset w) g').
Proof.
  apply (rewrite_settles fresh_visitor swapped_graph 10 0 9 1 6 8 8 2 7 3 4 5 6 0);
    try reflexivity.
  by right.
Defined.

(** X24 at [mirrored_graph]: the AllReduce is the second operand of the
    Mul (node 8); the new Mul is node 14, over the new AllReduce 13. *)
Lemma reassociation_at_mirrored_graph :
  ∃ v' g', AdjustAllReduceMulAdd 10 (mkPassState fresh_visitor mirrored_graph)
           = Ok (Some 14, mkPassState v' g')
           ∧ repointed (users_of mirrored_graph 8) 9 13
               (mkGraph (nodes mirrored_graph ++ rewritten mirrored_graph 0 1 3 2 4 5 6 0)
                        (node_users mirrored_graph)) g'
           ∧ recorded (users_of mirrored_graph 8) 9 13
               (mkGraph (nodes mirrored_graph ++ rewritten mirrored_graph 0 1 3 2 4 5 6 0)
                        (node_users mirrored_graph)) g'.
Proof.
  apply (reassociation_mul_mirrored fresh_visitor mirrored_graph 10 0 9 1 8 6 8 2 7 3
           4 5 6 0); try reflexivity.
  left. split; reflexivity.
Defined.

(** X25 at [unmanaged_graph]: the candidate [plain_graph] rewrites faults
    when there is no manager. *)
Lemma unmanaged_rewrite_faults_at_sample :
  node_users unmanaged_graph = None
  ∧ AdjustAllReduceMulAdd 10 (mkPassState fresh_visitor unmanaged_graph) = Fault.
Proof.
  split; [reflexivity|].
  apply (unmanaged_rewrite_faults fresh_visitor unmanaged_graph 10 0 9 1 8 6 8 2 7 5
           7 3 4 5 6 0); try reflexivity.
  - left. split; reflexivity.
  - left. split; reflexivity.
Defined.
